(** * SimpLui task model: identity, flattening, completeness and Flow

    A shallow embedding of [src/simplui/task.py].  Python values are
    modelled by first-order data, exceptions by an error result, the
    [warnings.warn] channel by an explicit log, and instance attributes
    by explicit attribute tables. *)

From Stdlib Require Import ZArith NArith List Bool Lia Permutation String Ascii.
From Stdlib Require Import Sorted.
Import ListNotations.

Set Implicit Arguments.

(* ================================================================== *)
(** ** Python exceptions and results *)

Module Py.

(** The exception classes that the modelled code can raise or catch. *)
Inductive exc : Type :=
| BaseException_
| Exception_
| TypeError
| ValueError
| AttributeError
| RuntimeError
| RecursionError
| NotImplementedError
| BulkCompleteNotImplementedError
| UnicodeEncodeError
| KeyError
| ParameterException
| MissingParameterException
| UnknownParameterException
| DuplicateParameterException.

Definition exc_eqb (a b : exc) : bool :=
  match a, b with
  | BaseException_, BaseException_ | Exception_, Exception_
  | TypeError, TypeError | ValueError, ValueError
  | AttributeError, AttributeError | RuntimeError, RuntimeError
  | RecursionError, RecursionError
  | NotImplementedError, NotImplementedError
  | BulkCompleteNotImplementedError, BulkCompleteNotImplementedError
  | UnicodeEncodeError, UnicodeEncodeError
  | KeyError, KeyError
  | ParameterException, ParameterException
  | MissingParameterException, MissingParameterException
  | UnknownParameterException, UnknownParameterException
  | DuplicateParameterException, DuplicateParameterException => true
  | _, _ => false
  end.

(** Direct base class of each exception class.
    [class BulkCompleteNotImplementedError(NotImplementedError)] is
    declared in task.py; the others are Python built-ins, and the
    parameter exceptions derive from [ParameterException]. *)
Definition exc_base (e : exc) : option exc :=
  match e with
  | BaseException_ => None
  | Exception_ => Some BaseException_
  | TypeError | ValueError | AttributeError | RuntimeError | KeyError
  | ParameterException => Some Exception_
  | RecursionError | NotImplementedError => Some RuntimeError
  | BulkCompleteNotImplementedError => Some NotImplementedError
  | UnicodeEncodeError => Some ValueError
  | MissingParameterException | UnknownParameterException
  | DuplicateParameterException => Some ParameterException
  end.

Fixpoint issubclass_fuel (fuel : nat) (e c : exc) : bool :=
  exc_eqb e c ||
  match fuel with
  | O => false
  | S f => match exc_base e with
           | Some b => issubclass_fuel f b c
           | None => false
           end
  end.

(** [issubclass e c]: an [except c] clause catches [e]. The hierarchy
    above has depth below 8. *)
Definition issubclass (e c : exc) : bool := issubclass_fuel 8 e c.

Inductive result (A : Type) : Type :=
| Ok (a : A)
| Raise (e : exc).

Arguments Ok {A} a.
Arguments Raise {A} e.

Definition bind {A B} (r : result A) (k : A -> result B) : result B :=
  match r with
  | Ok a => k a
  | Raise e => Raise e
  end.

(** [try: r except c: h] *)
Definition try_except {A} (r : result A) (c : exc) (h : result A) : result A :=
  match r with
  | Ok a => Ok a
  | Raise e => if issubclass e c then h else Raise e
  end.

Fixpoint mapM {A B} (f : A -> result B) (l : list A) : result (list B) :=
  match l with
  | [] => Ok []
  | x :: xs => bind (f x) (fun y => bind (mapM f xs) (fun ys => Ok (y :: ys)))
  end.

End Py.

Import Py.

Notation "x <- c ;; k" := (Py.bind c (fun x => k))
  (at level 61, c at next level, right associativity).

(* ================================================================== *)
(** ** Python strings

    A Python [str] is a sequence of Unicode code points. *)

Definition pystr : Type := list N.

Definition pystr_eq_dec : forall a b : pystr, {a = b} + {a <> b} :=
  list_eq_dec N.eq_dec.

Definition pystr_eqb (a b : pystr) : bool :=
  if pystr_eq_dec a b then true else false.

(** Literals: each character of a Rocq string is read as the code point
    of the same number. *)
Fixpoint py (s : string) : pystr :=
  match s with
  | EmptyString => []
  | String c r => N_of_ascii c :: py r
  end.

(** Python's [<] on [str]: lexicographic on code points, a proper prefix
    being smaller. *)
Fixpoint pystr_ltb (a b : pystr) : bool :=
  match a, b with
  | _, [] => false
  | [], _ :: _ => true
  | x :: a', y :: b' =>
      if (x <? y)%N then true
      else if (y <? x)%N then false
      else pystr_ltb a' b'
  end.

(** [sep.join(parts)] *)
Fixpoint join (sep : pystr) (parts : list pystr) : pystr :=
  match parts with
  | [] => []
  | [p] => p
  | p :: rest => p ++ sep ++ join sep rest
  end.

(** [str(n)] for a non-negative integer. *)
Fixpoint uint_codes (d : Decimal.uint) : pystr :=
  match d with
  | Decimal.Nil => []
  | Decimal.D0 r => 48%N :: uint_codes r
  | Decimal.D1 r => 49%N :: uint_codes r
  | Decimal.D2 r => 50%N :: uint_codes r
  | Decimal.D3 r => 51%N :: uint_codes r
  | Decimal.D4 r => 52%N :: uint_codes r
  | Decimal.D5 r => 53%N :: uint_codes r
  | Decimal.D6 r => 54%N :: uint_codes r
  | Decimal.D7 r => 55%N :: uint_codes r
  | Decimal.D8 r => 56%N :: uint_codes r
  | Decimal.D9 r => 57%N :: uint_codes r
  end.

Definition str_of_N (n : N) : pystr := uint_codes (N.to_uint n).

(** Lower-case hexadecimal digit of a value below 16. *)
Definition hex_digit (n : N) : N :=
  (if n <? 10 then 48 + n else 87 + n)%N.

(** ['{0:04x}'.format(n)] for [n < 0x10000]. *)
Definition hex4 (n : N) : pystr :=
  [hex_digit (N.shiftr n 12 mod 16); hex_digit (N.shiftr n 8 mod 16);
   hex_digit (N.shiftr n 4 mod 16); hex_digit (n mod 16)]%N.

(** [s.encode('utf-8')]: surrogate code points cannot be encoded. *)
Definition utf8_char (c : N) : result (list N) :=
  (if c <? 0x80 then Ok [c]
   else if c <? 0x800 then
     Ok [N.lor 0xC0 (N.shiftr c 6); N.lor 0x80 (N.land c 0x3F)]
   else if (0xD800 <=? c) && (c <=? 0xDFFF) then Raise UnicodeEncodeError
   else if c <? 0x10000 then
     Ok [N.lor 0xE0 (N.shiftr c 12);
         N.lor 0x80 (N.land (N.shiftr c 6) 0x3F);
         N.lor 0x80 (N.land c 0x3F)]
   else
     Ok [N.lor 0xF0 (N.shiftr c 18);
         N.lor 0x80 (N.land (N.shiftr c 12) 0x3F);
         N.lor 0x80 (N.land (N.shiftr c 6) 0x3F);
         N.lor 0x80 (N.land c 0x3F)])%N.

Fixpoint encode_utf8 (s : pystr) : result (list N) :=
  match s with
  | [] => Ok []
  | c :: r =>
      bs <- utf8_char c ;;
      rest <- encode_utf8 r ;;
      Ok (bs ++ rest)
  end.

(* ================================================================== *)
(** ** Python dictionaries

    A [dict] keeps its items in insertion order and has unique keys. *)

Section Dict.
Variable V : Type.

Definition pydict : Type := list (pystr * V).

Definition dict_keys (d : pydict) : list pystr := map fst d.

(** [d.get(k)] *)
Fixpoint dict_get (d : pydict) (k : pystr) : option V :=
  match d with
  | [] => None
  | (k', v) :: r => if pystr_eqb k' k then Some v else dict_get r k
  end.

(** [d[k]] *)
Definition dict_getitem (d : pydict) (k : pystr) : result V :=
  match dict_get d k with Some v => Ok v | None => Raise KeyError end.

(** [k in d] *)
Definition dict_mem (d : pydict) (k : pystr) : bool :=
  match dict_get d k with Some _ => true | None => false end.

(** [d[k] = v]: an existing key keeps its position. *)
Fixpoint dict_set (d : pydict) (k : pystr) (v : V) : pydict :=
  match d with
  | [] => [(k, v)]
  | (k', v') :: r =>
      if pystr_eqb k' k then (k, v) :: r else (k', v') :: dict_set r k v
  end.

(** [dict(pairs)] *)
Definition dict_of_pairs (pairs : list (pystr * V)) : pydict :=
  fold_left (fun d kv => dict_set d (fst kv) (snd kv)) pairs [].
End Dict.

Arguments dict_keys {V} d.
Arguments dict_get {V} d k.
Arguments dict_getitem {V} d k.
Arguments dict_mem {V} d k.
Arguments dict_set {V} d k v.
Arguments dict_of_pairs {V} pairs.

(** [sorted(...)]: a stable sort that only uses [<]; insertion from the
    right keeps equal elements in their original order. *)
Section Sorted.
Variable A : Type.
Variable key : A -> pystr.

Fixpoint insert_sorted (x : A) (l : list A) : list A :=
  match l with
  | [] => [x]
  | y :: r =>
      if pystr_ltb (key y) (key x) then y :: insert_sorted x r
      else x :: y :: r
  end.

Fixpoint sorted_by (l : list A) : list A :=
  match l with
  | [] => []
  | x :: r => insert_sorted x (sorted_by r)
  end.
End Sorted.

(** [sorted(d)] *)
Definition sorted_keys {V} (d : pydict V) : list pystr :=
  sorted_by (fun k => k) (dict_keys d).

(* ================================================================== *)
(** ** [json.dumps] on a [dict] from [str] to [str]

    The encoder runs with its default [ensure_ascii=True]: inside a string
    literal everything outside [' '..'~'], the backslash and the double
    quote are escaped. *)

Module Json.

(** [ESCAPE_DCT] and the [replace] callback of
    [encode_basestring_ascii]. *)
Definition escape_char (c : N) : pystr :=
  (if c =? 92 then [92; 92]
   else if c =? 34 then [92; 34]
   else if c =? 8 then [92; 98]
   else if c =? 12 then [92; 102]
   else if c =? 10 then [92; 110]
   else if c =? 13 then [92; 114]
   else if c =? 9 then [92; 116]
   else if (32 <=? c) && (c <=? 126) then [c]
   else if c <? 0x10000 then [92; 117] ++ hex4 c
   else
     let n := c - 0x10000 in
     let s1 := N.lor 0xd800 (N.land (N.shiftr n 10) 0x3ff) in
     let s2 := N.lor 0xdc00 (N.land n 0x3ff) in
     [92; 117] ++ hex4 s1 ++ [92; 117] ++ hex4 s2)%N.

Definition encode_str (s : pystr) : pystr :=
  [34%N] ++ flat_map escape_char s ++ [34%N].

(** [json.dumps(d, separators=(item_sep, key_sep), sort_keys=sort_keys)].
    With [sort_keys] the items are sorted; keys of a dict are unique, so
    the order is decided by the keys alone. *)
Definition dumps (d : pydict pystr) (item_sep key_sep : pystr)
    (sort_keys : bool) : pystr :=
  match d with
  | [] => py "{}"
  | _ =>
      let items := if sort_keys then sorted_by fst d else d in
      py "{" ++
      join item_sep
        (map (fun kv => encode_str (fst kv) ++ key_sep ++ encode_str (snd kv))
             items) ++
      py "}"
  end.

End Json.

(* ================================================================== *)
(** ** [hashlib.md5] (RFC 1321) on a byte string, 32-bit words in [N] *)

Module MD5.

Definition mask32 : N := 0xFFFFFFFF.

Definition add32 (a b : N) : N := N.land (a + b) mask32.

Definition not32 (a : N) : N := N.lxor (N.land a mask32) mask32.

Definition rotl32 (x c : N) : N :=
  N.land (N.lor (N.shiftl x c) (N.shiftr x (32 - c))) mask32.

Definition S_table : list N :=
  [7; 12; 17; 22; 7; 12; 17; 22; 7; 12; 17; 22; 7; 12; 17; 22;
   5; 9; 14; 20; 5; 9; 14; 20; 5; 9; 14; 20; 5; 9; 14; 20;
   4; 11; 16; 23; 4; 11; 16; 23; 4; 11; 16; 23; 4; 11; 16; 23;
   6; 10; 15; 21; 6; 10; 15; 21; 6; 10; 15; 21; 6; 10; 15; 21]%N.

Definition K_table : list N :=
  [0xd76aa478; 0xe8c7b756; 0x242070db; 0xc1bdceee; 0xf57c0faf; 0x4787c62a;
   0xa8304613; 0xfd469501; 0x698098d8; 0x8b44f7af; 0xffff5bb1; 0x895cd7be;
   0x6b901122; 0xfd987193; 0xa679438e; 0x49b40821; 0xf61e2562; 0xc040b340;
   0x265e5a51; 0xe9b6c7aa; 0xd62f105d; 0x02441453; 0xd8a1e681; 0xe7d3fbc8;
   0x21e1cde6; 0xc33707d6; 0xf4d50d87; 0x455a14ed; 0xa9e3e905; 0xfcefa3f8;
   0x676f02d9; 0x8d2a4c8a; 0xfffa3942; 0x8771f681; 0x6d9d6122; 0xfde5380c;
   0xa4beea44; 0x4bdecfa9; 0xf6bb4b60; 0xbebfbc70; 0x289b7ec6; 0xeaa127fa;
   0xd4ef3085; 0x04881d05; 0xd9d4d039; 0xe6db99e5; 0x1fa27cf8; 0xc4ac5665;
   0xf4292244; 0x432aff97; 0xab9423a7; 0xfc93a039; 0x655b59c3; 0x8f0ccc92;
   0xffeff47d; 0x85845dd1; 0x6fa87e4f; 0xfe2ce6e0; 0xa3014314; 0x4e0811a1;
   0xf7537e82; 0xbd3af235; 0x2ad7d2bb; 0xeb86d391]%N.

(** [n] little-endian bytes of [x]. *)
Fixpoint le_bytes (n : nat) (x : N) : list N :=
  match n with
  | O => []
  | S m => (x mod 256)%N :: le_bytes m (x / 256)%N
  end.

(** Little-endian value of a byte list. *)
Fixpoint le_word (bs : list N) : N :=
  match bs with
  | [] => 0%N
  | b :: r => (b + 256 * le_word r)%N
  end.

(** Padding: a one bit, zeros up to 56 modulo 64, then the bit length
    on 64 bits. *)
Definition pad (msg : list N) : list N :=
  let len := N.of_nat (List.length msg) in
  let zeros := ((119 - len mod 64) mod 64)%N in
  msg ++ [0x80%N] ++ repeat 0%N (N.to_nat zeros)
      ++ le_bytes 8 ((len * 8) mod 2 ^ 64)%N.

Fixpoint words (n : nat) (bs : list N) : list N :=
  match n with
  | O => []
  | S m => le_word (firstn 4 bs) :: words m (skipn 4 bs)
  end.

Definition state : Type := (N * N * N * N)%type.

Definition step (M : list N) (st : state) (i : nat) : state :=
  let '(a, b, c, d) := st in
  let '(f, g) :=
    if (i <? 16)%nat then
      (N.lor (N.land b c) (N.land (not32 b) d), i)
    else if (i <? 32)%nat then
      (N.lor (N.land d b) (N.land (not32 d) c), ((5 * i + 1) mod 16)%nat)
    else if (i <? 48)%nat then
      (N.lxor b (N.lxor c d), ((3 * i + 5) mod 16)%nat)
    else
      (N.lxor c (N.lor b (not32 d)), ((7 * i) mod 16)%nat) in
  let f' := add32 (add32 (add32 f a) (nth i K_table 0%N)) (nth g M 0%N) in
  (d, add32 b (rotl32 f' (nth i S_table 0%N)), b, c).

Definition process_block (st : state) (block : list N) : state :=
  let M := words 16 block in
  let '(a, b, c, d) := fold_left (step M) (seq 0 64) st in
  let '(a0, b0, c0, d0) := st in
  (add32 a0 a, add32 b0 b, add32 c0 c, add32 d0 d).

Fixpoint process (nblocks : nat) (st : state) (bs : list N) : state :=
  match nblocks with
  | O => st
  | S m => process m (process_block st (firstn 64 bs)) (skipn 64 bs)
  end.

Definition init : state :=
  (0x67452301, 0xefcdab89, 0x98badcfe, 0x10325476)%N.

Definition digest (msg : list N) : list N :=
  let p := pad msg in
  let '(a, b, c, d) := process (List.length p / 64) init p in
  le_bytes 4 a ++ le_bytes 4 b ++ le_bytes 4 c ++ le_bytes 4 d.

(** [.hexdigest()] *)
Definition hexdigest (msg : list N) : pystr :=
  flat_map (fun b => [hex_digit (b / 16); hex_digit (b mod 16)]%N)
           (digest msg).

End MD5.

(* ================================================================== *)
(** ** Task identity: [task_id_str] *)

Definition TASK_ID_INCLUDE_PARAMS : nat := 3.
Definition TASK_ID_TRUNCATE_PARAMS : nat := 16.
Definition TASK_ID_TRUNCATE_HASH : nat := 10.

(** A character matched by [TASK_ID_INVALID_CHAR_REGEX], that is
    [[^A-Za-z0-9_]]. *)
Definition invalid_char (c : N) : bool :=
  negb (((65 <=? c) && (c <=? 90)) || ((97 <=? c) && (c <=? 122)) ||
        ((48 <=? c) && (c <=? 57)) || (c =? 95))%N.

(** [TASK_ID_INVALID_CHAR_REGEX.sub('_', s)] *)
Definition sub_invalid (s : pystr) : pystr :=
  map (fun c => if invalid_char c then 95%N else c) s.

Definition task_id_str (task_family : pystr) (params : pydict pystr)
  : result pystr :=
  let param_str := Json.dumps params (py ",") (py ":") true in
  encoded <- encode_utf8 param_str ;;
  let param_hash := MD5.hexdigest encoded in
  values <- mapM (dict_getitem params)
              (firstn TASK_ID_INCLUDE_PARAMS (sorted_keys params)) ;;
  let param_summary :=
    join (py "_") (map (firstn TASK_ID_TRUNCATE_PARAMS) values) in
  let param_summary := sub_invalid param_summary in
  Ok (task_family ++ py "_" ++ param_summary ++ py "_"
        ++ firstn TASK_ID_TRUNCATE_HASH param_hash).

(* ================================================================== *)
(** ** Python values, targets and task instances *)

(** The class of a mapping: [dict], [collections.OrderedDict] or
    [collections.defaultdict]. *)
Inductive dict_kind : Type := KDict | KOrderedDict | KDefaultDict.

(** The class of a sequence: [list], [tuple], or a class made by
    [collections.namedtuple] with [2 + extra] fields.  A namedtuple class
    of one field is not among the kinds: called on one argument it keeps
    that argument as its field, whatever it is. *)
Inductive seq_kind : Type := KList | KTuple | KNamedTuple (extra : nat).
Inductive iter_kind : Type := KSet | KFrozenSet | KGenerator.

(** What [cls(iterable)] does for the class of a container.  [dict],
    [OrderedDict], [list] and [tuple] consume the iterable and build the
    container from its items.  [defaultdict] takes the argument for its
    [default_factory] and raises [TypeError], since a generator is not
    callable; a namedtuple class of two fields or more raises [TypeError]
    for the missing fields.  Both raise before the iterable is consumed. *)
Definition dict_takes_iterable (k : dict_kind) : bool :=
  match k with
  | KDict | KOrderedDict => true
  | KDefaultDict => false
  end.

Definition seq_takes_iterable (k : seq_kind) : bool :=
  match k with
  | KList | KTuple => true
  | KNamedTuple _ => false
  end.

(** [isinstance(x, tuple)] for a sequence of kind [k]. *)
Definition is_tuple_kind (k : seq_kind) : bool :=
  match k with
  | KList => false
  | KTuple | KNamedTuple _ => true
  end.

(** An output handle; [target_exists] is what [exists()] answers. *)
Record Target : Type := {
  target_path : pystr;
  target_exists : bool
}.

(** Which [complete] the method resolution order of the instance's class
    selects: [Task.complete], [WrapperTask.complete], or an override of
    the user's that answers [b]. *)
Inductive complete_impl : Type :=
| DefaultComplete
| WrapperComplete
| OverriddenComplete (b : bool).

(** Values: [PObject] is an opaque object that is not iterable; [PDict]
    is an instance of [dict] or of one of its subclasses; [PSeq] is an
    instance of [list] or of [tuple], namedtuples included; [PIter] is
    any other iterable, with its elements in iteration order.

    A task instance carries the identity of its class ([t_class]), what
    [Task.__init__] stores on it ([t_task_id], [t_hash] for the private
    [__hash], [t_param_kwargs]), its attribute table [t_dict] (the
    instance [__dict__], where the parameter values and later
    assignments such as [name] live), the attributes declared in the body
    of its class ([t_class_dict]), the [complete] its class selects, and
    the results of its [output()] and [requires()] methods.  The
    requirements of a task are part of the task: structures are finite
    and acyclic. *)
#[local] Unset Elimination Schemes.
Inductive pyval : Type :=
| PNone
| PStr (s : pystr)
| PInt (z : Z)
| PObject (name : pystr)
| PTarget (tg : Target)
| PTask (t : task)
| PDict (k : dict_kind) (items : list (pystr * pyval))
| PSeq (k : seq_kind) (elems : list pyval)
| PIter (k : iter_kind) (elems : list pyval)
with task : Type :=
| MkTask (t_class : positive) (t_task_id : pystr) (t_hash : Z)
    (t_param_kwargs : list (pystr * pyval))
    (t_dict : list (pystr * pyval))
    (t_class_dict : list (pystr * pyval))
    (t_complete : complete_impl)
    (t_output : pyval) (t_requires : pyval).
#[local] Set Elimination Schemes.

Definition t_class (t : task) : positive :=
  let '(MkTask c _ _ _ _ _ _ _ _) := t in c.
Definition t_task_id (t : task) : pystr :=
  let '(MkTask _ i _ _ _ _ _ _ _) := t in i.
Definition t_hash (t : task) : Z :=
  let '(MkTask _ _ h _ _ _ _ _ _) := t in h.
Definition t_param_kwargs (t : task) : pydict pyval :=
  let '(MkTask _ _ _ kw _ _ _ _ _) := t in kw.
Definition t_dict (t : task) : pydict pyval :=
  let '(MkTask _ _ _ _ d _ _ _ _) := t in d.
Definition t_class_dict (t : task) : pydict pyval :=
  let '(MkTask _ _ _ _ _ cd _ _ _) := t in cd.
Definition t_complete (t : task) : complete_impl :=
  let '(MkTask _ _ _ _ _ _ c _ _) := t in c.
Definition t_output (t : task) : pyval :=
  let '(MkTask _ _ _ _ _ _ _ o _) := t in o.
Definition t_requires (t : task) : pyval :=
  let '(MkTask _ _ _ _ _ _ _ _ r) := t in r.

(* ================================================================== *)
(** ** [flatten] and [getpaths] *)

Fixpoint flatten (struct : pyval) : list pyval :=
  match struct with
  | PNone => []
  | PDict _ items =>
      (fix over_items (l : list (pystr * pyval)) : list pyval :=
         match l with
         | [] => []
         | (_, result) :: r => flatten result ++ over_items r
         end) items
  | PStr _ => [struct]
  | PSeq _ elems | PIter _ elems =>
      (fix over (l : list pyval) : list pyval :=
         match l with
         | [] => []
         | result :: r => flatten result ++ over r
         end) elems
  | PInt _ | PObject _ | PTarget _ | PTask _ => [struct]
  end.

(** [getpaths].  For a mapping, a list or a tuple the source calls the
    class of the container on a generator of the mapped items,
    [struct.__class__(... for ... in struct)]: a class that takes an
    iterable consumes the generator, which runs [getpaths] on the items in
    order, and a class that does not raises [TypeError] with no item
    visited.  In the last branch of the source, iterating a value that
    is not iterable raises [TypeError], which the handler turns into a
    plain [Exception], as it does with a [TypeError] raised further down;
    iterating a non-empty [str] yields one-character strings, each of which
    is again a non-empty [str], so the recursion only stops at the
    interpreter's recursion limit. *)
Fixpoint getpaths (struct : pyval) : result pyval :=
  match struct with
  | PTask t => Ok (t_output t)
  | PDict k items =>
      if dict_takes_iterable k then
        items' <-
          (fix over_items (l : list (pystr * pyval))
             : result (list (pystr * pyval)) :=
             match l with
             | [] => Ok []
             | (key, v) :: r =>
                 v' <- getpaths v ;;
                 r' <- over_items r ;;
                 Ok ((key, v') :: r')
             end) items ;;
        Ok (PDict k items')
      else Raise TypeError
  | PSeq k elems =>
      if seq_takes_iterable k then
        elems' <-
          (fix over (l : list pyval) : result (list pyval) :=
             match l with
             | [] => Ok []
             | x :: r => x' <- getpaths x ;; r' <- over r ;; Ok (x' :: r')
             end) elems ;;
        Ok (PSeq k elems')
      else Raise TypeError
  | PIter _ elems =>
      try_except
        (elems' <-
           (fix over (l : list pyval) : result (list pyval) :=
              match l with
              | [] => Ok []
              | x :: r => x' <- getpaths x ;; r' <- over r ;; Ok (x' :: r')
              end) elems ;;
         Ok (PSeq KList elems'))
        TypeError (Raise Exception_)
  | PStr [] => try_except (Ok (PSeq KList [])) TypeError (Raise Exception_)
  | PStr (_ :: _) => try_except (Raise RecursionError) TypeError (Raise Exception_)
  | PNone | PInt _ | PObject _ | PTarget _ =>
      try_except (Raise TypeError) TypeError (Raise Exception_)
  end.

(* ================================================================== *)
(** ** Warnings

    A computation that may call [warnings.warn] returns its result
    together with the warnings it recorded, oldest first. *)

(** The one warning of this module's completeness protocol,
    ["Task %r without outputs has no custom complete() method" % self];
    the text is represented by the task it names. *)
Inductive warning : Type :=
| NoOutputsWarning (self : task).

Definition W (A : Type) : Type := (result A * list warning)%type.

Definition retW {A} (a : A) : W A := (Ok a, []).

Definition raiseW {A} (e : exc) : W A := (Raise e, []).

Definition warn (w : warning) : W unit := (Ok tt, [w]).

Definition liftW {A} (r : result A) : W A := (r, []).

Definition bindW {A B} (c : W A) (k : A -> W B) : W B :=
  match c with
  | (Ok a, log) => let '(r, log') := k a in (r, log ++ log')
  | (Raise e, log) => (Raise e, log)
  end.

Notation "x <~ c ;; k" := (bindW c (fun x => k))
  (at level 61, c at next level, right associativity).

(** [all(f(x) for x in l)]: the generator is consumed up to the first
    false answer. *)
Fixpoint all_of {A} (f : A -> W bool) (l : list A) : W bool :=
  match l with
  | [] => retW true
  | x :: r => b <~ f x ;; if b then all_of f r else retW false
  end.

(* ================================================================== *)
(** ** Completeness *)

(** [output.exists()] *)
Definition call_exists (output : pyval) : W bool :=
  match output with
  | PTarget tg => retW (target_exists tg)
  | _ => raiseW AttributeError
  end.

(** [Task.complete] *)
Definition Task_complete (self : task) : W bool :=
  let outputs := flatten (t_output self) in
  if (List.length outputs =? 0)%nat then
    _ <~ warn (NoOutputsWarning self) ;;
    retW false
  else all_of call_exists outputs.

(** [self.complete()] with the method chosen by the class of [self].
    For a wrapper task the walk over [flatten(self.requires())] is written
    as a recursion on the structure of [requires()], see
    [WrapperTask_complete_eq] for the form of the source. *)
Fixpoint complete (self : task) : W bool :=
  match self with
  | MkTask _ _ _ _ _ _ impl _ requires =>
      match impl with
      | DefaultComplete => Task_complete self
      | WrapperComplete => all_complete requires
      | OverriddenComplete b => retW b
      end
  end
with all_complete (struct : pyval) : W bool :=
  match struct with
  | PNone => retW true
  | PTask r => b <~ complete r ;; if b then retW true else retW false
  | PStr _ | PInt _ | PObject _ | PTarget _ =>
      b <~ @raiseW bool AttributeError ;; if b then retW true else retW false
  | PDict _ items =>
      (fix over_items (l : list (pystr * pyval)) : W bool :=
         match l with
         | [] => retW true
         | (_, v) :: rest =>
             b <~ all_complete v ;; if b then over_items rest else retW false
         end) items
  | PSeq _ elems | PIter _ elems =>
      (fix over (l : list pyval) : W bool :=
         match l with
         | [] => retW true
         | v :: rest =>
             b <~ all_complete v ;; if b then over rest else retW false
         end) elems
  end.

(** [r.complete()] on an arbitrary value. *)
Definition call_complete (r : pyval) : W bool :=
  match r with
  | PTask t => complete t
  | _ => raiseW AttributeError
  end.

(** [WrapperTask.complete] as the source writes it. *)
Definition WrapperTask_complete (self : task) : W bool :=
  all_of call_complete (flatten (t_requires self)).

(* ================================================================== *)
(** ** Parameters and task definitions *)

Inductive ParameterVisibility : Type := PUBLIC | HIDDEN | PRIVATE.

Definition visibility_eqb (a b : ParameterVisibility) : bool :=
  match a, b with
  | PUBLIC, PUBLIC | HIDDEN, HIDDEN | PRIVATE, PRIVATE => true
  | _, _ => false
  end.

(** [ParameterT] is what task.py uses of a [parameter.Parameter] (the module
    [simplui.parameter] itself is outside this file): its flags and its
    methods, the latter as functions. *)
Record ParameterT : Type := {
  positional : bool;
  significant : bool;
  visibility : ParameterVisibility;
  normalize : pyval -> result pyval;
  has_task_value : pystr -> pystr -> result bool;
  task_value : pystr -> pystr -> result pyval;
  serialize : pyval -> pystr
}.

Inductive bulk_impl : Type := BulkDefault | BulkNaive.

(** A task class: its identity, the attributes read by
    [get_task_namespace] and [get_task_family], the result of
    [get_params()], the other attributes its body declares, and its
    methods. [output] and [requires] are functions of the parameter
    values of the instance. *)
Record TaskClass : Type := {
  cls_id : positive;
  cls_name : pystr;
  cls_module : pystr;
  cls_task_namespace : option pystr;
  cls_namespace_at_class_time : option pystr;
  cls_params : list (pystr * ParameterT);
  cls_dict : pydict pyval;
  cls_complete : complete_impl;
  cls_bulk : bulk_impl;
  cls_output : pydict pyval -> pyval;
  cls_requires : pydict pyval -> pyval
}.

Definition _SAME_AS_PYTHON_MODULE : pystr := py "_same_as_python_module".
Definition __not_user_specified : pystr := py "__not_user_specified".

Definition option_pystr_eqb (a b : option pystr) : bool :=
  match a, b with
  | Some x, Some y => pystr_eqb x y
  | None, None => true
  | _, _ => false
  end.

Definition get_task_namespace (cls : TaskClass) : option pystr :=
  if negb (option_pystr_eqb (cls_task_namespace cls)
             (Some __not_user_specified)) then
    cls_task_namespace cls
  else if option_pystr_eqb (cls_namespace_at_class_time cls)
            (Some _SAME_AS_PYTHON_MODULE) then
    Some (cls_module cls)
  else cls_namespace_at_class_time cls.

Definition get_task_family (cls : TaskClass) : pystr :=
  match get_task_namespace cls with
  | None | Some [] => cls_name cls
  | Some ns => ns ++ py "." ++ cls_name cls
  end.

Definition get_params (cls : TaskClass) : list (pystr * ParameterT) :=
  cls_params cls.

(** [list_to_tuple] of [get_param_values] *)
Definition list_to_tuple (x : pyval) : pyval :=
  match x with
  | PSeq KList l => PSeq KTuple l
  | PIter KSet l => PSeq KTuple l
  | _ => x
  end.

(** The three loops of [get_param_values]: positional arguments, keyword
    arguments, defaults. *)
Fixpoint fill_positional (positional_params : list (pystr * ParameterT))
    (args : list pyval) (result_ : pydict pyval) : result (pydict pyval) :=
  match args with
  | [] => Ok result_
  | arg :: rest =>
      match positional_params with
      | [] => Raise UnknownParameterException
      | (param_name, param_obj) :: ps =>
          v <- normalize param_obj arg ;;
          fill_positional ps rest (dict_set result_ param_name v)
      end
  end.

Fixpoint fill_keywords (params_dict : pydict ParameterT)
    (kwargs : pydict pyval) (result_ : pydict pyval)
  : result (pydict pyval) :=
  match kwargs with
  | [] => Ok result_
  | (param_name, arg) :: rest =>
      if dict_mem result_ param_name then Raise DuplicateParameterException
      else if negb (dict_mem params_dict param_name) then
        Raise UnknownParameterException
      else
        param_obj <- dict_getitem params_dict param_name ;;
        v <- normalize param_obj arg ;;
        fill_keywords params_dict rest (dict_set result_ param_name v)
  end.

Fixpoint fill_defaults (task_family : pystr)
    (params : list (pystr * ParameterT)) (result_ : pydict pyval)
  : result (pydict pyval) :=
  match params with
  | [] => Ok result_
  | (param_name, param_obj) :: rest =>
      if negb (dict_mem result_ param_name) then
        has <- try_except (has_task_value param_obj task_family param_name)
                 Exception_ (Raise ValueError) ;;
        if negb has then Raise MissingParameterException
        else
          v <- task_value param_obj task_family param_name ;;
          fill_defaults task_family rest (dict_set result_ param_name v)
      else fill_defaults task_family rest result_
  end.

(** [get_param_values].  The block that warns about configuration keys
    no parameter consumes only calls [warnings.warn] and updates the
    memo [_unconsumed_params]; it has no part in the value returned. *)
Definition get_param_values (cls : TaskClass)
    (params : list (pystr * ParameterT)) (args : list pyval)
    (kwargs : pydict pyval) : result (list (pystr * pyval)) :=
  let params_dict := dict_of_pairs params in
  let task_family := get_task_family cls in
  let positional_params :=
    filter (fun np => positional (snd np)) params in
  result_ <- fill_positional positional_params args [] ;;
  result_ <- fill_keywords params_dict kwargs result_ ;;
  result_ <- fill_defaults task_family params result_ ;;
  mapM (fun np =>
          v <- dict_getitem result_ (fst np) ;;
          Ok (fst np, list_to_tuple v))
       params.

(** [to_str_params] on the [param_kwargs] of an instance. *)
Fixpoint to_str_params_loop (params : pydict ParameterT)
    (only_significant only_public : bool)
    (items : list (pystr * pyval)) (params_str : pydict pystr)
  : result (pydict pystr) :=
  match items with
  | [] => Ok params_str
  | (param_name, param_value) :: rest =>
      p <- dict_getitem params param_name ;;
      if (negb only_significant || significant p)
         && (negb only_public || visibility_eqb (visibility p) PUBLIC)
         && negb (visibility_eqb (visibility p) PRIVATE)
      then
        to_str_params_loop params only_significant only_public rest
          (dict_set params_str param_name (serialize p param_value))
      else
        to_str_params_loop params only_significant only_public rest
          params_str
  end.

Definition to_str_params (cls : TaskClass) (param_kwargs : pydict pyval)
    (only_significant only_public : bool) : result (pydict pystr) :=
  let params := dict_of_pairs (get_params cls) in
  to_str_params_loop params only_significant only_public param_kwargs [].

(* ================================================================== *)
(** ** Task instances: construction, equality, hashing, attributes *)

(** Names bound in the body of [class Task] (methods, properties and
    class-level values).  *)
Definition Task_class_names : list pystr :=
  map py
    ["_event_callbacks"; "priority"; "disabled"; "resources";
     "worker_timeout"; "max_batch_size"; "batchable"; "retry_count";
     "disable_hard_timeout"; "disable_window"; "disable_window_seconds";
     "owner_email"; "_owner_list"; "use_cmdline_section"; "event_handler";
     "remove_event_handler"; "trigger_event"; "accepts_messages";
     "task_module"; "_visible_in_registry"; "_Task__not_user_specified";
     "_namespace_at_class_time"; "task_namespace"; "get_task_namespace";
     "task_family"; "get_task_family"; "get_params"; "batch_param_names";
     "get_param_names"; "get_param_values"; "__init__"; "param_args";
     "initialized"; "_warn_on_wrong_param_types"; "from_str_params";
     "to_str_params"; "_get_param_visibilities"; "clone"; "__hash__";
     "__repr__"; "__eq__"; "complete"; "bulk_complete"; "output";
     "requires"; "_requires"; "process_resources"; "input"; "deps"; "run";
     "on_failure"; "on_success"; "no_unpicklable_properties"]%string.

(** [getattr(self, name)]: the instance's own attributes, then what the
    body of its class declares, then the members of [Task], which stay
    opaque here. *)
Definition Task_getattr (self : task) (name : pystr) : result pyval :=
  match dict_get (t_dict self) name with
  | Some v => Ok v
  | None =>
      match dict_get (t_class_dict self) name with
      | Some v => Ok v
      | None =>
          if existsb (pystr_eqb name) Task_class_names
          then Ok (PObject name)
          else Raise AttributeError
      end
  end.

(** [setattr(self, name, value)] *)
Definition Task_setattr (self : task) (name : pystr) (value : pyval)
  : task :=
  let '(MkTask c i h kw d cd impl o r) := self in
  MkTask c i h kw (dict_set d name value) cd impl o r.

(** [Task.__eq__] *)
Definition Task_eq (self other : task) : bool :=
  Pos.eqb (t_class self) (t_class other)
  && pystr_eqb (t_task_id self) (t_task_id other).

(** [Task.__hash__] *)
Definition Task_hash (self : task) : Z := t_hash self.

Section Construction.

(** The built-in [hash] on [str]; it is salted per process. *)
Variable py_hash : pystr -> Z.

(** [Task.__init__], run by a call of the class with positional
    arguments [args] and keyword arguments [kwargs] (the metaclass
    [Register] is outside this file).
    [_warn_on_wrong_param_types] only records warnings. *)
Definition Task_init (cls : TaskClass) (args : list pyval)
    (kwargs : pydict pyval) : result task :=
  let params := get_params cls in
  param_values <- get_param_values cls params args kwargs ;;
  let d :=
    fold_left (fun d kv => dict_set d (fst kv) (snd kv)) param_values [] in
  let param_kwargs := dict_of_pairs param_values in
  let d := dict_set d (py "param_kwargs") (PDict KDict param_kwargs) in
  str_params <- to_str_params cls param_kwargs true true ;;
  task_id <- task_id_str (get_task_family cls) str_params ;;
  let d := dict_set d (py "task_id") (PStr task_id) in
  let hash_ := py_hash task_id in
  let d := dict_set d (py "_Task__hash") (PInt hash_) in
  let d := dict_set d (py "set_tracking_url") PNone in
  let d := dict_set d (py "set_status_message") PNone in
  let d := dict_set d (py "set_progress_percentage") PNone in
  Ok (MkTask (cls_id cls) task_id hash_ param_kwargs d (cls_dict cls)
        (cls_complete cls)
        (cls_output cls param_kwargs) (cls_requires cls param_kwargs)).

(** [Task.bulk_complete] *)
Definition Task_bulk_complete (cls : TaskClass)
    (parameter_tuples : list pyval) : W (list pyval) :=
  raiseW BulkCompleteNotImplementedError.

(** [MixinNaiveBulkComplete.bulk_complete] *)
Fixpoint naive_loop (cls : TaskClass) (parameter_tuples : list pyval)
    (generated_tuples : list pyval) : W (list pyval) :=
  match parameter_tuples with
  | [] => retW generated_tuples
  | parameter_tuple :: rest =>
      t <~ liftW
             match parameter_tuple with
             | PSeq _ elems => Task_init cls elems []
             | PDict _ items => Task_init cls [] items
             | _ => Task_init cls [parameter_tuple] []
             end ;;
      b <~ complete t ;;
      naive_loop cls rest
        (if b then generated_tuples ++ [parameter_tuple]
         else generated_tuples)
  end.

Definition MixinNaiveBulkComplete_bulk_complete (cls : TaskClass)
    (parameter_tuples : list pyval) : W (list pyval) :=
  naive_loop cls parameter_tuples [].

(** [cls.bulk_complete(parameter_tuples)] *)
Definition bulk_complete (cls : TaskClass)
    (parameter_tuples : list pyval) : W (list pyval) :=
  match cls_bulk cls with
  | BulkDefault => Task_bulk_complete cls parameter_tuples
  | BulkNaive => MixinNaiveBulkComplete_bulk_complete cls parameter_tuples
  end.

End Construction.

(* ================================================================== *)
(** ** Flow *)

Definition dict_kind_eqb (k k' : dict_kind) : bool :=
  match k, k' with
  | KDict, KDict | KOrderedDict, KOrderedDict
  | KDefaultDict, KDefaultDict => true
  | _, _ => false
  end.

Definition seq_kind_eqb (k k' : seq_kind) : bool :=
  match k, k' with
  | KList, KList | KTuple, KTuple => true
  | KNamedTuple n, KNamedTuple n' => Nat.eqb n n'
  | _, _ => false
  end.

Definition iter_kind_eqb (k k' : iter_kind) : bool :=
  match k, k' with
  | KSet, KSet | KFrozenSet, KFrozenSet | KGenerator, KGenerator => true
  | _, _ => false
  end.

Definition complete_impl_eqb (c c' : complete_impl) : bool :=
  match c, c' with
  | DefaultComplete, DefaultComplete
  | WrapperComplete, WrapperComplete => true
  | OverriddenComplete b, OverriddenComplete b' => Bool.eqb b b'
  | _, _ => false
  end.

(** [same_value a b]: [a] and [b] are the same value.  It stands for
    [a is b] on the objects that Python compares by identity (an opaque
    object, a target, a generator): such an object is equal to itself
    only, and a value of this model stands for one object. *)
Fixpoint same_value (a b : pyval) : bool :=
  match a, b with
  | PNone, PNone => true
  | PStr s, PStr s' => pystr_eqb s s'
  | PInt x, PInt y => Z.eqb x y
  | PObject n, PObject n' => pystr_eqb n n'
  | PTarget t, PTarget t' =>
      pystr_eqb (target_path t) (target_path t')
      && Bool.eqb (target_exists t) (target_exists t')
  | PTask t, PTask t' => same_task t t'
  | PDict k l, PDict k' l' =>
      dict_kind_eqb k k' &&
      (fix over (l l' : list (pystr * pyval)) : bool :=
         match l, l' with
         | [], [] => true
         | (key, x) :: r, (key', y) :: r' =>
             pystr_eqb key key' && same_value x y && over r r'
         | _, _ => false
         end) l l'
  | PSeq k l, PSeq k' l' =>
      seq_kind_eqb k k' &&
      (fix over (l l' : list pyval) : bool :=
         match l, l' with
         | [], [] => true
         | x :: r, y :: r' => same_value x y && over r r'
         | _, _ => false
         end) l l'
  | PIter k l, PIter k' l' =>
      iter_kind_eqb k k' &&
      (fix over (l l' : list pyval) : bool :=
         match l, l' with
         | [], [] => true
         | x :: r, y :: r' => same_value x y && over r r'
         | _, _ => false
         end) l l'
  | _, _ => false
  end
with same_task (t t' : task) : bool :=
  match t, t' with
  | MkTask c i h kw d cd impl o r, MkTask c' i' h' kw' d' cd' impl' o' r' =>
      Pos.eqb c c' && pystr_eqb i i' && Z.eqb h h'
      && (fix over (l l' : list (pystr * pyval)) : bool :=
            match l, l' with
            | [], [] => true
            | (key, x) :: r, (key', y) :: r' =>
                pystr_eqb key key' && same_value x y && over r r'
            | _, _ => false
            end) kw kw'
      && (fix over (l l' : list (pystr * pyval)) : bool :=
            match l, l' with
            | [], [] => true
            | (key, x) :: r, (key', y) :: r' =>
                pystr_eqb key key' && same_value x y && over r r'
            | _, _ => false
            end) d d'
      && (fix over (l l' : list (pystr * pyval)) : bool :=
            match l, l' with
            | [], [] => true
            | (key, x) :: r, (key', y) :: r' =>
                pystr_eqb key key' && same_value x y && over r r'
            | _, _ => false
            end) cd cd'
      && complete_impl_eqb impl impl'
      && same_value o o' && same_value r r'
  end.

(** [a == b] for the values used as keys of [taskset], which are
    hashable: [None], a [str], an [int], a task (by [__eq__]), a tuple
    (item by item), a [frozenset] (the same elements), and the objects
    compared by identity.  A key of one type is not equal to a key of
    another. *)
Fixpoint key_eqb (a b : pyval) : bool :=
  match a, b with
  | PNone, PNone => true
  | PStr s, PStr s' => pystr_eqb s s'
  | PInt x, PInt y => Z.eqb x y
  | PObject _, PObject _ | PTarget _, PTarget _ => same_value a b
  | PTask t, PTask t' => Task_eq t t'
  | PSeq k l, PSeq k' l' =>
      is_tuple_kind k && is_tuple_kind k' &&
      (fix over (l l' : list pyval) : bool :=
         match l, l' with
         | [], [] => true
         | x :: r, y :: r' => key_eqb x y && over r r'
         | _, _ => false
         end) l l'
  | PIter KFrozenSet l, PIter KFrozenSet l' =>
      (fix each (l : list pyval) : bool :=
         match l with
         | [] => true
         | x :: r => existsb (key_eqb x) l' && each r
         end) l
      && (fix each (m : list pyval) : bool :=
            match m with
            | [] => true
            | y :: r =>
                (fix some (l : list pyval) : bool :=
                   match l with
                   | [] => false
                   | x :: q => key_eqb x y || some q
                   end) l
                && each r
            end) l'
  | PIter KGenerator _, PIter KGenerator _ => same_value a b
  | _, _ => false
  end.

(** [hash(x)] succeeds: a [dict], a [list] and a [set] are unhashable,
    and so is a tuple that holds an unhashable value. *)
Fixpoint hashable (v : pyval) : bool :=
  match v with
  | PDict _ _ => false
  | PSeq k elems =>
      is_tuple_kind k &&
      (fix over (l : list pyval) : bool :=
         match l with
         | [] => true
         | x :: r => hashable x && over r
         end) elems
  | PIter KSet _ => false
  | _ => true
  end.

(** A task object, by its identity.  A [Flow] holds the task objects
    themselves, not copies of them: the same object can be stored under
    several names, and assigning to an attribute of the object is seen
    through each of them. *)
Definition obj : Type := nat.

(** The state of the task objects. *)
Definition store : Type := obj -> task.

(** Assigning to the object [o]: [o] becomes [t], the others stay. *)
Definition store_set (st : store) (o : obj) (t : task) : store :=
  fun o' => if Nat.eqb o' o then t else st o'.

(** The dict [taskset]: names to task objects, in insertion order. *)
Definition taskset_t : Type := list (pyval * obj).

Fixpoint taskset_get (d : taskset_t) (k : pyval) : option obj :=
  match d with
  | [] => None
  | (k', v) :: r => if key_eqb k' k then Some v else taskset_get r k
  end.

Definition taskset_mem (d : taskset_t) (k : pyval) : bool :=
  match taskset_get d k with Some _ => true | None => false end.

Fixpoint taskset_set (d : taskset_t) (k : pyval) (v : obj) : taskset_t :=
  match d with
  | [] => [(k, v)]
  | (k', v') :: r =>
      if key_eqb k' k then (k', v) :: r else (k', v') :: taskset_set r k v
  end.

(** [k in d] and [d[k] = v], which hash the key first. *)
Definition taskset_contains (d : taskset_t) (k : pyval) : result bool :=
  if hashable k then Ok (taskset_mem d k) else Raise TypeError.

Definition taskset_setitem (d : taskset_t) (k : pyval) (v : obj)
    : result taskset_t :=
  if hashable k then Ok (taskset_set d k v) else Raise TypeError.

Record Flow : Type := {
  taskset : taskset_t;
  name : pystr;
  autoRename : bool
}.

(** [Flow.__init__] *)
Definition Flow_init (iname : pystr) : Flow :=
  {| taskset := []; name := iname; autoRename := true |}.

Definition RENAME_LIMIT : N := 100000.

(** The [while] loop of [getUniqueName]; it runs at most [RENAME_LIMIT]
    times, which is the fuel given by [getUniqueName]. *)
Fixpoint getUniqueName_loop (self : Flow) (fuel : nat) (incval : N)
    (newname : pyval) : pyval :=
  if taskset_mem (taskset self) newname && (incval <? RENAME_LIMIT)%N then
    match fuel with
    | O => newname
    | S fuel' =>
        getUniqueName_loop self fuel' (incval + 1)%N
          (PStr (name self ++ py "_" ++ str_of_N incval))
    end
  else newname.

(** [Flow.getUniqueName].  The first test [newname in self.taskset]
    hashes the name of the task, and raises [TypeError] when it is
    unhashable; the names tried afterwards are [str]. *)
Definition getUniqueName (self : Flow) (ctask : task) : result pyval :=
  newname <- Task_getattr ctask (py "name") ;;
  _ <- taskset_contains (taskset self) newname ;;
  let newname :=
    getUniqueName_loop self (N.to_nat RENAME_LIMIT) 0%N newname in
  if negb (taskset_mem (taskset self) newname) then Ok newname
  else Raise ValueError.

(** What [Flow.add] is given: a task object, or anything that is not an
    instance of [Task]. *)
Inductive add_arg : Type :=
| TaskObject (o : obj)
| NotATask.

(** [Flow.add], on the state [st] of the task objects: it assigns the
    new name to the object itself, and stores the object under that name.
    The source returns [None]; what is given here is the state of the
    objects and the flow after the call. *)
Definition add (st : store) (self : Flow) (intask : add_arg)
    : result (store * Flow) :=
  match intask with
  | TaskObject o =>
      st' <- (if autoRename self then
                newname <- getUniqueName self (st o) ;;
                Ok (store_set st o (Task_setattr (st o) (py "name") newname))
              else
                n <- Task_getattr (st o) (py "name") ;;
                found <- taskset_contains (taskset self) n ;;
                if found then Raise ValueError else Ok st) ;;
      n <- Task_getattr (st' o) (py "name") ;;
      ts <- taskset_setitem (taskset self) n o ;;
      Ok (st', {| taskset := ts;
                  name := name self;
                  autoRename := autoRename self |})
  | NotATask => Raise TypeError
  end.

(** The attributes of a [Flow]: those set by [__init__] and the methods
    of the class. *)
Inductive flow_attr : Type :=
| FlowTaskset (d : taskset_t)
| FlowStr (s : pystr)
| FlowBool (b : bool)
| FlowMethod (name : pystr).

Definition Flow_getattr (self : Flow) (attr : pystr) : result flow_attr :=
  if pystr_eqb attr (py "taskset") then Ok (FlowTaskset (taskset self))
  else if pystr_eqb attr (py "name") then Ok (FlowStr (name self))
  else if pystr_eqb attr (py "autoRename") then
    Ok (FlowBool (autoRename self))
  else if existsb (pystr_eqb attr)
            (map py ["__init__"; "getUniqueName"; "add"; "__iter__"]%string)
  then Ok (FlowMethod attr)
  else Raise AttributeError.

(** [iter(x)], as the list of the values it yields. *)
Definition iter_attr (x : flow_attr) : result (list pyval) :=
  match x with
  | FlowTaskset d => Ok (map fst d)
  | FlowStr s => Ok (map (fun c => PStr [c]) s)
  | FlowBool _ | FlowMethod _ => Raise TypeError
  end.

(** [Flow.__iter__] *)
Definition Flow_iter (self : Flow) : result (list pyval) :=
  tasks <- Flow_getattr self (py "tasks") ;;
  iter_attr tasks.

(** [(k, getpaths(v))] for one item of a mapping. *)
Definition getpaths_item (kv : pystr * pyval) : result (pystr * pyval) :=
  v' <- getpaths (snd kv) ;; Ok (fst kv, v').

(* ================================================================== *)
(** ** Notions used to state the properties *)

(** A nested structure of task instances: tasks at the leaves, inside
    mappings and sequences of any class. *)
Fixpoint task_leaves (struct : pyval) : bool :=
  match struct with
  | PTask _ => true
  | PDict _ items =>
      (fix over_items (l : list (pystr * pyval)) : bool :=
         match l with
         | [] => true
         | (_, v) :: r => task_leaves v && over_items r
         end) items
  | PSeq _ elems =>
      (fix over (l : list pyval) : bool :=
         match l with
         | [] => true
         | v :: r => task_leaves v && over r
         end) elems
  | _ => false
  end.

(** The same, where every container is a [dict], an [OrderedDict], a
    [list] or a [tuple]. *)
Fixpoint task_struct (struct : pyval) : bool :=
  match struct with
  | PTask _ => true
  | PDict k items =>
      dict_takes_iterable k &&
      (fix over_items (l : list (pystr * pyval)) : bool :=
         match l with
         | [] => true
         | (_, v) :: r => task_struct v && over_items r
         end) items
  | PSeq k elems =>
      seq_takes_iterable k &&
      (fix over (l : list pyval) : bool :=
         match l with
         | [] => true
         | v :: r => task_struct v && over r
         end) elems
  | _ => false
  end.

(** Every mapping and sequence that [getpaths] meets, that is outside
    tasks, is a [dict], an [OrderedDict], a [list] or a [tuple]. *)
Fixpoint plain_containers (struct : pyval) : bool :=
  match struct with
  | PDict k items =>
      dict_takes_iterable k &&
      (fix over_items (l : list (pystr * pyval)) : bool :=
         match l with
         | [] => true
         | (_, v) :: r => plain_containers v && over_items r
         end) items
  | PSeq k elems =>
      seq_takes_iterable k &&
      (fix over (l : list pyval) : bool :=
         match l with
         | [] => true
         | v :: r => plain_containers v && over r
         end) elems
  | PIter _ elems =>
      (fix over (l : list pyval) : bool :=
         match l with
         | [] => true
         | v :: r => plain_containers v && over r
         end) elems
  | _ => true
  end.

(** [shape_preserved struct out]: [out] is [struct] with every task
    replaced by its [output()], the containers keeping their kind, their
    keys and their order. *)
#[local] Unset Elimination Schemes.
Inductive shape_preserved : pyval -> pyval -> Prop :=
| shape_task t : shape_preserved (PTask t) (t_output t)
| shape_dict k items items' :
    Forall2 (fun kv kv' =>
               fst kv = fst kv' /\ shape_preserved (snd kv) (snd kv'))
            items items' ->
    shape_preserved (PDict k items) (PDict k items')
| shape_seq k elems elems' :
    Forall2 shape_preserved elems elems' ->
    shape_preserved (PSeq k elems) (PSeq k elems').
#[local] Set Elimination Schemes.

(** A leaf that is neither a task, nor a mapping, nor an iterable. *)
Definition bad_leaf (v : pyval) : bool :=
  match v with
  | PNone | PInt _ | PObject _ | PTarget _ => true
  | _ => false
  end.

(** The structure contains such a leaf where [getpaths] looks, that is
    outside tasks. *)
Fixpoint has_bad_leaf (struct : pyval) : bool :=
  match struct with
  | PNone | PInt _ | PObject _ | PTarget _ => true
  | PStr _ | PTask _ => false
  | PDict _ items =>
      (fix over_items (l : list (pystr * pyval)) : bool :=
         match l with
         | [] => false
         | (_, v) :: r => has_bad_leaf v || over_items r
         end) items
  | PSeq _ elems | PIter _ elems =>
      (fix over (l : list pyval) : bool :=
         match l with
         | [] => false
         | v :: r => has_bad_leaf v || over r
         end) elems
  end.

(** The structure contains a non-empty [str] outside tasks. *)
Fixpoint has_nonempty_str (struct : pyval) : bool :=
  match struct with
  | PStr (_ :: _) => true
  | PDict _ items =>
      (fix over_items (l : list (pystr * pyval)) : bool :=
         match l with
         | [] => false
         | (_, v) :: r => has_nonempty_str v || over_items r
         end) items
  | PSeq _ elems | PIter _ elems =>
      (fix over (l : list pyval) : bool :=
         match l with
         | [] => false
         | v :: r => has_nonempty_str v || over r
         end) elems
  | _ => false
  end.

(** The [incval]-th name that [getUniqueName] tries after a collision,
    [f"{self.name}_{incval}"]. *)
Definition renamed (self : Flow) (incval : N) : pyval :=
  PStr (name self ++ py "_" ++ str_of_N incval).

(** The instance that [MixinNaiveBulkComplete.bulk_complete] builds from
    one parameter tuple, and whether its [complete()] answers [True]. *)
Definition instance_of (py_hash : pystr -> Z) (cls : TaskClass)
    (parameter_tuple : pyval) : result task :=
  match parameter_tuple with
  | PSeq _ elems => Task_init py_hash cls elems []
  | PDict _ items => Task_init py_hash cls [] items
  | _ => Task_init py_hash cls [parameter_tuple] []
  end.

Definition tuple_complete (py_hash : pystr -> Z) (cls : TaskClass)
    (parameter_tuple : pyval) : bool :=
  match instance_of py_hash cls parameter_tuple with
  | Ok t => match fst (complete t) with Ok true => true | _ => false end
  | Raise _ => false
  end.

(** The tuple gives an instance whose [complete()] returns. *)
Definition tuple_checkable (py_hash : pystr -> Z) (cls : TaskClass)
    (parameter_tuple : pyval) : Prop :=
  exists t b, instance_of py_hash cls parameter_tuple = Ok t
              /\ fst (complete t) = Ok b.

(** [exists()] of an output that is a target. *)
Definition output_exists (output : pyval) : bool :=
  match output with
  | PTarget tg => target_exists tg
  | _ => false
  end.

Definition is_target (v : pyval) : bool :=
  match v with PTarget _ => true | _ => false end.

(** Two instances of [cls] have identical values for the parameters
    that are significant and public. *)
Definition same_significant_public (cls : TaskClass)
    (param_kwargs1 param_kwargs2 : pydict pyval) : Prop :=
  forall param_name p,
    dict_get (dict_of_pairs (get_params cls)) param_name = Some p ->
    significant p = true ->
    visibility p = PUBLIC ->
    dict_get param_kwargs1 param_name = dict_get param_kwargs2 param_name.

(** *** The task id as the specification words it

    The definitions of [IdSpec] follow the sentences of the
    specification.  They use none of the functions that [task_id_str] is
    made of: the order is a relation on strings, the replacement is
    membership in the alphabet written out, the JSON text is built from
    the grammar of JSON strings, and the parts are put together by a
    joining function of their own.  The MD5 digest is the one of
    [hashlib], which [md5_test_suite] compares with the test suite of
    RFC 1321. *)
Module IdSpec.

(** Lexicographic order on strings: the first character that differs
    decides, and a proper prefix comes first. *)
Inductive lex_lt : pystr -> pystr -> Prop :=
| lex_lt_prefix c s : lex_lt [] (c :: s)
| lex_lt_head c d s t : (c < d)%N -> lex_lt (c :: s) (d :: t)
| lex_lt_tail c s t : lex_lt s t -> lex_lt (c :: s) (c :: t).

(** The items are listed in lexicographic order of their keys. *)
Definition keys_increasing (items : list (pystr * pystr)) : Prop :=
  StronglySorted (fun kv kv' => lex_lt (fst kv) (fst kv')) items.

(** The parts, with [sep] before each part but the first. *)
Definition joined (sep : pystr) (parts : list pystr) : pystr :=
  match parts with
  | [] => []
  | p :: rest => p ++ flat_map (fun q => sep ++ q) rest
  end.

(** The characters of [A-Za-z0-9_]. *)
Definition word_chars : pystr :=
  py "ABCDEFGHIJKLMNOPQRSTUVWXYZabcdefghijklmnopqrstuvwxyz0123456789_".

Definition underscore : N := 95.

Definition keep_or_underscore (c : N) : N :=
  if existsb (N.eqb c) word_chars then c else underscore.

(** The values of the first 3 keys, each cut to 16 characters, joined
    with underscores, every character outside [A-Za-z0-9_] replaced by an
    underscore. *)
Definition param_summary (items : list (pystr * pystr)) : pystr :=
  map keep_or_underscore
    (joined [underscore]
       (map (fun kv => firstn 16 (snd kv)) (firstn 3 items))).

(** A JSON string in ASCII: the two-character escapes of the JSON
    grammar for the double quote, the backslash and the control
    characters that have one; the printable ASCII characters as
    themselves; any other character as [\uXXXX] with four lower-case
    hexadecimal digits, a character beyond [0xFFFF] as the two halves of
    its UTF-16 surrogate pair. *)
Definition hex_digits : pystr := py "0123456789abcdef".

Definition u_escape (n : N) : pystr :=
  [92; 117]%N
  ++ map (fun k => nth (N.to_nat ((n / 16 ^ k) mod 16)) hex_digits 0%N)
       [3; 2; 1; 0]%N.

Definition short_escapes : list (N * pystr) :=
  [(34, [92; 34]); (92, [92; 92]); (8, [92; 98]); (12, [92; 102]);
   (10, [92; 110]); (13, [92; 114]); (9, [92; 116])]%N.

Definition json_char (c : N) : pystr :=
  match find (fun e => N.eqb (fst e) c) short_escapes with
  | Some e => snd e
  | None =>
      (if (32 <=? c) && (c <? 127) then [c]
       else if c <? 65536 then u_escape c
       else u_escape (55296 + ((c - 65536) / 1024) mod 1024)
            ++ u_escape (56320 + (c - 65536) mod 1024))%N
  end.

Definition json_string (s : pystr) : pystr :=
  [34%N] ++ flat_map json_char s ++ [34%N].

(** The compact encoding of the mapping: the items in the order given,
    [,] between items and [:] between a key and its value, no
    whitespace. *)
Definition compact_json (items : list (pystr * pystr)) : pystr :=
  [123%N]
  ++ joined [44%N]
       (map (fun kv => json_string (fst kv) ++ [58%N] ++ json_string (snd kv))
          items)
  ++ [125%N].

(** The first 10 hexadecimal characters of the MD5 digest of the
    encoding. *)
Definition hash_prefix (items : list (pystr * pystr)) : pystr :=
  firstn 10 (MD5.hexdigest (compact_json items)).

(** [{family}_{param_summary}_{hash_prefix}] *)
Definition task_id (task_family : pystr) (items : list (pystr * pystr))
    : pystr :=
  task_family ++ [underscore] ++ param_summary items ++ [underscore]
  ++ hash_prefix items.

(** The test suite of RFC 1321, appendix A.5. *)
Definition md5_test_suite : Prop :=
  MD5.hexdigest [] = py "d41d8cd98f00b204e9800998ecf8427e"
  /\ MD5.hexdigest (py "a") = py "0cc175b9c0f1b6a831c399e269772661"
  /\ MD5.hexdigest (py "abc") = py "900150983cd24fb0d6963f7d28e17f72"
  /\ MD5.hexdigest (py "message digest")
     = py "f96b697d7cb7938d525a2f31aaf161d0"
  /\ MD5.hexdigest (py "abcdefghijklmnopqrstuvwxyz")
     = py "c3fcd3d76192e4007dfb496cca67e13b"
  /\ MD5.hexdigest
       (py "ABCDEFGHIJKLMNOPQRSTUVWXYZabcdefghijklmnopqrstuvwxyz0123456789")
     = py "d174ab98d277d9f5a5611c2c9f419d9f"
  /\ MD5.hexdigest
       (py "12345678901234567890123456789012345678901234567890123456789012345678901234567890")
     = py "57edf4a22be3c955ac49da2e2107b67a".

End IdSpec.

(** *** The task id in terms of the functions of the source *)

(** The items of the mapping as [sorted] orders them. *)
Definition items_by_key (params : pydict pystr) : list (pystr * pystr) :=
  sorted_by fst params.

(** Compact JSON encoding: keys sorted, [,] and [:] as only
    separators.  Its characters are all ASCII, so it is its own UTF-8
    encoding. *)
Definition canonical_json (params : pydict pystr) : pystr :=
  py "{" ++
  join (py ",")
    (map (fun kv => Json.encode_str (fst kv) ++ py ":"
                      ++ Json.encode_str (snd kv))
         (items_by_key params)) ++
  py "}".

(** First 10 hexadecimal characters of the MD5 digest of the encoding. *)
Definition hash_prefix (params : pydict pystr) : pystr :=
  firstn 10 (MD5.hexdigest (canonical_json params)).

(** The values of the first 3 keys, each cut to 16 characters, joined by
    underscores, every character outside [A-Za-z0-9_] replaced. *)
Definition param_summary (params : pydict pystr) : pystr :=
  sub_invalid
    (join (py "_")
       (map (fun kv => firstn 16 (snd kv)) (firstn 3 (items_by_key params)))).

(** [key x <= key y] in the order of [sorted]. *)
Definition key_le (A : Type) (key : A -> pystr) (x y : A) : Prop :=
  pystr_ltb (key y) (key x) = false.

(** All characters are ASCII. *)
Definition is_ascii (s : pystr) : bool := forallb (fun c => c <? 128)%N s.

(* ================================================================== *)
(** ** A small task family, used to exercise the model *)

Module Example.

Definition hash (s : pystr) : Z := Z.of_nat (List.length s).

Definition serialize_str (v : pyval) : pystr :=
  match v with
  | PStr s => s
  | _ => py "?"
  end.

(** [date = Parameter()] *)
Definition date_param : ParameterT :=
  {| positional := true; significant := true; visibility := PUBLIC;
     normalize := fun v => Ok v;
     has_task_value := fun _ _ => Ok false;
     task_value := fun _ _ => Raise MissingParameterException;
     serialize := serialize_str |}.

(** [note = Parameter(significant=False, default="")] *)
Definition note_param : ParameterT :=
  {| positional := true; significant := false; visibility := PUBLIC;
     normalize := fun v => Ok v;
     has_task_value := fun _ _ => Ok true;
     task_value := fun _ _ => Ok (PStr []);
     serialize := serialize_str |}.

(** The output of a [Report] is one target, which exists for the date
    [2020] only. *)
Definition report_output (param_kwargs : pydict pyval) : pyval :=
  match dict_get param_kwargs (py "date") with
  | Some (PStr d) =>
      PTarget {| target_path := py "report_" ++ d;
                 target_exists := pystr_eqb d (py "2020") |}
  | _ => PSeq KList []
  end.

(** [class Report(MixinNaiveBulkComplete, Task)] *)
Definition Report : TaskClass :=
  {| cls_id := 1;
     cls_name := py "Report";
     cls_module := py "__main__";
     cls_task_namespace := Some __not_user_specified;
     cls_namespace_at_class_time := Some [];
     cls_params := [(py "date", date_param); (py "note", note_param)];
     cls_dict := [];
     cls_complete := DefaultComplete;
     cls_bulk := BulkNaive;
     cls_output := report_output;
     cls_requires := fun _ => PSeq KList [] |}.

Definition params_abc : pydict pystr :=
  [(py "b", py "x y");
   (py "a", [0x68; 0x22; 0x69; 0x5c; 0x7f; 0xa; 0xe9; 0x1f600]%N);
   (py "c", py "0123456789abcdefXYZ");
   (py "d", py "q")].

(** The items of [params_abc] in lexicographic order of their keys. *)
Definition items_abc : list (pystr * pystr) :=
  [(py "a", [0x68; 0x22; 0x69; 0x5c; 0x7f; 0xa; 0xe9; 0x1f600]%N);
   (py "b", py "x y");
   (py "c", py "0123456789abcdefXYZ");
   (py "d", py "q")].

Definition target_a : pyval :=
  PTarget {| target_path := py "a.txt"; target_exists := true |}.

(** A task with one output that exists, one without output, and a
    wrapper over both. *)
Definition task_a : task :=
  MkTask 2 (py "A__99914b932b") 0 [] [] [] DefaultComplete
    target_a (PSeq KList []).

Definition task_b : task :=
  MkTask 3 (py "B__99914b932b") 0 [] [] [] DefaultComplete
    (PSeq KList []) (PSeq KList []).

Definition wrapper : task :=
  MkTask 4 (py "All__99914b932b") 0 [] [] [] WrapperComplete
    (PSeq KList [])
    (PSeq KList [PTask task_a; PDict KDict [(py "x", PTask task_b)]]).

Definition named_a : task :=
  Task_setattr task_a (py "name") (PStr (py "build")).

Definition named_b : task :=
  Task_setattr task_b (py "name") (PStr (py "build")).

(** The task objects: object 0 is [named_a], every other object is
    [named_b]. *)
Definition objects : store :=
  fun o => match o with O => named_a | S _ => named_b end.

(** A flow called [flow] that already holds object 0 under [build]. *)
Definition flow1 : Flow :=
  {| taskset := [(PStr (py "build"), 0)];
     name := py "flow";
     autoRename := true |}.

(** The instance that a construction gives when it succeeds. *)
Definition built (r : result task) : task :=
  match r with
  | Ok t => t
  | Raise _ => task_a
  end.

(** [Report("2020", "x")] and [Report(note="y", date="2020")] *)
Definition report_x : task :=
  built (Task_init hash Report [PStr (py "2020"); PStr (py "x")] []).

Definition report_y : task :=
  built (Task_init hash Report []
           [(py "note", PStr (py "y")); (py "date", PStr (py "2020"))]).

Definition tuples : list pyval :=
  [PSeq KTuple [PStr (py "2020"); PStr (py "x")];
   PSeq KList [PStr (py "1999")];
   PDict KDict [(py "date", PStr (py "2020")); (py "note", PStr (py "y"))]].

End Example.

(* ================================================================== *)
(** ** The dependency protocol of [Task] *)

(** [Task._requires], base implementation *)
Definition _requires (self : task) : pyval :=
  PSeq KList (flatten (t_requires self)).

(** [Task.deps] *)
Definition deps (self : task) : list pyval := flatten (_requires self).

(** [Task.input] *)
Definition input (self : task) : result pyval := getpaths (t_requires self).

(** A value that [flatten] keeps as it is: a string or a value that is
    not iterable. *)
Definition is_leaf (v : pyval) : bool :=
  match v with
  | PStr _ | PInt _ | PObject _ | PTarget _ | PTask _ => true
  | PNone | PDict _ _ | PSeq _ _ | PIter _ _ => false
  end.

(** [flatten(v.output())] for a flattened requirement [v]. *)
Definition outputs_of (v : pyval) : list pyval :=
  match v with
  | PTask t => flatten (t_output t)
  | _ => []
  end.

(** A character of [0-9a-f]. *)
Definition is_lower_hex (c : N) : bool :=
  (((48 <=? c) && (c <=? 57)) || ((97 <=? c) && (c <=? 102)))%N.

(* ================================================================== *)
(** ** More sample data *)

Module Sample.

(** A flow in which the name [build] and every name that
    [getUniqueName] can propose are taken. *)
Definition full_flow : Flow :=
  {| taskset :=
       (PStr (py "build"), 0)
       :: map (fun k => (PStr (py "flow" ++ py "_" ++ str_of_N (N.of_nat k)),
                         0))
              (seq 0 (N.to_nat RENAME_LIMIT));
     name := py "flow";
     autoRename := true |}.

End Sample.

(** The names of the parameters that [args] fills: the first positional
    parameters, as many as there are arguments. *)
Definition positional_names (params : list (pystr * ParameterT))
    (args : list pyval) : list pystr :=
  map fst (firstn (List.length args)
             (filter (fun np => positional (snd np)) params)).

(* ================================================================== *)
(** ** [DynamicRequirements] *)

(** The attributes that [__init__] sets: the wrapped requirements, the
    optional custom completeness function (called with the per-task
    check), and the two caches, [None] until first use. *)
Record DynamicRequirements : Type := {
  requirements : pyval;
  custom_complete : option ((pyval -> W bool) -> W bool);
  _flat_requirements : option (list pyval);
  _paths : pyval
}.

(** [DynamicRequirements.__init__] *)
Definition DynamicRequirements_init (requirements : pyval)
    (custom_complete : option ((pyval -> W bool) -> W bool))
  : DynamicRequirements :=
  {| requirements := requirements;
     custom_complete := custom_complete;
     _flat_requirements := None;
     _paths := PNone |}.

(** The property [flat_requirements]: the value read, and the object
    after the read. *)
Definition flat_requirements (self : DynamicRequirements)
  : list pyval * DynamicRequirements :=
  match _flat_requirements self with
  | None =>
      let flat := flatten (requirements self) in
      (flat,
       {| requirements := requirements self;
          custom_complete := custom_complete self;
          _flat_requirements := Some flat;
          _paths := _paths self |})
  | Some flat => (flat, self)
  end.

(** The property [paths] *)
Definition paths (self : DynamicRequirements)
  : result (pyval * DynamicRequirements) :=
  match _paths self with
  | PNone =>
      p <- getpaths (requirements self) ;;
      Ok (p,
          {| requirements := requirements self;
             custom_complete := custom_complete self;
             _flat_requirements := _flat_requirements self;
             _paths := p |})
  | p => Ok (p, self)
  end.

(** [DynamicRequirements.complete]; [complete_fn] is [None] when the
    caller passes nothing. *)
Definition DynamicRequirements_complete (self : DynamicRequirements)
    (complete_fn : option (pyval -> W bool))
  : W bool * DynamicRequirements :=
  let complete_fn :=
    match complete_fn with
    | None => call_complete
    | Some f => f
    end in
  match custom_complete self with
  | Some custom => (custom complete_fn, self)
  | None =>
      let '(flat, self') := flat_requirements self in
      (all_of complete_fn flat, self')
  end.

(** The cache of flattened requirements is empty or holds the flattening
    of the requirements. *)
Definition flat_cache_ok (self : DynamicRequirements) : Prop :=
  _flat_requirements self = None
  \/ _flat_requirements self = Some (flatten (requirements self)).

(* ================================================================== *)
(** ** [flatten_output] *)

(** [task in output_tasks], a lookup in an [OrderedDict]: same hash,
    then [==]. *)
Definition task_in (t : task) (output_tasks : list task) : bool :=
  existsb (fun t' => Z.eqb (Task_hash t') (Task_hash t) && Task_eq t' t)
          output_tasks.

(** Number of nodes of a value, through the requirements of tasks. *)
Fixpoint pyval_size (v : pyval) : nat :=
  match v with
  | PTask t => S (task_size t)
  | PDict _ items =>
      S ((fix over_items (l : list (pystr * pyval)) : nat :=
            match l with
            | [] => 0
            | (_, x) :: r => pyval_size x + over_items r
            end) items)
  | PSeq _ elems | PIter _ elems =>
      S ((fix over (l : list pyval) : nat :=
            match l with
            | [] => 0
            | x :: r => pyval_size x + over r
            end) elems)
  | _ => 1
  end
with task_size (t : task) : nat :=
  match t with
  | MkTask _ _ _ _ _ _ _ _ requires => S (pyval_size requires)
  end.

(** The [while] loop of [flatten_output] over the queue
    [tasks_to_process]; every turn removes one node of the finite
    structure, which bounds the number of turns by its size. *)
Fixpoint flatten_output_loop (fuel : nat) (tasks_to_process : list pyval)
    (output_tasks : list task) : result (list task) :=
  match tasks_to_process with
  | [] => Ok output_tasks
  | current_task :: rest =>
      match fuel with
      | O => Raise RecursionError
      | S fuel' =>
          match current_task with
          | PTask t =>
              match flatten (t_output t) with
              | _ :: _ =>
                  flatten_output_loop fuel' rest
                    (if negb (task_in t output_tasks)
                     then output_tasks ++ [t] else output_tasks)
              | [] =>
                  flatten_output_loop fuel'
                    (rest ++ flatten (t_requires t)) output_tasks
              end
          | _ => Raise AttributeError
          end
      end
  end.

Definition flatten_output (task_ : task) : result (list pyval) :=
  output_tasks <-
    flatten_output_loop (pyval_size (PTask task_)) [PTask task_] [] ;;
  Ok (flat_map (fun t => flatten (t_output t)) output_tasks).

(** [reaches t t']: [t'] is [t], or a requirement of [t] when [t] has no
    output, and so on. *)
Inductive reaches : task -> task -> Prop :=
| reaches_self t : reaches t t
| reaches_step t u t' :
    flatten (t_output t) = [] ->
    In (PTask u) (flatten (t_requires t)) ->
    reaches u t' ->
    reaches t t'.

(** The structure flattens to tasks only, and so do the requirements of
    these tasks, and so on. *)
Fixpoint only_tasks (v : pyval) : bool :=
  match v with
  | PNone => true
  | PTask t => only_tasks_of t
  | PDict _ items =>
      (fix over_items (l : list (pystr * pyval)) : bool :=
         match l with
         | [] => true
         | (_, x) :: r => only_tasks x && over_items r
         end) items
  | PSeq _ elems | PIter _ elems =>
      (fix over (l : list pyval) : bool :=
         match l with
         | [] => true
         | x :: r => only_tasks x && over r
         end) elems
  | PStr _ | PInt _ | PObject _ | PTarget _ => false
  end
with only_tasks_of (t : task) : bool :=
  match t with
  | MkTask _ _ _ _ _ _ _ _ requires => only_tasks requires
  end.

(** No task of the list is found, by [task_in], among those before it. *)
Definition recorded_once (tasks : list task) : Prop :=
  forall before t after,
    tasks = before ++ t :: after -> task_in t before = false.

(* ================================================================== *)
(** ** [from_str_params] *)

(** A value of the mapping given to [from_str_params]: a string, or a
    list of strings. *)
Inductive str_or_list : Type :=
| StrValue (s : pystr)
| ListValue (l : list pystr).

Section FromStrParams.

(** The built-in [hash] on [str], and the methods [parse] and
    [_parse_list] of a parameter, which [simplui.parameter] defines. *)
Variable py_hash : pystr -> Z.
Variable parse : ParameterT -> pystr -> result pyval.
Variable _parse_list : ParameterT -> list pystr -> result pyval.

(** The loop of [from_str_params] that fills [kwargs]. *)
Fixpoint from_str_params_loop (params : list (pystr * ParameterT))
    (params_str : pydict str_or_list) (kwargs : pydict pyval)
  : result (pydict pyval) :=
  match params with
  | [] => Ok kwargs
  | (param_name, param) :: rest =>
      if dict_mem params_str param_name then
        param_str <- dict_getitem params_str param_name ;;
        v <- match param_str with
             | ListValue l => _parse_list param l
             | StrValue s => parse param s
             end ;;
        from_str_params_loop rest params_str (dict_set kwargs param_name v)
      else from_str_params_loop rest params_str kwargs
  end.

Definition from_str_params (cls : TaskClass)
    (params_str : pydict str_or_list) : result task :=
  kwargs <- from_str_params_loop (get_params cls) params_str [] ;;
  Task_init py_hash cls [] kwargs.

(** Serializing, parsing back and normalizing a value of a significant
    public parameter of [cls] gives a value with the same
    serialization. *)
Definition serialize_round_trips (cls : TaskClass) : Prop :=
  forall n p v a w,
    In (n, p) (get_params cls) ->
    significant p = true ->
    visibility p = PUBLIC ->
    parse p (serialize p v) = Ok a ->
    normalize p a = Ok w ->
    serialize p (list_to_tuple w) = serialize p v.

End FromStrParams.

(** A mapping from names to strings, as [from_str_params] receives
    it. *)
Definition as_params_str (d : pydict pystr) : pydict str_or_list :=
  map (fun kv => (fst kv, StrValue (snd kv))) d.

(* ================================================================== *)
(** ** Sample data for the round trip through strings *)

Module RoundTrip.

(** [parse] of a plain string parameter: the string itself. *)
Definition parse (p : ParameterT) (s : pystr) : result pyval := Ok (PStr s).

Definition parse_list (p : ParameterT) (l : list pystr) : result pyval :=
  Ok (PSeq KTuple (map PStr l)).

(** [Report("2020", "x").to_str_params(only_significant=True,
    only_public=True)] *)
Definition report_str : pydict pystr := [(py "date", py "2020")].

(** [Report.from_str_params({"date": "2020"})] *)
Definition report_parsed : task :=
  Example.built
    (from_str_params Example.hash parse parse_list Example.Report
       (as_params_str report_str)).

End RoundTrip.

(* ================================================================== *)
(** * Properties *)

(** ** Induction on values and tasks *)

Section PyvalInd.
Variable P : pyval -> Prop.
Variable Q : task -> Prop.
Hypothesis HNone : P PNone.
Hypothesis HStr : forall s, P (PStr s).
Hypothesis HInt : forall z, P (PInt z).
Hypothesis HObject : forall n, P (PObject n).
Hypothesis HTarget : forall tg, P (PTarget tg).
Hypothesis HTask : forall t, Q t -> P (PTask t).
Hypothesis HDict :
  forall k items, Forall (fun kv => P (snd kv)) items -> P (PDict k items).
Hypothesis HSeq : forall k elems, Forall P elems -> P (PSeq k elems).
Hypothesis HIter : forall k elems, Forall P elems -> P (PIter k elems).
Hypothesis HMk :
  forall c i h kw d cd impl o r,
    P o -> P r -> Q (MkTask c i h kw d cd impl o r).

Fixpoint pyval_task_ind (v : pyval) : P v :=
  match v with
  | PNone => HNone
  | PStr s => HStr s
  | PInt z => HInt z
  | PObject n => HObject n
  | PTarget tg => HTarget tg
  | PTask t => HTask (task_pyval_ind t)
  | PDict k items =>
      HDict k
        ((fix over (l : list (pystr * pyval))
            : Forall (fun kv => P (snd kv)) l :=
            match l with
            | [] => Forall_nil _
            | kv :: r => Forall_cons kv (pyval_task_ind (snd kv)) (over r)
            end) items)
  | PSeq k elems =>
      HSeq k
        ((fix over (l : list pyval) : Forall P l :=
            match l with
            | [] => Forall_nil _
            | x :: r => Forall_cons x (pyval_task_ind x) (over r)
            end) elems)
  | PIter k elems =>
      HIter k
        ((fix over (l : list pyval) : Forall P l :=
            match l with
            | [] => Forall_nil _
            | x :: r => Forall_cons x (pyval_task_ind x) (over r)
            end) elems)
  end
with task_pyval_ind (t : task) : Q t :=
  match t with
  | MkTask c i h kw d cd impl o r =>
      HMk c i h kw d cd impl (pyval_task_ind o) (pyval_task_ind r)
  end.
End PyvalInd.

(** ** Equations of [flatten] and [getpaths] on containers *)

Lemma flatten_dict k items :
  flatten (PDict k items) = flat_map (fun kv => flatten (snd kv)) items.
Proof.
  simpl. induction items as [|[key v] r IH]; simpl; [reflexivity|].
  now rewrite IH.
Qed.

Lemma flatten_seq k elems :
  flatten (PSeq k elems) = flat_map flatten elems.
Proof.
  simpl. induction elems as [|v r IH]; simpl; [reflexivity|].
  now rewrite IH.
Qed.

Lemma flatten_iter k elems :
  flatten (PIter k elems) = flat_map flatten elems.
Proof.
  simpl. induction elems as [|v r IH]; simpl; [reflexivity|].
  now rewrite IH.
Qed.

Lemma getpaths_dict k items :
  getpaths (PDict k items) =
  if dict_takes_iterable k then
    (items' <- mapM getpaths_item items ;; Ok (PDict k items'))
  else Raise TypeError.
Proof.
  destruct k; simpl; try reflexivity; f_equal;
    (induction items as [|[key v] r IH]; simpl; [reflexivity|];
     unfold getpaths_item at 1; simpl;
     destruct (getpaths v); simpl; [|reflexivity];
     now rewrite IH).
Qed.

Lemma getpaths_seq k elems :
  getpaths (PSeq k elems) =
  if seq_takes_iterable k then
    (elems' <- mapM getpaths elems ;; Ok (PSeq k elems'))
  else Raise TypeError.
Proof.
  destruct k; simpl; try reflexivity; f_equal;
    (induction elems as [|v r IH]; simpl; [reflexivity|];
     destruct (getpaths v); simpl; [|reflexivity];
     now rewrite IH).
Qed.

Lemma getpaths_iter k elems :
  getpaths (PIter k elems) =
  try_except (elems' <- mapM getpaths elems ;; Ok (PSeq KList elems'))
    TypeError (Raise Exception_).
Proof.
  simpl. do 2 f_equal.
  induction elems as [|v r IH]; simpl; [reflexivity|].
  destruct (getpaths v); simpl; [|reflexivity].
  now rewrite IH.
Qed.

Lemma mapM_Ok_Forall2 {A B} (f : A -> result B) l l' :
  mapM f l = Ok l' -> Forall2 (fun x y => f x = Ok y) l l'.
Proof.
  revert l'. induction l as [|x r IH]; simpl; intros l' H.
  - injection H as <-. constructor.
  - destruct (f x) eqn:Hx; simpl in H; [|discriminate].
    destruct (mapM f r) eqn:Hr; simpl in H; [|discriminate].
    injection H as <-. constructor; auto.
Qed.

Lemma mapM_Forall_Ok {A B} (f : A -> result B) l :
  Forall (fun x => exists y, f x = Ok y) l -> exists l', mapM f l = Ok l'.
Proof.
  induction 1 as [|x r [y Hy] _ [l' Hl']]; simpl.
  - now exists [].
  - rewrite Hy, Hl'. simpl. now eexists.
Qed.

Lemma mapM_Raise {A B} (f : A -> result B) l x e :
  In x l -> f x = Raise e -> exists e', mapM f l = Raise e' /\
    exists y, In y l /\ f y = Raise e'.
Proof.
  induction l as [|a r IH]; simpl; [tauto|].
  intros [->|Hin] Hx.
  - rewrite Hx. simpl. exists e. split; [reflexivity|]. exists x. auto.
  - destruct (f a) eqn:Ha; simpl.
    + destruct (IH Hin Hx) as (e' & -> & y & Hy & Hfy). simpl.
      exists e'. split; [reflexivity|]. exists y. auto.
    + exists e0. split; [reflexivity|]. exists a. auto.
Qed.

Lemma mapM_Raise_inv {A B} (f : A -> result B) l e :
  mapM f l = Raise e -> exists y, In y l /\ f y = Raise e.
Proof.
  induction l as [|a r IH]; simpl; [discriminate|].
  destruct (f a) eqn:Ha; simpl.
  - destruct (mapM f r); simpl; [discriminate|].
    intros [= <-]. destruct (IH eq_refl) as (y & Hy & Hfy). exists y. auto.
  - intros [= <-]. exists a. auto.
Qed.

Lemma task_struct_dict k items :
  task_struct (PDict k items)
  = dict_takes_iterable k && forallb (fun kv => task_struct (snd kv)) items.
Proof.
  destruct k; simpl; try reflexivity;
    (induction items as [|[key v] r IH]; simpl; [reflexivity|];
     now rewrite IH).
Qed.

Lemma task_struct_seq k elems :
  task_struct (PSeq k elems)
  = seq_takes_iterable k && forallb task_struct elems.
Proof.
  destruct k; simpl; try reflexivity;
    (induction elems as [|v r IH]; simpl; [reflexivity|];
     now rewrite IH).
Qed.

Lemma plain_containers_dict k items :
  plain_containers (PDict k items)
  = dict_takes_iterable k
    && forallb (fun kv => plain_containers (snd kv)) items.
Proof.
  destruct k; simpl; try reflexivity;
    (induction items as [|[key v] r IH]; simpl; [reflexivity|];
     now rewrite IH).
Qed.

Lemma plain_containers_seq k elems :
  plain_containers (PSeq k elems)
  = seq_takes_iterable k && forallb plain_containers elems.
Proof.
  destruct k; simpl; try reflexivity;
    (induction elems as [|v r IH]; simpl; [reflexivity|];
     now rewrite IH).
Qed.

Lemma plain_containers_iter k elems :
  plain_containers (PIter k elems) = forallb plain_containers elems.
Proof.
  simpl. induction elems as [|v r IH]; simpl; [reflexivity|].
  now rewrite IH.
Qed.

Lemma task_struct_plain struct :
  task_struct struct = true -> plain_containers struct = true.
Proof.
  pattern struct.
  apply pyval_task_ind with (Q := fun _ => True); auto.
  - intros k items IH. rewrite task_struct_dict, plain_containers_dict.
    intros H. apply andb_true_iff in H as [-> H]. simpl.
    rewrite forallb_forall in *. rewrite Forall_forall in IH.
    intros kv Hin. apply IH; auto.
  - intros k elems IH. rewrite task_struct_seq, plain_containers_seq.
    intros H. apply andb_true_iff in H as [-> H]. simpl.
    rewrite forallb_forall in *. rewrite Forall_forall in IH.
    intros v Hin. apply IH; auto.
  - intros k elems _. discriminate.
Qed.

Lemma has_bad_leaf_dict k items :
  has_bad_leaf (PDict k items) = existsb (fun kv => has_bad_leaf (snd kv)) items.
Proof.
  simpl. induction items as [|[key v] r IH]; simpl; [reflexivity|].
  now rewrite IH.
Qed.

Lemma has_bad_leaf_seq k elems :
  has_bad_leaf (PSeq k elems) = existsb has_bad_leaf elems.
Proof.
  simpl. induction elems as [|v r IH]; simpl; [reflexivity|].
  now rewrite IH.
Qed.

Lemma has_bad_leaf_iter k elems :
  has_bad_leaf (PIter k elems) = existsb has_bad_leaf elems.
Proof.
  simpl. induction elems as [|v r IH]; simpl; [reflexivity|].
  now rewrite IH.
Qed.

Lemma has_nonempty_str_dict k items :
  has_nonempty_str (PDict k items)
  = existsb (fun kv => has_nonempty_str (snd kv)) items.
Proof.
  simpl. induction items as [|[key v] r IH]; simpl; [reflexivity|].
  now rewrite IH.
Qed.

Lemma has_nonempty_str_seq k elems :
  has_nonempty_str (PSeq k elems) = existsb has_nonempty_str elems.
Proof.
  simpl. induction elems as [|v r IH]; simpl; [reflexivity|].
  now rewrite IH.
Qed.

Lemma has_nonempty_str_iter k elems :
  has_nonempty_str (PIter k elems) = existsb has_nonempty_str elems.
Proof.
  simpl. induction elems as [|v r IH]; simpl; [reflexivity|].
  now rewrite IH.
Qed.

(** ** Flattening *)

(** C3. [flatten] gives the empty list for [None], a singleton for a
    string, the concatenation of [flatten] over the values of a mapping
    in iteration order, the concatenation of [flatten] over the elements
    of any other iterable in order, and a singleton for a scalar that is
    not iterable; with the three examples of the specification. *)
Theorem flatten_spec :
  flatten PNone = []
  /\ (forall s, flatten (PStr s) = [PStr s])
  /\ (forall k items,
        flatten (PDict k items) = flat_map (fun kv => flatten (snd kv)) items)
  /\ (forall k elems, flatten (PSeq k elems) = flat_map flatten elems)
  /\ (forall k elems, flatten (PIter k elems) = flat_map flatten elems)
  /\ (forall z, flatten (PInt z) = [PInt z])
  /\ (forall n, flatten (PObject n) = [PObject n])
  /\ (forall tg, flatten (PTarget tg) = [PTarget tg])
  /\ (forall t, flatten (PTask t) = [PTask t])
  /\ flatten (PStr (py "foo")) = [PStr (py "foo")]
  /\ (forall task_a task_b,
        flatten (PSeq KList [PTask task_a;
                             PDict KDict [(py "x", PTask task_b)]])
        = [PTask task_a; PTask task_b]).
Proof.
  split; [reflexivity|].
  split; [reflexivity|].
  split; [apply flatten_dict|].
  split; [apply flatten_seq|].
  split; [apply flatten_iter|].
  repeat (split; [reflexivity|]). reflexivity.
Qed.

(** ** Mapping tasks to their outputs *)

Lemma getpaths_task_struct struct :
  task_struct struct = true ->
  exists out, getpaths struct = Ok out /\ shape_preserved struct out.
Proof.
  pattern struct.
  apply pyval_task_ind with (Q := fun _ => True); try discriminate; auto.
  - intros t _ _. exists (t_output t). split; [reflexivity|constructor].
  - intros k items IH Hs. rewrite task_struct_dict in Hs.
    apply andb_true_iff in Hs as [Hk Hs].
    rewrite getpaths_dict, Hk.
    assert (exists items', mapM getpaths_item items = Ok items'
              /\ Forall2 (fun kv kv' => fst kv = fst kv'
                    /\ shape_preserved (snd kv) (snd kv')) items items')
      as (items' & Hm & HF).
    { induction IH as [|[key v] r Hv _ IHr]; simpl in *.
      - exists []. split; [reflexivity|constructor].
      - apply andb_true_iff in Hs as [Hs1 Hs2].
        destruct (Hv Hs1) as (v' & Hg & Hsh).
        destruct (IHr Hs2) as (r' & Hm & HF).
        exists ((key, v') :: r'). unfold getpaths_item at 1. simpl.
        rewrite Hg. simpl. rewrite Hm. simpl. split; [reflexivity|].
        constructor; auto. }
    rewrite Hm. simpl. eexists. split; [reflexivity|]. now constructor.
  - intros k elems IH Hs. rewrite task_struct_seq in Hs.
    apply andb_true_iff in Hs as [Hk Hs].
    rewrite getpaths_seq, Hk.
    assert (exists elems', mapM getpaths elems = Ok elems'
              /\ Forall2 shape_preserved elems elems') as (elems' & Hm & HF).
    { induction IH as [|v r Hv _ IHr]; simpl in *.
      - exists []. split; [reflexivity|constructor].
      - apply andb_true_iff in Hs as [Hs1 Hs2].
        destruct (Hv Hs1) as (v' & Hg & Hsh).
        destruct (IHr Hs2) as (r' & Hm & HF).
        exists (v' :: r'). rewrite Hg. simpl. rewrite Hm. simpl.
        split; [reflexivity|]. constructor; auto. }
    rewrite Hm. simpl. eexists. split; [reflexivity|]. now constructor.
Qed.

(** C4, as the claim states it, fails: a namedtuple of two tasks and a
    [defaultdict] of tasks are nested structures of task instances, and
    on them [getpaths] raises [TypeError] where the claim has it return a
    container of the same class.  The class is called on a generator of
    the mapped items, which these two classes do not accept. *)
Lemma getpaths_other_container_class_raises :
  task_leaves
    (PSeq (KNamedTuple 0) [PTask Example.task_a; PTask Example.task_b])
  = true
  /\ getpaths
       (PSeq (KNamedTuple 0) [PTask Example.task_a; PTask Example.task_b])
     = Raise TypeError
  /\ task_leaves (PDict KDefaultDict [(py "a", PTask Example.task_a)]) = true
  /\ getpaths (PDict KDefaultDict [(py "a", PTask Example.task_a)])
     = Raise TypeError.
Proof.
  repeat split; reflexivity.
Qed.

(** C4, amended. [getpaths] keeps the shape of a nested structure of
    tasks whose containers are instances of [dict], [OrderedDict], [list]
    and [tuple]: a bare task gives its [output()] itself; a mapping gives
    a mapping of the same class with the same keys, and a list or a tuple
    a sequence of the same class, with [getpaths] applied to each value
    in order. *)
Theorem getpaths_preserves_shape :
  (forall t, getpaths (PTask t) = Ok (t_output t))
  /\ (forall k items,
        dict_takes_iterable k = true ->
        getpaths (PDict k items)
        = (items' <- mapM getpaths_item items ;; Ok (PDict k items')))
  /\ (forall k elems,
        seq_takes_iterable k = true ->
        getpaths (PSeq k elems)
        = (elems' <- mapM getpaths elems ;; Ok (PSeq k elems')))
  /\ (forall struct,
        task_struct struct = true ->
        exists out, getpaths struct = Ok out /\ shape_preserved struct out)
  /\ (forall task_a,
        getpaths (PDict KDict [(py "a", PTask task_a)])
        = Ok (PDict KDict [(py "a", t_output task_a)]))
  /\ (forall k task_a task_b,
        seq_takes_iterable k = true ->
        getpaths (PSeq k [PTask task_a; PTask task_b])
        = Ok (PSeq k [t_output task_a; t_output task_b])).
Proof.
  split; [reflexivity|].
  split; [intros k items Hk; now rewrite getpaths_dict, Hk|].
  split; [intros k elems Hk; now rewrite getpaths_seq, Hk|].
  split; [apply getpaths_task_struct|].
  split; [reflexivity|].
  intros k task_a task_b Hk. now rewrite getpaths_seq, Hk.
Qed.

(** Among [dict], [OrderedDict], [list], [tuple] and the other
    iterables, every error of [getpaths] is the plain [Exception] of its
    handler or the recursion limit reached on a non-empty string. *)
Lemma getpaths_errors struct :
  plain_containers struct = true ->
  forall e, getpaths struct = Raise e ->
    (e = Exception_ \/ e = RecursionError)
    /\ (has_nonempty_str struct = false -> e = Exception_).
Proof.
  pattern struct.
  apply pyval_task_ind with (Q := fun _ => True); auto;
    try (intros; simpl in *; match goal with
         | H : Raise _ = Raise _ |- _ => injection H as <-; auto
         end; fail).
  - intros [|c s] _ e H; simpl in H; [discriminate|].
    injection H as <-. split; auto. discriminate.
  - intros t _ _ e H. discriminate.
  - intros k items IH Hp e H. rewrite plain_containers_dict in Hp.
    apply andb_true_iff in Hp as [Hk Hp].
    rewrite getpaths_dict, Hk in H.
    rewrite has_nonempty_str_dict.
    destruct (mapM getpaths_item items) eqn:Hm; simpl in H; [discriminate|].
    injection H as <-.
    apply mapM_Raise_inv in Hm as ([key v] & Hin & Hv).
    unfold getpaths_item in Hv. simpl in Hv.
    destruct (getpaths v) eqn:Hg; simpl in Hv; [discriminate|].
    injection Hv as <-.
    rewrite forallb_forall in Hp. pose proof (Hp _ Hin) as Hpv.
    rewrite Forall_forall in IH. destruct (IH _ Hin Hpv _ Hg) as [H1 H2].
    simpl in H2.
    split; [assumption|]. intros Hn. apply H2.
    destruct (has_nonempty_str v) eqn:Hs; [|reflexivity].
    exfalso. assert (existsb (fun kv => has_nonempty_str (snd kv)) items = true)
      by (apply existsb_exists; exists (key, v); auto).
    congruence.
  - intros k elems IH Hp e H. rewrite plain_containers_seq in Hp.
    apply andb_true_iff in Hp as [Hk Hp].
    rewrite getpaths_seq, Hk in H.
    rewrite has_nonempty_str_seq.
    destruct (mapM getpaths elems) eqn:Hm; simpl in H; [discriminate|].
    injection H as <-.
    apply mapM_Raise_inv in Hm as (v & Hin & Hg).
    rewrite forallb_forall in Hp. pose proof (Hp _ Hin) as Hpv.
    rewrite Forall_forall in IH. destruct (IH _ Hin Hpv _ Hg) as [H1 H2].
    split; [assumption|]. intros Hn. apply H2.
    destruct (has_nonempty_str v) eqn:Hs; [|reflexivity].
    exfalso. assert (existsb has_nonempty_str elems = true)
      by (apply existsb_exists; exists v; auto).
    congruence.
  - intros k elems IH Hp e H. rewrite plain_containers_iter in Hp.
    rewrite getpaths_iter in H.
    rewrite has_nonempty_str_iter.
    destruct (mapM getpaths elems) eqn:Hm; simpl in H; [discriminate|].
    apply mapM_Raise_inv in Hm as (v & Hin & Hg).
    rewrite forallb_forall in Hp. pose proof (Hp _ Hin) as Hpv.
    rewrite Forall_forall in IH. destruct (IH _ Hin Hpv _ Hg) as [H1 H2].
    assert (He : e = e0).
    { destruct H1 as [-> | ->]; simpl in H; congruence. }
    subst e0. split; [assumption|]. intros Hn. apply H2.
    destruct (has_nonempty_str v) eqn:Hs; [|reflexivity].
    exfalso. assert (existsb has_nonempty_str elems = true)
      by (apply existsb_exists; exists v; auto).
    congruence.
Qed.

Lemma getpaths_bad_leaf_fails struct :
  has_bad_leaf struct = true -> exists e, getpaths struct = Raise e.
Proof.
  pattern struct.
  apply pyval_task_ind with (Q := fun _ => True); auto;
    try (intros; simpl; eexists; reflexivity);
    try (intros; discriminate).
  - intros k items IH H. rewrite has_bad_leaf_dict in H.
    apply existsb_exists in H as ([key v] & Hin & Hb).
    rewrite Forall_forall in IH. destruct (IH _ Hin Hb) as (e & He).
    rewrite getpaths_dict.
    destruct (dict_takes_iterable k); [|now eexists].
    destruct (@mapM_Raise _ _ getpaths_item items (key, v) e Hin)
      as (e' & -> & _).
    { unfold getpaths_item. simpl in *. now rewrite He. }
    simpl. now eexists.
  - intros k elems IH H. rewrite has_bad_leaf_seq in H.
    apply existsb_exists in H as (v & Hin & Hb).
    rewrite Forall_forall in IH. destruct (IH _ Hin Hb) as (e & He).
    rewrite getpaths_seq.
    destruct (seq_takes_iterable k); [|now eexists].
    destruct (mapM_Raise getpaths elems v Hin He) as (e' & -> & _).
    simpl. now eexists.
  - intros k elems IH H. rewrite has_bad_leaf_iter in H.
    apply existsb_exists in H as (v & Hin & Hb).
    rewrite Forall_forall in IH. destruct (IH _ Hin Hb) as (e & He).
    rewrite getpaths_iter.
    destruct (mapM_Raise getpaths elems v Hin He) as (e' & -> & _).
    simpl. destruct (issubclass e' TypeError); now eexists.
Qed.




(** Outside these classes the error can be a [TypeError]: a namedtuple
    of two fields raises it from its constructor, whatever it holds. *)
Example getpaths_namedtuple_bad_leaf :
  getpaths (PSeq (KNamedTuple 0) [PInt 5; PInt 6]) = Raise TypeError.
Proof. reflexivity. Qed.

Lemma getpaths_preserves_shape_witness :
  let struct :=
    PDict KOrderedDict
      [(py "a", PSeq KTuple [PTask Example.task_a; PTask Example.task_b])] in
  task_struct struct = true
  /\ exists out, getpaths struct = Ok out /\ shape_preserved struct out.
Proof.
  intros struct. split; [reflexivity|].
  apply (proj1 (proj2 (proj2 (proj2 getpaths_preserves_shape))) struct).
  reflexivity.
Defined.

(** ** Flow *)

(** C9. The claim is that iterating a Flow yields its stored tasks in
    insertion order. [__iter__] reads the attribute [tasks], which no Flow
    has (the tasks are stored under [taskset]): iterating any Flow raises
    [AttributeError]. *)
Theorem Flow_iter_raises_AttributeError :
  forall self, Flow_iter self = Raise AttributeError.
Proof.
  intros self. reflexivity.
Qed.

(** *** Dictionaries *)

Lemma pystr_eqb_eq a b : pystr_eqb a b = true <-> a = b.
Proof.
  unfold pystr_eqb. destruct (pystr_eq_dec a b); split; congruence.
Qed.

Lemma pystr_eqb_refl a : pystr_eqb a a = true.
Proof. now apply pystr_eqb_eq. Qed.

Lemma pystr_eqb_neq a b : a <> b -> pystr_eqb a b = false.
Proof.
  intros H. destruct (pystr_eqb a b) eqn:E; [|reflexivity].
  apply pystr_eqb_eq in E. contradiction.
Qed.

Lemma dict_get_set {V} (d : pydict V) k v k' :
  dict_get (dict_set d k v) k'
  = if pystr_eqb k k' then Some v else dict_get d k'.
Proof.
  induction d as [|[k0 v0] r IH]; simpl.
  - reflexivity.
  - destruct (pystr_eqb k0 k) eqn:E0; simpl.
    + apply pystr_eqb_eq in E0. subst k0.
      destruct (pystr_eqb k k'); reflexivity.
    + destruct (pystr_eqb k0 k') eqn:E1.
      * apply pystr_eqb_eq in E1. subst k'.
        destruct (pystr_eqb k k0) eqn:E2; [|reflexivity].
        apply pystr_eqb_eq in E2. subst k0.
        rewrite pystr_eqb_refl in E0. discriminate.
      * apply IH.
Qed.

Lemma dict_get_set_other {V} (d : pydict V) k v k' :
  k <> k' -> dict_get (dict_set d k v) k' = dict_get d k'.
Proof.
  intros H. rewrite dict_get_set. now rewrite pystr_eqb_neq.
Qed.

Lemma dict_get_fold_set_absent {V} (pairs : list (pystr * V)) d k :
  ~ In k (map fst pairs) ->
  dict_get (fold_left (fun d kv => dict_set d (fst kv) (snd kv)) pairs d) k
  = dict_get d k.
Proof.
  revert d. induction pairs as [|[k0 v0] r IH]; simpl; intros d H.
  - reflexivity.
  - rewrite IH by tauto. apply dict_get_set_other. tauto.
Qed.

Lemma mapM_fst {A B} (f : A -> result (pystr * B)) (g : A -> pystr) l l' :
  (forall x y, f x = Ok y -> fst y = g x) ->
  mapM f l = Ok l' -> map fst l' = map g l.
Proof.
  intros Hf H. apply mapM_Ok_Forall2 in H.
  induction H as [|x y r r' Hxy _ IH]; simpl; [reflexivity|].
  now rewrite (Hf _ _ Hxy), IH.
Qed.

Lemma get_param_values_names cls params args kwargs pvs :
  get_param_values cls params args kwargs = Ok pvs ->
  map fst pvs = map fst params.
Proof.
  unfold get_param_values. intros H.
  destruct (fill_positional _ _ _); simpl in H; [|discriminate].
  destruct (fill_keywords _ _ _); simpl in H; [|discriminate].
  destruct (fill_defaults _ _ _); simpl in H; [|discriminate].
  eapply mapM_fst; [|exact H].
  intros x y Hxy. simpl in Hxy.
  destruct (dict_getitem _ _); simpl in Hxy; [|discriminate].
  now injection Hxy as <-.
Qed.

(** *** Tasks without a name *)

Lemma Task_init_name_absent py_hash cls args kwargs T :
  Task_init py_hash cls args kwargs = Ok T ->
  dict_get (cls_dict cls) (py "name") = None ->
  ~ In (py "name") (map fst (cls_params cls)) ->
  Task_getattr T (py "name") = Raise AttributeError.
Proof.
  unfold Task_init. intros H Hc Hp.
  destruct (get_param_values _ _ _ _) as [pvs|] eqn:Hpv; simpl in H;
    [|discriminate].
  destruct (to_str_params _ _ _ _) as [sp|]; simpl in H; [|discriminate].
  destruct (task_id_str _ _) as [tid|]; simpl in H; [|discriminate].
  injection H as <-.
  apply get_param_values_names in Hpv. unfold get_params in Hpv.
  unfold Task_getattr. cbn [t_dict t_class_dict].
  rewrite !dict_get_set_other by (intros E; vm_compute in E; discriminate).
  rewrite dict_get_fold_set_absent by (rewrite Hpv; exact Hp).
  cbn [dict_get]. rewrite Hc. reflexivity.
Qed.

(** *** The renaming loop *)

Lemma getUniqueName_loop_spec self fuel :
  forall incval newname,
    (N.of_nat fuel + incval = RENAME_LIMIT)%N ->
    let r := getUniqueName_loop self fuel incval newname in
    (r = newname
     /\ (taskset_mem (taskset self) newname = false
         \/ incval = RENAME_LIMIT))
    \/ (taskset_mem (taskset self) newname = true
        /\ exists k,
             (incval <= k < RENAME_LIMIT)%N
             /\ r = renamed self k
             /\ (forall j, (incval <= j < k)%N ->
                   taskset_mem (taskset self) (renamed self j) = true)
             /\ (taskset_mem (taskset self) (renamed self k) = false
                 \/ (k + 1)%N = RENAME_LIMIT)).
Proof.
  induction fuel as [|fuel IH]; intros incval newname Hf; cbn zeta.
  - simpl in Hf. subst incval. left. simpl.
    rewrite N.ltb_irrefl, andb_false_r. auto.
  - cbn [getUniqueName_loop].
    assert (Hlt : (incval <? RENAME_LIMIT)%N = true) by (apply N.ltb_lt; lia).
    rewrite Hlt, andb_true_r.
    destruct (taskset_mem (taskset self) newname) eqn:Hm; [|left; auto].
    right. split; [reflexivity|].
    fold (renamed self incval).
    specialize (IH (incval + 1)%N (renamed self incval)).
    cbn zeta in IH.
    destruct IH as [[Hr Hc] | [Hc (k & Hk & Hr & Hall & Hend)]]; [lia| |].
    + exists incval. split; [lia|]. split; [exact Hr|].
      split; [intros j Hj; lia|]. destruct Hc; auto.
    + exists k. split; [lia|]. split; [exact Hr|]. split; [|exact Hend].
      intros j Hj. destruct (N.eq_dec j incval) as [->|Hne]; [exact Hc|].
      apply Hall. lia.
Qed.

(** *** Names that can be keys *)

Lemma key_eqb_hashable a : forall b, key_eqb a b = true -> hashable b = true.
Proof.
  pattern a. apply pyval_task_ind with (Q := fun _ => True); auto;
    try solve [intros; destruct b; simpl in *; try discriminate; reflexivity];
    try solve [intros k elems _ b H;
               destruct k; destruct b as [ | | | | | | | |k' l'];
               simpl in H; try discriminate;
               destruct k'; simpl in H; try discriminate; reflexivity].
  intros k elems IH b H.
  destruct b as [ | | | | | | |k' l'| ]; try discriminate.
  simpl in H. apply andb_true_iff in H as [H H2].
  apply andb_true_iff in H as [_ Hk].
  simpl. rewrite Hk. simpl.
  revert l' H2.
  induction IH as [|x r Hx _ IHr]; intros [|y r'] H2; try discriminate;
    [reflexivity|].
  apply andb_true_iff in H2 as [Hxy Hr]. rewrite (Hx _ Hxy). simpl.
  now apply IHr.
Qed.

Lemma taskset_mem_hashable d n :
  taskset_mem d n = true -> hashable n = true.
Proof.
  unfold taskset_mem. induction d as [|[k v] r IH]; simpl; [discriminate|].
  destruct (key_eqb k n) eqn:E; [|exact IH].
  intros _. exact (key_eqb_hashable _ _ E).
Qed.

Lemma store_set_same st o t : store_set st o t o = t.
Proof. unfold store_set. now rewrite Nat.eqb_refl. Qed.

Lemma store_set_other st o t o' : o' <> o -> store_set st o t o' = st o'.
Proof.
  intros H. unfold store_set.
  destruct (Nat.eqb o' o) eqn:E; [|reflexivity].
  apply Nat.eqb_eq in E. contradiction.
Qed.


(** ** Completeness *)

Lemma bindW_log_in {A B} (c : W A) (k : A -> W B) w :
  In w (snd (bindW c k)) ->
  In w (snd c) \/ exists a, fst c = Ok a /\ In w (snd (k a)).
Proof.
  destruct c as [[a|e] log]; simpl; [|auto].
  destruct (k a) as [r log'] eqn:Hk. simpl. rewrite in_app_iff.
  intros [H|H]; [auto|]. right. exists a. rewrite Hk. auto.
Qed.

Lemma all_of_fst_true {A} (f : A -> W bool) l :
  fst (all_of f l) = Ok true <-> Forall (fun x => fst (f x) = Ok true) l.
Proof.
  induction l as [|x r IH]; simpl.
  - split; [constructor|reflexivity].
  - destruct (f x) as [[[|]|e] log] eqn:Hx; simpl.
    + destruct (all_of f r) as [res log'] eqn:Hr. simpl in *.
      rewrite IH. split.
      * intros H. constructor; [now rewrite Hx|exact H].
      * intros H. now inversion H.
    + split; [discriminate|]. intros H. inversion H as [|? ? H1 _].
      rewrite Hx in H1. discriminate.
    + split; [discriminate|]. intros H. inversion H as [|? ? H1 _].
      rewrite Hx in H1. discriminate.
Qed.

Lemma all_of_log_in {A} (f : A -> W bool) l w :
  In w (snd (all_of f l)) -> exists x, In x l /\ In w (snd (f x)).
Proof.
  induction l as [|x r IH]; simpl; [tauto|].
  intros H. apply bindW_log_in in H as [H | (b & _ & H)].
  - exists x. auto.
  - destruct b; simpl in H; [|tauto].
    destruct (IH H) as (y & Hy & Hw). exists y. auto.
Qed.

Lemma all_of_app {A} (f : A -> W bool) l1 l2 :
  all_of f (l1 ++ l2)
  = (b <~ all_of f l1 ;; if b then all_of f l2 else retW false).
Proof.
  induction l1 as [|x r IH]; simpl.
  - destruct (all_of f l2) as [res log]. reflexivity.
  - rewrite IH. destruct (f x) as [[[|]|e] log]; simpl;
      [|now rewrite !app_nil_r|reflexivity].
    destruct (all_of f r) as [[[|]|e] log1]; simpl;
      [|now rewrite !app_nil_r|reflexivity].
    destruct (all_of f l2) as [res log2]. now rewrite app_assoc.
Qed.

Lemma call_exists_log output : snd (call_exists output) = [].
Proof. destruct output; reflexivity. Qed.

Lemma all_of_call_exists_log outputs :
  snd (all_of call_exists outputs) = [].
Proof.
  destruct (snd (all_of call_exists outputs)) as [|w l] eqn:E;
    [reflexivity|].
  assert (H : In w (snd (all_of call_exists outputs)))
    by (rewrite E; left; reflexivity).
  apply all_of_log_in in H as (x & _ & Hx).
  rewrite call_exists_log in Hx. destruct Hx.
Qed.

Lemma all_of_call_exists_targets outputs :
  forallb is_target outputs = true ->
  all_of call_exists outputs = (Ok (forallb output_exists outputs), []).
Proof.
  induction outputs as [|o r IH]; simpl; [reflexivity|].
  intros H. apply andb_true_iff in H as [Ho Hr].
  destruct o; try discriminate. simpl.
  destruct (target_exists tg); simpl; [|reflexivity].
  now rewrite (IH Hr).
Qed.

Lemma complete_default self :
  t_complete self = DefaultComplete -> complete self = Task_complete self.
Proof.
  destruct self. simpl. now intros ->.
Qed.

(** C5. For a task whose [complete()] is not overridden: with no output,
    [complete()] records exactly one warning and returns [False];
    otherwise it records none and returns [True] exactly when [exists()]
    is true of every output in [flatten(output())], the answer being the
    conjunction of the [exists()] of the outputs when all are targets. *)
Theorem Task_complete_spec :
  forall self,
    t_complete self = DefaultComplete ->
    (flatten (t_output self) = [] ->
       complete self = (Ok false, [NoOutputsWarning self]))
    /\ (flatten (t_output self) <> [] ->
          snd (complete self) = []
          /\ (fst (complete self) = Ok true <->
              Forall (fun o => fst (call_exists o) = Ok true)
                     (flatten (t_output self)))
          /\ (forallb is_target (flatten (t_output self)) = true ->
                complete self
                = (Ok (forallb output_exists (flatten (t_output self))),
                   []))).
Proof.
  intros self Hd. rewrite (complete_default _ Hd). unfold Task_complete.
  split.
  - intros ->. reflexivity.
  - intros Hne.
    destruct (flatten (t_output self)) as [|o r] eqn:Hf; [congruence|].
    cbn [List.length Nat.eqb].
    split; [apply all_of_call_exists_log|].
    split; [apply all_of_fst_true|apply all_of_call_exists_targets].
Qed.

Lemma all_complete_dict_cons k key v r :
  all_complete (PDict k ((key, v) :: r))
  = (b <~ all_complete v ;;
     if b then all_complete (PDict k r) else retW false).
Proof. reflexivity. Qed.

Lemma all_complete_seq_cons k v r :
  all_complete (PSeq k (v :: r))
  = (b <~ all_complete v ;;
     if b then all_complete (PSeq k r) else retW false).
Proof. reflexivity. Qed.

Lemma all_complete_iter_cons k v r :
  all_complete (PIter k (v :: r))
  = (b <~ all_complete v ;;
     if b then all_complete (PIter k r) else retW false).
Proof. reflexivity. Qed.

(** The walk of [complete] over the requirements of a wrapper is
    [all(r.complete() for r in flatten(requires))]. *)
Lemma all_complete_flatten struct :
  all_complete struct = all_of call_complete (flatten struct).
Proof.
  pattern struct.
  apply pyval_task_ind with (Q := fun _ => True); auto;
    try (intros; reflexivity).
  - intros k items IH. rewrite flatten_dict.
    induction IH as [|[key v] r Hv _ IHr]; [reflexivity|].
    rewrite all_complete_dict_cons. cbn [flat_map snd] in *.
    rewrite all_of_app, <- Hv, <- IHr. reflexivity.
  - intros k elems IH. rewrite flatten_seq.
    induction IH as [|v r Hv _ IHr]; [reflexivity|].
    rewrite all_complete_seq_cons. cbn [flat_map].
    rewrite all_of_app, <- Hv, <- IHr. reflexivity.
  - intros k elems IH. rewrite flatten_iter.
    induction IH as [|v r Hv _ IHr]; [reflexivity|].
    rewrite all_complete_iter_cons. cbn [flat_map].
    rewrite all_of_app, <- Hv, <- IHr. reflexivity.
Qed.

Lemma WrapperTask_complete_eq self :
  t_complete self = WrapperComplete ->
  complete self = WrapperTask_complete self.
Proof.
  destruct self. simpl. intros ->.
  unfold WrapperTask_complete. simpl. apply all_complete_flatten.
Qed.

(** A no-output warning always names a task that uses [Task.complete]. *)
Lemma complete_warnings_default :
  forall t t', In (NoOutputsWarning t') (snd (complete t)) ->
               t_complete t' = DefaultComplete.
Proof.
  intros t.
  pattern t.
  apply task_pyval_ind with
    (P := fun v => forall t', In (NoOutputsWarning t')
                                 (snd (all_complete v)) ->
                              t_complete t' = DefaultComplete);
    try (intros; simpl in *; tauto).
  - intros t0 IH t' H. simpl in H.
    apply bindW_log_in in H as [H | (b & _ & H)]; [auto|].
    destruct b; simpl in H; tauto.
  - intros k items IH t' H.
    induction IH as [|[key v] r Hv _ IHr]; [simpl in H; tauto|].
    rewrite all_complete_dict_cons in H.
    apply bindW_log_in in H as [H | (b & _ & H)]; [auto|].
    destruct b; [auto|simpl in H; tauto].
  - intros k elems IH t' H.
    induction IH as [|v r Hv _ IHr]; [simpl in H; tauto|].
    rewrite all_complete_seq_cons in H.
    apply bindW_log_in in H as [H | (b & _ & H)]; [auto|].
    destruct b; [auto|simpl in H; tauto].
  - intros k elems IH t' H.
    induction IH as [|v r Hv _ IHr]; [simpl in H; tauto|].
    rewrite all_complete_iter_cons in H.
    apply bindW_log_in in H as [H | (b & _ & H)]; [auto|].
    destruct b; [auto|simpl in H; tauto].
  - intros c i h kw d cd impl o r _ IHr t' H.
    destruct impl.
    + change (In (NoOutputsWarning t')
                (snd (Task_complete (MkTask c i h kw d cd DefaultComplete o r))))
        in H.
      unfold Task_complete in H.
      destruct (List.length _ =? 0)%nat.
      * simpl in H. destruct H as [H|[]]. now injection H as <-.
      * rewrite all_of_call_exists_log in H. destruct H.
    + apply IHr. exact H.
    + simpl in H. tauto.
Qed.

(** C6. For a wrapper task, [complete()] is
    [all(r.complete() for r in flatten(self.requires()))]: it returns
    [True] exactly when [complete()] returns [True] for every flattened
    requirement; every warning it records was recorded by the
    [complete()] of a requirement, none names the wrapper itself; and
    with no requirement it returns [True] and records nothing. *)
Theorem WrapperTask_complete_spec :
  forall self,
    t_complete self = WrapperComplete ->
    complete self = WrapperTask_complete self
    /\ (fst (complete self) = Ok true <->
        Forall (fun r => fst (call_complete r) = Ok true)
               (flatten (t_requires self)))
    /\ (forall w, In w (snd (complete self)) ->
          exists r, In r (flatten (t_requires self))
                    /\ In w (snd (call_complete r)))
    /\ ~ In (NoOutputsWarning self) (snd (complete self))
    /\ (flatten (t_requires self) = [] -> complete self = (Ok true, [])).
Proof.
  intros self Hw. pose proof (WrapperTask_complete_eq _ Hw) as Heq.
  split; [exact Heq|].
  split; [rewrite Heq; apply all_of_fst_true|].
  split; [rewrite Heq; intros w; apply all_of_log_in|].
  split.
  - intros H. apply complete_warnings_default in H. congruence.
  - rewrite Heq. unfold WrapperTask_complete. now intros ->.
Qed.

(** ** Bulk completeness *)

Lemma naive_loop_cons py_hash cls pt rest gen :
  naive_loop py_hash cls (pt :: rest) gen
  = (t <~ liftW (instance_of py_hash cls pt) ;;
     b <~ complete t ;;
     naive_loop py_hash cls rest (if b then gen ++ [pt] else gen)).
Proof. reflexivity. Qed.

Lemma naive_loop_Ok py_hash cls pts :
  forall gen out log,
    naive_loop py_hash cls pts gen = (Ok out, log) ->
    out = gen ++ filter (tuple_complete py_hash cls) pts.
Proof.
  induction pts as [|pt rest IH]; intros gen out log H.
  - simpl in H. injection H as <- _. now rewrite app_nil_r.
  - rewrite naive_loop_cons in H. unfold tuple_complete at 1. cbn [filter].
    destruct (instance_of py_hash cls pt) as [t|e]; [|discriminate].
    unfold liftW, bindW in H.
    destruct (complete t) as [[b|e] logc]; [|discriminate].
    destruct (naive_loop py_hash cls rest (if b then gen ++ [pt] else gen))
      as [res log'] eqn:Hl.
    cbn [fst]. injection H as -> _.
    apply IH in Hl. subst out.
    destruct b; [now rewrite <- app_assoc|reflexivity].
Qed.

Lemma naive_loop_total py_hash cls pts :
  Forall (tuple_checkable py_hash cls) pts ->
  forall gen, exists log,
    naive_loop py_hash cls pts gen
    = (Ok (gen ++ filter (tuple_complete py_hash cls) pts), log).
Proof.
  induction 1 as [|pt rest (t & b & Ht & Hb) _ IH]; intros gen.
  - exists []. simpl. now rewrite app_nil_r.
  - rewrite naive_loop_cons. unfold tuple_complete at 1. cbn [filter].
    rewrite Ht. unfold liftW, bindW.
    destruct (complete t) as [res logc]. simpl in Hb. subst res.
    destruct (IH (if b then gen ++ [pt] else gen)) as (log' & ->).
    eexists. cbn [fst]. f_equal. f_equal.
    destruct b; [now rewrite <- app_assoc|reflexivity].
Qed.

(** C7. The [bulk_complete] of a class that does not override it raises
    [BulkCompleteNotImplementedError], on every argument; that error is a
    proper subclass of [NotImplementedError].  The [bulk_complete] of the
    naive mixin, when it returns, returns exactly the tuples whose
    instance has [complete()] returning [True] (here in the order of the
    argument), and it does return when every tuple gives an instance
    whose [complete()] returns. *)
Theorem bulk_complete_spec :
  (forall py_hash cls parameter_tuples,
     cls_bulk cls = BulkDefault ->
     bulk_complete py_hash cls parameter_tuples
     = (Raise BulkCompleteNotImplementedError, []))
  /\ issubclass BulkCompleteNotImplementedError NotImplementedError = true
  /\ issubclass NotImplementedError BulkCompleteNotImplementedError = false
  /\ (forall py_hash cls parameter_tuples,
        cls_bulk cls = BulkNaive ->
        (forall out log,
           bulk_complete py_hash cls parameter_tuples = (Ok out, log) ->
           out = filter (tuple_complete py_hash cls) parameter_tuples
           /\ forall pt, In pt out <->
                In pt parameter_tuples
                /\ tuple_complete py_hash cls pt = true)
        /\ (Forall (tuple_checkable py_hash cls) parameter_tuples ->
            exists log,
              bulk_complete py_hash cls parameter_tuples
              = (Ok (filter (tuple_complete py_hash cls) parameter_tuples),
                 log))).
Proof.
  split.
  { intros py_hash cls pts H. unfold bulk_complete. now rewrite H. }
  split; [reflexivity|]. split; [reflexivity|].
  intros py_hash cls pts H. unfold bulk_complete. rewrite H.
  unfold MixinNaiveBulkComplete_bulk_complete. split.
  - intros out log Hl. apply naive_loop_Ok in Hl. simpl in Hl. subst out.
    split; [reflexivity|]. intros pt. apply filter_In.
  - intros HF. exact (naive_loop_total HF []).
Qed.

(** ** Identity of task instances *)

Lemma dict_set_keys {V V'} (d1 : pydict V) (d2 : pydict V') k v1 v2 :
  map fst d1 = map fst d2 ->
  map fst (dict_set d1 k v1) = map fst (dict_set d2 k v2).
Proof.
  revert d2. induction d1 as [|[k1 x1] r1 IH]; intros [|[k2 x2] r2] H;
    simpl in *; try discriminate; [reflexivity|].
  injection H as -> Hr.
  destruct (pystr_eqb k2 k); simpl; f_equal; auto.
Qed.

Lemma dict_of_pairs_keys {V V'} (l1 : list (pystr * V))
    (l2 : list (pystr * V')) :
  map fst l1 = map fst l2 ->
  map fst (dict_of_pairs l1) = map fst (dict_of_pairs l2).
Proof.
  unfold dict_of_pairs.
  assert (G : forall d1 d2, map fst d1 = map fst d2 -> map fst l1 = map fst l2 ->
            map fst (fold_left (fun d kv => dict_set d (fst kv) (snd kv)) l1 d1)
            = map fst (fold_left (fun d kv => dict_set d (fst kv) (snd kv)) l2 d2)).
  { revert l2. induction l1 as [|[k1 x1] r1 IH]; intros [|[k2 x2] r2] d1 d2 Hd H;
      simpl in *; try discriminate; [assumption|].
    injection H as -> Hr. apply IH; [|assumption]. now apply dict_set_keys. }
  intros H. now apply G.
Qed.

Lemma dict_get_None_iff {V} (d : pydict V) k :
  dict_get d k = None <-> ~ In k (map fst d).
Proof.
  induction d as [|[k0 v0] r IH]; simpl; [tauto|].
  destruct (pystr_eqb k0 k) eqn:E.
  - apply pystr_eqb_eq in E. split; [discriminate|]. tauto.
  - rewrite IH. split; [|tauto]. intros H [->|Hin]; [|tauto].
    rewrite pystr_eqb_refl in E. discriminate.
Qed.

Lemma dict_set_NoDup {V} (d : pydict V) k v :
  NoDup (map fst d) -> NoDup (map fst (dict_set d k v)).
Proof.
  induction d as [|[k0 v0] r IH]; simpl; intros H.
  - constructor; [tauto|constructor].
  - inversion H as [|? ? Hnin Hr]; subst.
    destruct (pystr_eqb k0 k) eqn:E; simpl.
    + apply pystr_eqb_eq in E. subst. now constructor.
    + constructor; [|auto]. intros Hin. apply Hnin.
      apply dict_get_None_iff in Hnin.
      destruct (dict_get (dict_set r k v) k0) eqn:G.
      * rewrite dict_get_set in G.
        destruct (pystr_eqb k k0) eqn:E'; [|congruence].
        apply pystr_eqb_eq in E'. subst.
        rewrite pystr_eqb_refl in E. discriminate.
      * apply dict_get_None_iff in G. contradiction.
Qed.

Lemma dict_of_pairs_NoDup {V} (l : list (pystr * V)) :
  NoDup (map fst (dict_of_pairs l)).
Proof.
  unfold dict_of_pairs.
  assert (G : forall d : pydict V, NoDup (map fst d) ->
            NoDup (map fst (fold_left
                     (fun d kv => dict_set d (fst kv) (snd kv)) l d))).
  { induction l as [|[k v] r IH]; intros d Hd; simpl; [assumption|].
    apply IH. now apply dict_set_NoDup. }
  apply G. constructor.
Qed.

Lemma to_str_params_loop_agree params items1 :
  forall items2 acc,
    Forall2 (fun kv1 kv2 =>
               fst kv1 = fst kv2
               /\ forall p, dict_get params (fst kv1) = Some p ->
                    significant p = true -> visibility p = PUBLIC ->
                    snd kv1 = snd kv2) items1 items2 ->
    to_str_params_loop params true true items1 acc
    = to_str_params_loop params true true items2 acc.
Proof.
  induction items1 as [|[k1 v1] r1 IH]; intros items2 acc H;
    inversion H as [|? [k2 v2] ? r2 [Hk Hv] Hr]; subst; [reflexivity|].
  simpl in Hk, Hv. subst k2. simpl. unfold dict_getitem.
  destruct (dict_get params k1) as [p|]; [|reflexivity]. simpl.
  destruct (significant p) eqn:Hs; simpl; [|now apply IH].
  destruct (visibility p) eqn:Hvis; simpl; try now apply IH.
  rewrite (Hv p eq_refl Hs Hvis). now apply IH.
Qed.

Lemma same_values_pointwise (params : pydict ParameterT)
    (kw1 kw2 : pydict pyval) :
  NoDup (map fst kw1) ->
  map fst kw1 = map fst kw2 ->
  (forall k p, dict_get params k = Some p ->
     significant p = true -> visibility p = PUBLIC ->
     dict_get kw1 k = dict_get kw2 k) ->
  Forall2 (fun kv1 kv2 =>
             fst kv1 = fst kv2
             /\ forall p, dict_get params (fst kv1) = Some p ->
                  significant p = true -> visibility p = PUBLIC ->
                  snd kv1 = snd kv2) kw1 kw2.
Proof.
  revert kw2. induction kw1 as [|[k1 v1] r1 IH]; intros [|[k2 v2] r2] Hnd Hk Hv;
    simpl in *; try discriminate; [constructor|].
  injection Hk as -> Hr. inversion Hnd as [|? ? Hnin Hnd']; subst.
  constructor.
  - simpl. split; [reflexivity|]. intros p Hp Hs Hvis.
    specialize (Hv k2 p Hp Hs Hvis). rewrite pystr_eqb_refl in Hv.
    congruence.
  - apply IH; [assumption..|]. intros k p Hp Hs Hvis.
    specialize (Hv k p Hp Hs Hvis).
    destruct (pystr_eqb k2 k) eqn:E; [|exact Hv].
    apply pystr_eqb_eq in E. subst k.
    assert (G1 : dict_get r1 k2 = None) by now apply dict_get_None_iff.
    assert (G2 : dict_get r2 k2 = None)
      by (apply dict_get_None_iff; now rewrite <- Hr).
    congruence.
Qed.

Lemma Task_init_inv py_hash cls args kwargs T :
  Task_init py_hash cls args kwargs = Ok T ->
  exists pvs sp,
    get_param_values cls (get_params cls) args kwargs = Ok pvs
    /\ to_str_params cls (dict_of_pairs pvs) true true = Ok sp
    /\ task_id_str (get_task_family cls) sp = Ok (t_task_id T)
    /\ t_param_kwargs T = dict_of_pairs pvs
    /\ t_hash T = py_hash (t_task_id T)
    /\ t_class T = cls_id cls
    /\ t_complete T = cls_complete cls
    /\ t_output T = cls_output cls (dict_of_pairs pvs)
    /\ t_requires T = cls_requires cls (dict_of_pairs pvs).
Proof.
  unfold Task_init. intros H.
  destruct (get_param_values _ _ _ _) as [pvs|] eqn:Hpv; simpl in H;
    [|discriminate].
  destruct (to_str_params _ _ _ _) as [sp|] eqn:Hsp; simpl in H;
    [|discriminate].
  destruct (task_id_str _ _) as [tid|] eqn:Hid; simpl in H; [|discriminate].
  injection H as <-. exists pvs, sp. simpl. repeat split; auto.
Qed.

Lemma Task_eq_iff T1 T2 :
  Task_eq T1 T2 = true <->
  t_class T1 = t_class T2 /\ t_task_id T1 = t_task_id T2.
Proof.
  unfold Task_eq. rewrite andb_true_iff, Pos.eqb_eq, pystr_eqb_eq. tauto.
Qed.

(** C2. [T1 == T2] holds exactly when the two instances have the same
    class and equal [task_id]; the hash of a constructed instance is the
    hash of its [task_id]; and two instances of one class constructed with
    identical values of the significant public parameters have the same
    [task_id] and are equal. *)
Theorem Task_eq_hash_spec :
  (forall T1 T2,
     Task_eq T1 T2 = true <->
     t_class T1 = t_class T2 /\ t_task_id T1 = t_task_id T2)
  /\ (forall py_hash cls args kwargs T,
        Task_init py_hash cls args kwargs = Ok T ->
        Task_hash T = py_hash (t_task_id T))
  /\ (forall py_hash cls args1 kwargs1 args2 kwargs2 T1 T2,
        Task_init py_hash cls args1 kwargs1 = Ok T1 ->
        Task_init py_hash cls args2 kwargs2 = Ok T2 ->
        same_significant_public cls (t_param_kwargs T1) (t_param_kwargs T2) ->
        t_task_id T1 = t_task_id T2 /\ Task_eq T1 T2 = true).
Proof.
  split; [exact Task_eq_iff|]. split.
  - intros py_hash cls args kwargs T H.
    apply Task_init_inv in H as (pvs & sp & _ & _ & _ & _ & Hh & _).
    exact Hh.
  - intros py_hash cls args1 kwargs1 args2 kwargs2 T1 T2 H1 H2 Hsame.
    apply Task_init_inv in H1
      as (pvs1 & sp1 & Hpv1 & Hsp1 & Hid1 & Hkw1 & _ & Hc1 & _).
    apply Task_init_inv in H2
      as (pvs2 & sp2 & Hpv2 & Hsp2 & Hid2 & Hkw2 & _ & Hc2 & _).
    rewrite Hkw1, Hkw2 in Hsame.
    apply get_param_values_names in Hpv1, Hpv2.
    assert (Hsp : sp1 = sp2).
    { unfold to_str_params in Hsp1, Hsp2.
      rewrite (@to_str_params_loop_agree _ (dict_of_pairs pvs1)
                 (dict_of_pairs pvs2) []) in Hsp1; [congruence|].
      apply same_values_pointwise.
      - apply dict_of_pairs_NoDup.
      - apply dict_of_pairs_keys. congruence.
      - exact Hsame. }
    subst sp2.
    assert (Hid : t_task_id T1 = t_task_id T2) by congruence.
    split; [exact Hid|]. apply Task_eq_iff. split; congruence.
Qed.

(** ** Task identity *)

(** *** The order on strings *)

Lemma pystr_ltb_irrefl a : pystr_ltb a a = false.
Proof.
  induction a as [|x a IH]; simpl; [reflexivity|].
  now rewrite N.ltb_irrefl.
Qed.

Lemma pystr_ltb_trans a :
  forall b c, pystr_ltb a b = true -> pystr_ltb b c = true ->
              pystr_ltb a c = true.
Proof.
  induction a as [|x a IH]; intros [|y b] [|z c]; simpl; try congruence.
  destruct (N.ltb_spec x y), (N.ltb_spec y x), (N.ltb_spec y z),
    (N.ltb_spec z y), (N.ltb_spec x z), (N.ltb_spec z x);
    try congruence; try lia.
  apply IH.
Qed.

Lemma pystr_ltb_total a :
  forall b, pystr_ltb a b = false -> pystr_ltb b a = false -> a = b.
Proof.
  induction a as [|x a IH]; intros [|y b]; simpl; try congruence.
  destruct (N.ltb_spec x y), (N.ltb_spec y x); try congruence; try lia.
  intros H1 H2. f_equal; [lia|]. now apply IH.
Qed.

Lemma pystr_ltb_asym a b : pystr_ltb a b = true -> pystr_ltb b a = false.
Proof.
  intros H. destruct (pystr_ltb b a) eqn:E; [|reflexivity].
  rewrite <- (pystr_ltb_irrefl a). symmetry.
  exact (pystr_ltb_trans _ _ _ H E).
Qed.

(** *** [sorted] *)

Section SortedFacts.
Variable A : Type.
Variable key : A -> pystr.

Lemma key_le_trans x y z :
  key_le key x y -> key_le key y z -> key_le key x z.
Proof.
  unfold key_le. intros Hxy Hyz.
  destruct (pystr_ltb (key z) (key x)) eqn:Hzx; [|reflexivity].
  destruct (pystr_ltb (key y) (key z)) eqn:Hyz'.
  - rewrite (pystr_ltb_trans _ _ _ Hyz' Hzx) in Hxy. discriminate.
  - rewrite (pystr_ltb_total _ _ Hyz' Hyz) in Hxy. congruence.
Qed.

Lemma insert_sorted_perm x l : Permutation (x :: l) (insert_sorted key x l).
Proof.
  induction l as [|y r IH]; simpl; [reflexivity|].
  destruct (pystr_ltb (key y) (key x)); [|reflexivity].
  rewrite perm_swap. now constructor.
Qed.

Lemma sorted_by_perm l : Permutation l (sorted_by key l).
Proof.
  induction l as [|x r IH]; simpl; [constructor|].
  rewrite <- insert_sorted_perm. now constructor.
Qed.

Lemma insert_sorted_sorted x l :
  StronglySorted (key_le key) l -> StronglySorted (key_le key) (insert_sorted key x l).
Proof.
  induction 1 as [|y r Hs IH Hy]; simpl.
  - repeat constructor.
  - destruct (pystr_ltb (key y) (key x)) eqn:E.
    + constructor; [exact IH|].
      apply (Permutation_Forall (insert_sorted_perm x r)).
      constructor; [|exact Hy]. now apply pystr_ltb_asym.
    + constructor; [now constructor|].
      constructor; [exact E|].
      eapply Forall_impl; [|exact Hy].
      intros z Hz. eapply key_le_trans; [exact E|exact Hz].
Qed.

Lemma sorted_by_sorted l : StronglySorted (key_le key) (sorted_by key l).
Proof.
  induction l as [|x r IH]; simpl; [constructor|].
  now apply insert_sorted_sorted.
Qed.

Lemma NoDup_key_inj l x y :
  NoDup (map key l) -> In x l -> In y l -> key x = key y -> x = y.
Proof.
  induction l as [|a r IH]; simpl; [tauto|].
  intros Hnd Hx Hy Hk. inversion Hnd as [|? ? Hnin Hr]; subst.
  destruct Hx as [->|Hx], Hy as [->|Hy]; auto.
  - exfalso. apply Hnin. rewrite Hk. now apply in_map.
  - exfalso. apply Hnin. rewrite <- Hk. now apply in_map.
Qed.

Lemma sorted_unique l1 :
  forall l2,
    NoDup (map key l1) ->
    StronglySorted (key_le key) l1 -> StronglySorted (key_le key) l2 ->
    Permutation l1 l2 -> l1 = l2.
Proof.
  induction l1 as [|a r1 IH]; intros l2 Hnd H1 H2 Hp.
  - apply Permutation_nil in Hp. now subst.
  - destruct l2 as [|b r2];
      [apply Permutation_sym, Permutation_nil in Hp; discriminate|].
    assert (Hab : a = b).
    { assert (Ha : In a (b :: r2))
        by (apply (Permutation_in _ Hp); now left).
      assert (Hb : In b (a :: r1))
        by (apply (Permutation_in _ (Permutation_sym Hp)); now left).
      destruct Ha as [Ha|Ha]; [congruence|].
      destruct Hb as [Hb|Hb]; [congruence|].
      apply StronglySorted_inv in H1 as [_ F1].
      apply StronglySorted_inv in H2 as [_ F2].
      rewrite Forall_forall in F1, F2.
      pose proof (F1 _ Hb) as Hle1. pose proof (F2 _ Ha) as Hle2.
      apply (@NoDup_key_inj (a :: r1)); auto; [now left|now right|].
      now apply pystr_ltb_total. }
    subst b. f_equal.
    apply StronglySorted_inv in H1 as [S1 _].
    apply StronglySorted_inv in H2 as [S2 _].
    apply IH; auto.
    + simpl in Hnd. now inversion Hnd.
    + eapply Permutation_cons_inv. exact Hp.
Qed.

Lemma sorted_by_permutation l l' :
  NoDup (map key l) -> Permutation l l' -> sorted_by key l = sorted_by key l'.
Proof.
  intros Hnd Hp. apply sorted_unique.
  - eapply Permutation_NoDup; [|exact Hnd].
    apply Permutation_map, sorted_by_perm.
  - apply sorted_by_sorted.
  - apply sorted_by_sorted.
  - rewrite <- !sorted_by_perm. exact Hp.
Qed.

Lemma insert_sorted_map x l :
  insert_sorted (fun k => k) (key x) (map key l)
  = map key (insert_sorted key x l).
Proof.
  induction l as [|y r IH]; simpl; [reflexivity|].
  destruct (pystr_ltb (key y) (key x)); simpl; [now rewrite IH|reflexivity].
Qed.

Lemma sorted_by_map l :
  sorted_by (fun k => k) (map key l) = map key (sorted_by key l).
Proof.
  induction l as [|x r IH]; simpl; [reflexivity|].
  now rewrite IH, insert_sorted_map.
Qed.

End SortedFacts.

(** *** The encoding is ASCII *)

Lemma is_ascii_app a b : is_ascii (a ++ b) = is_ascii a && is_ascii b.
Proof. apply forallb_app. Qed.

Lemma hex_digit_ascii n : (n < 16)%N -> (hex_digit n <? 128)%N = true.
Proof.
  intros H. unfold hex_digit. apply N.ltb_lt.
  destruct (N.ltb_spec n 10); lia.
Qed.

Lemma hex4_ascii n : is_ascii (hex4 n) = true.
Proof.
  unfold hex4, is_ascii. cbn [forallb].
  rewrite !hex_digit_ascii; [reflexivity|..]; now apply N.mod_lt.
Qed.

Lemma escape_char_ascii c : is_ascii (Json.escape_char c) = true.
Proof.
  unfold Json.escape_char.
  repeat match goal with
         | |- context [if ?b then _ else _] =>
             let E := fresh "E" in destruct b eqn:E; try reflexivity
         end.
  - apply andb_true_iff in E6 as [_ E6]. apply N.leb_le in E6.
    unfold is_ascii. cbn [forallb]. rewrite andb_true_r. apply N.ltb_lt. lia.
  - rewrite is_ascii_app, hex4_ascii. reflexivity.
  - rewrite !is_ascii_app, !hex4_ascii. reflexivity.
Qed.

Lemma encode_str_ascii s : is_ascii (Json.encode_str s) = true.
Proof.
  unfold Json.encode_str. rewrite !is_ascii_app.
  replace (is_ascii (flat_map Json.escape_char s)) with true; [reflexivity|].
  symmetry. induction s as [|c r IH]; simpl; [reflexivity|].
  now rewrite is_ascii_app, escape_char_ascii, IH.
Qed.

Lemma join_ascii sep parts :
  is_ascii sep = true -> forallb is_ascii parts = true ->
  is_ascii (join sep parts) = true.
Proof.
  intros Hs. induction parts as [|p r IH]; [reflexivity|].
  intros H. cbn [forallb] in H. apply andb_true_iff in H as [Hp Hr].
  destruct r as [|q r']; [exact Hp|].
  change (join sep (p :: q :: r')) with (p ++ sep ++ join sep (q :: r')).
  now rewrite !is_ascii_app, Hp, Hs, (IH Hr).
Qed.

Lemma canonical_json_ascii params : is_ascii (canonical_json params) = true.
Proof.
  unfold canonical_json. rewrite !is_ascii_app.
  rewrite join_ascii; [reflexivity|reflexivity|].
  induction (items_by_key params) as [|kv r IH]; [reflexivity|].
  cbn [map forallb]. now rewrite !is_ascii_app, !encode_str_ascii, IH.
Qed.

Lemma encode_utf8_ascii s : is_ascii s = true -> encode_utf8 s = Ok s.
Proof.
  induction s as [|c r IH]; [reflexivity|].
  intros H. cbn [is_ascii forallb] in H. apply andb_true_iff in H as [Hc Hr].
  cbn [encode_utf8]. unfold utf8_char.
  change (c <? 128)%N with (c <? 0x80)%N in Hc. rewrite Hc.
  cbn [bind]. rewrite (IH Hr). reflexivity.
Qed.

(** *** [json.dumps] and the lookups *)

Lemma dumps_canonical params :
  Json.dumps params (py ",") (py ":") true = canonical_json params.
Proof.
  destruct params as [|kv r]; reflexivity.
Qed.

Lemma dict_get_In {V} (d : pydict V) k v :
  NoDup (map fst d) -> In (k, v) d -> dict_get d k = Some v.
Proof.
  induction d as [|[k0 v0] r IH]; simpl; [tauto|].
  intros Hnd [H|H]; inversion Hnd as [|? ? Hnin Hr]; subst.
  - injection H as -> ->. now rewrite pystr_eqb_refl.
  - destruct (pystr_eqb k0 k) eqn:E; [|auto].
    apply pystr_eqb_eq in E. subst k0. exfalso. apply Hnin.
    change k with (fst (k, v)). now apply in_map.
Qed.

Lemma lookup_items {V} (d : pydict V) items :
  NoDup (map fst d) -> incl items d ->
  mapM (dict_getitem d) (map fst items) = Ok (map snd items).
Proof.
  intros Hnd. induction items as [|[k v] r IH]; intros Hi; [reflexivity|].
  cbn [map mapM fst snd]. unfold dict_getitem at 1.
  rewrite (@dict_get_In _ d k v Hnd) by (apply Hi; now left).
  cbn [bind]. rewrite IH; [reflexivity|].
  intros x Hx. apply Hi. now right.
Qed.

Lemma In_firstn {A} (x : A) n l : In x (firstn n l) -> In x l.
Proof.
  revert l. induction n as [|n IH]; intros [|y r]; simpl; try tauto.
  intros [H|H]; auto.
Qed.

Lemma lookup_sorted_keys (params : pydict pystr) :
  NoDup (dict_keys params) ->
  mapM (dict_getitem params)
       (firstn TASK_ID_INCLUDE_PARAMS (sorted_keys params))
  = Ok (map snd (firstn 3 (items_by_key params))).
Proof.
  intros Hnd. unfold sorted_keys, dict_keys, items_by_key.
  rewrite sorted_by_map, firstn_map.
  apply lookup_items; [exact Hnd|].
  intros x Hx. apply In_firstn in Hx.
  eapply Permutation_in; [|exact Hx].
  apply Permutation_sym, sorted_by_perm.
Qed.

Lemma task_id_str_eq task_family params :
  NoDup (dict_keys params) ->
  task_id_str task_family params
  = Ok (task_family ++ py "_" ++ param_summary params ++ py "_"
          ++ hash_prefix params).
Proof.
  intros Hnd. unfold task_id_str.
  rewrite dumps_canonical, (encode_utf8_ascii _ (canonical_json_ascii params)).
  cbn [bind]. rewrite lookup_sorted_keys by exact Hnd. cbn [bind].
  unfold param_summary, hash_prefix. rewrite map_map. reflexivity.
Qed.

(** *** The notions of the specification and the functions of the source *)

Lemma lex_lt_ltb a b : IdSpec.lex_lt a b -> pystr_ltb a b = true.
Proof.
  induction 1 as [c s|c d s t H|c s t _ IH]; simpl.
  - reflexivity.
  - apply N.ltb_lt in H. now rewrite H.
  - now rewrite N.ltb_irrefl.
Qed.

Lemma ltb_lex_lt a : forall b, pystr_ltb a b = true -> IdSpec.lex_lt a b.
Proof.
  induction a as [|x a IH]; intros [|y b]; simpl; try discriminate.
  - constructor.
  - destruct (N.ltb_spec x y) as [H|H];
      [intros _; now apply IdSpec.lex_lt_head|].
    destruct (N.ltb_spec y x) as [H'|H']; [discriminate|].
    assert (x = y) by lia. subst. intros Hl.
    apply IdSpec.lex_lt_tail. now apply IH.
Qed.

Lemma keys_increasing_sorted items :
  IdSpec.keys_increasing items -> StronglySorted (key_le fst) items.
Proof.
  induction 1 as [|a r Hs IH Hf]; constructor; [exact IH|].
  eapply Forall_impl; [|exact Hf].
  intros kv H. unfold key_le. now apply pystr_ltb_asym, lex_lt_ltb.
Qed.

Lemma keys_increasing_NoDup items :
  IdSpec.keys_increasing items -> NoDup (map fst items).
Proof.
  induction 1 as [|a r Hs IH Hf]; simpl; constructor; [|exact IH].
  intros Hin. apply in_map_iff in Hin as (kv & Hk & Hin).
  rewrite Forall_forall in Hf. specialize (Hf _ Hin). rewrite Hk in Hf.
  apply lex_lt_ltb in Hf. rewrite pystr_ltb_irrefl in Hf. discriminate.
Qed.

Lemma sorted_keys_increasing items :
  StronglySorted (key_le fst) items -> NoDup (map fst items) ->
  IdSpec.keys_increasing items.
Proof.
  induction 1 as [|a r Hs IH Hf]; intros Hnd; [constructor|].
  simpl in Hnd. inversion Hnd as [|? ? Hnin Hr]; subst.
  constructor; [now apply IH|].
  rewrite Forall_forall in *. intros kv Hin.
  apply ltb_lex_lt.
  destruct (pystr_ltb (fst a) (fst kv)) eqn:E; [reflexivity|].
  exfalso. apply Hnin. rewrite (pystr_ltb_total _ _ E (Hf _ Hin)).
  now apply in_map.
Qed.

Lemma keys_increasing_items_by_key params items :
  Permutation items params -> IdSpec.keys_increasing items ->
  items = items_by_key params /\ NoDup (dict_keys params).
Proof.
  intros Hp Hs. pose proof (keys_increasing_NoDup Hs) as Hnd. split.
  - unfold items_by_key. apply (@sorted_unique _ fst).
    + exact Hnd.
    + now apply keys_increasing_sorted.
    + apply sorted_by_sorted.
    + rewrite <- sorted_by_perm. exact Hp.
  - unfold dict_keys. eapply Permutation_NoDup; [|exact Hnd].
    apply Permutation_map. exact Hp.
Qed.

Lemma items_by_key_increasing params :
  NoDup (dict_keys params) ->
  Permutation (items_by_key params) params
  /\ IdSpec.keys_increasing (items_by_key params).
Proof.
  intros Hnd. unfold items_by_key.
  split; [apply Permutation_sym, sorted_by_perm|].
  apply sorted_keys_increasing; [apply sorted_by_sorted|].
  eapply Permutation_NoDup; [|exact Hnd].
  apply Permutation_map, sorted_by_perm.
Qed.

Lemma joined_join sep parts : IdSpec.joined sep parts = join sep parts.
Proof.
  destruct parts as [|p rest]; [reflexivity|].
  unfold IdSpec.joined. revert p.
  induction rest as [|q r IH]; intros p.
  - simpl. apply app_nil_r.
  - change (join sep (p :: q :: r)) with (p ++ sep ++ join sep (q :: r)).
    rewrite <- IH. cbn [flat_map]. now rewrite <- app_assoc.
Qed.

(** A property of code points checked on each of the first [n]. *)
Lemma below_bound (n : nat) (P : N -> bool) :
  forallb P (map N.of_nat (seq 0 n)) = true ->
  forall c, (c < N.of_nat n)%N -> P c = true.
Proof.
  intros H c Hc. rewrite forallb_forall in H. apply H.
  apply in_map_iff. exists (N.to_nat c). split; [apply N2Nat.id|].
  apply in_seq. lia.
Qed.

Lemma keep_or_underscore_sub c :
  IdSpec.keep_or_underscore c = if invalid_char c then 95%N else c.
Proof.
  destruct (N.ltb_spec c 128) as [H|H].
  - apply N.eqb_eq. revert c H.
    apply (@below_bound 128
             (fun c => (IdSpec.keep_or_underscore c
                        =? (if invalid_char c then 95 else c))%N)).
    vm_compute. reflexivity.
  - unfold IdSpec.keep_or_underscore.
    assert (E : existsb (N.eqb c) IdSpec.word_chars = false).
    { apply not_true_iff_false. intros E.
      apply existsb_exists in E as (x & Hin & Hx).
      apply N.eqb_eq in Hx. subst x.
      assert (F : forallb (fun x => x <? 128)%N IdSpec.word_chars = true)
        by (vm_compute; reflexivity).
      rewrite forallb_forall in F. apply F in Hin.
      apply N.ltb_lt in Hin. lia. }
    rewrite E. unfold invalid_char.
    assert (E1 : (c <=? 90)%N = false) by (apply N.leb_gt; lia).
    assert (E2 : (c <=? 122)%N = false) by (apply N.leb_gt; lia).
    assert (E3 : (c <=? 57)%N = false) by (apply N.leb_gt; lia).
    assert (E4 : (c =? 95)%N = false) by (apply N.eqb_neq; lia).
    rewrite E1, E2, E3, E4, !andb_false_r. reflexivity.
Qed.

Lemma hex_digit_nth m :
  (m < 16)%N -> nth (N.to_nat m) IdSpec.hex_digits 0%N = hex_digit m.
Proof.
  intros H. apply N.eqb_eq. revert m H.
  apply (@below_bound 16
           (fun m => (nth (N.to_nat m) IdSpec.hex_digits 0 =? hex_digit m)%N)).
  vm_compute. reflexivity.
Qed.

Lemma u_escape_hex4 n : IdSpec.u_escape n = [92; 117]%N ++ hex4 n.
Proof.
  unfold IdSpec.u_escape, hex4. cbn [map]. f_equal.
  rewrite !N.shiftr_div_pow2.
  change (16 ^ 3)%N with 4096%N. change (2 ^ 12)%N with 4096%N.
  change (16 ^ 2)%N with 256%N. change (2 ^ 8)%N with 256%N.
  change (16 ^ 1)%N with 16%N. change (2 ^ 4)%N with 16%N.
  change (16 ^ 0)%N with 1%N. rewrite N.div_1_r.
  rewrite !hex_digit_nth by (apply N.mod_lt; discriminate).
  reflexivity.
Qed.

Lemma lor_add_low h x :
  N.lor (h * 2 ^ 10) (x mod 2 ^ 10) = (h * 2 ^ 10 + x mod 2 ^ 10)%N.
Proof.
  assert (L : N.land (h * 2 ^ 10) (x mod 2 ^ 10) = 0%N).
  { apply N.bits_inj. intros i. rewrite N.land_spec, N.bits_0.
    destruct (N.lt_ge_cases i 10) as [Hi|Hi].
    - now rewrite N.mul_pow2_bits_low.
    - rewrite N.mod_pow2_bits_high by exact Hi. apply andb_false_r. }
  rewrite (N.add_nocarry_lxor _ _ L). symmetry. now apply N.lxor_lor.
Qed.

Lemma json_char_escape c : IdSpec.json_char c = Json.escape_char c.
Proof.
  destruct (N.ltb_spec c 128) as [H|H].
  - assert (E : pystr_eqb (IdSpec.json_char c) (Json.escape_char c) = true).
    { revert c H.
      apply (@below_bound 128
               (fun c => pystr_eqb (IdSpec.json_char c)
                           (Json.escape_char c))).
      vm_compute. reflexivity. }
    now apply pystr_eqb_eq.
  - unfold IdSpec.json_char, Json.escape_char.
    cbn [find IdSpec.short_escapes fst snd].
    rewrite (proj2 (N.eqb_neq 34 c)), (proj2 (N.eqb_neq 92 c)),
      (proj2 (N.eqb_neq 8 c)), (proj2 (N.eqb_neq 12 c)),
      (proj2 (N.eqb_neq 10 c)), (proj2 (N.eqb_neq 13 c)),
      (proj2 (N.eqb_neq 9 c)) by lia.
    rewrite (proj2 (N.eqb_neq c 34)), (proj2 (N.eqb_neq c 92)),
      (proj2 (N.eqb_neq c 8)), (proj2 (N.eqb_neq c 12)),
      (proj2 (N.eqb_neq c 10)), (proj2 (N.eqb_neq c 13)),
      (proj2 (N.eqb_neq c 9)) by lia.
    assert (E1 : (c <? 127)%N = false) by (apply N.ltb_ge; lia).
    assert (E2 : (c <=? 126)%N = false) by (apply N.leb_gt; lia).
    rewrite E1, E2, !andb_false_r.
    change 0x10000%N with 65536%N.
    destruct (c <? 65536)%N; [apply u_escape_hex4|].
    cbv zeta. rewrite !u_escape_hex4.
    change 0xd800%N with (54 * 2 ^ 10)%N.
    change 0xdc00%N with (55 * 2 ^ 10)%N.
    change 0x3ff%N with (N.ones 10).
    rewrite !N.land_ones, N.shiftr_div_pow2, !lor_add_low.
    reflexivity.
Qed.

Lemma json_string_encode s : IdSpec.json_string s = Json.encode_str s.
Proof.
  unfold IdSpec.json_string, Json.encode_str. do 2 f_equal.
  apply flat_map_ext. exact json_char_escape.
Qed.

Lemma compact_json_canonical params :
  IdSpec.compact_json (items_by_key params) = canonical_json params.
Proof.
  unfold IdSpec.compact_json, canonical_json. rewrite joined_join.
  do 3 f_equal. apply map_ext. intros kv. now rewrite !json_string_encode.
Qed.

Lemma param_summary_spec params :
  IdSpec.param_summary (items_by_key params) = param_summary params.
Proof.
  unfold IdSpec.param_summary, param_summary, sub_invalid.
  rewrite joined_join. apply map_ext. exact keep_or_underscore_sub.
Qed.

(** C1. For a family name and a mapping from parameter names to
    serialized values, [task_id_str] returns the id of the
    specification, [{family}_{param_summary}_{hash_prefix}], computed
    from the items of the mapping listed in lexicographic order of their
    keys: the hash prefix is the first 10 hexadecimal characters of the
    MD5 digest of the compact JSON encoding of these items, and the
    summary is made of the values of the first 3 of them, cut to 16
    characters, joined by underscores, with every character outside
    [A-Za-z0-9_] replaced by an underscore.  Every mapping has such a
    listing, so an id is always returned; it depends on the family and on
    the mapping only, not on the order in which the dict holds its
    items.  The digest is MD5: it passes the test suite of RFC 1321.  The
    last part is one id in full, for a mapping of four parameters given
    out of order, with values that need escaping, cutting and
    replacing. *)
Theorem task_id_str_spec :
  (forall task_family params items,
     Permutation items params ->
     IdSpec.keys_increasing items ->
     task_id_str task_family params
     = Ok (IdSpec.task_id task_family items))
  /\ (forall params,
        NoDup (dict_keys params) ->
        exists items,
          Permutation items params /\ IdSpec.keys_increasing items)
  /\ (forall task_family params params',
        NoDup (dict_keys params) ->
        Permutation params params' ->
        task_id_str task_family params'
        = task_id_str task_family params)
  /\ IdSpec.md5_test_suite
  /\ task_id_str (py "Fam")
       [(py "b", py "x y");
        (py "a", [0x68; 0x22; 0x69; 0x5c; 0x7f; 0xa; 0xe9; 0x1f600]%N);
        (py "c", py "0123456789abcdefXYZ");
        (py "d", py "q")]
     = Ok (py "Fam_h_i______x_y_0123456789abcdef_9d34a113cc").
Proof.
  split.
  { intros task_family params items Hp Hs.
    destruct (keys_increasing_items_by_key Hp Hs) as [-> Hnd].
    rewrite task_id_str_eq by exact Hnd.
    unfold IdSpec.task_id, IdSpec.hash_prefix, hash_prefix.
    now rewrite param_summary_spec, compact_json_canonical. }
  split.
  { intros params Hnd. exists (items_by_key params).
    now apply items_by_key_increasing. }
  split.
  { intros task_family params params' Hnd Hp.
    assert (Hnd' : NoDup (dict_keys params'))
      by (eapply Permutation_NoDup;
          [apply Permutation_map; exact Hp|exact Hnd]).
    rewrite !task_id_str_eq by assumption.
    assert (Hs : items_by_key params' = items_by_key params)
      by (symmetry; now apply sorted_by_permutation).
    unfold param_summary, hash_prefix, canonical_json. now rewrite Hs. }
  split.
  { unfold IdSpec.md5_test_suite. repeat split; vm_compute; reflexivity. }
  vm_compute. reflexivity.
Qed.

(** ** The properties at concrete inputs *)

Lemma NoDup_keys_params_abc : NoDup (dict_keys Example.params_abc).
Proof.
  repeat (constructor; [simpl; intuition discriminate|]). constructor.
Qed.

Example task_id_str_params_abc :
  task_id_str (py "Fam") Example.params_abc
  = Ok (py "Fam_h_i______x_y_0123456789abcdef_9d34a113cc").
Proof. vm_compute. reflexivity. Qed.

Lemma task_id_str_spec_witness :
  Permutation Example.items_abc Example.params_abc
  /\ IdSpec.keys_increasing Example.items_abc
  /\ task_id_str (py "Fam") Example.params_abc
     = Ok (IdSpec.task_id (py "Fam") Example.items_abc).
Proof.
  assert (Hp : Permutation Example.items_abc Example.params_abc)
    by exact (Permutation_sym (sorted_by_perm fst Example.params_abc)).
  assert (Hs : IdSpec.keys_increasing Example.items_abc).
  { unfold IdSpec.keys_increasing, Example.items_abc.
    repeat first
      [ apply SSorted_nil | apply SSorted_cons
      | apply Forall_nil | apply Forall_cons
      | apply IdSpec.lex_lt_head; reflexivity ]. }
  split; [exact Hp|]. split; [exact Hs|].
  exact (proj1 task_id_str_spec (py "Fam") Example.params_abc
           Example.items_abc Hp Hs).
Defined.

Lemma Task_eq_hash_spec_witness :
  Task_init Example.hash Example.Report
    [PStr (py "2020"); PStr (py "x")] [] = Ok Example.report_x
  /\ Task_init Example.hash Example.Report
       [] [(py "note", PStr (py "y")); (py "date", PStr (py "2020"))]
     = Ok Example.report_y
  /\ same_significant_public Example.Report
       (t_param_kwargs Example.report_x) (t_param_kwargs Example.report_y)
  /\ t_task_id Example.report_x = t_task_id Example.report_y
  /\ Task_eq Example.report_x Example.report_y = true.
Proof.
  assert (Hs : same_significant_public Example.Report
                 (t_param_kwargs Example.report_x)
                 (t_param_kwargs Example.report_y)).
  { intros n p Hp Hsig Hvis. cbn in Hp.
    destruct (pystr_eqb _ n) eqn:E in Hp.
    - apply pystr_eqb_eq in E. subst n. vm_compute. reflexivity.
    - destruct (pystr_eqb _ n) in Hp; [|discriminate].
      injection Hp as <-. discriminate. }
  split; [vm_compute; reflexivity|].
  split; [vm_compute; reflexivity|].
  split; [exact Hs|].
  refine (proj2 (proj2 Task_eq_hash_spec) Example.hash Example.Report
            [PStr (py "2020"); PStr (py "x")] []
            [] [(py "note", PStr (py "y")); (py "date", PStr (py "2020"))]
            Example.report_x Example.report_y _ _ Hs).
  - vm_compute. reflexivity.
  - vm_compute. reflexivity.
Defined.

Lemma Task_complete_spec_witness :
  t_complete Example.task_b = DefaultComplete
  /\ flatten (t_output Example.task_b) = []
  /\ complete Example.task_b
     = (Ok false, [NoOutputsWarning Example.task_b])
  /\ t_complete Example.task_a = DefaultComplete
  /\ forallb is_target (flatten (t_output Example.task_a)) = true
  /\ complete Example.task_a = (Ok true, []).
Proof.
  split; [reflexivity|]. split; [reflexivity|].
  split; [apply (proj1 (Task_complete_spec Example.task_b eq_refl));
          reflexivity|].
  split; [reflexivity|]. split; [reflexivity|].
  apply (proj2 (proj2 (proj2 (Task_complete_spec Example.task_a eq_refl)
                         ltac:(discriminate)))).
  reflexivity.
Defined.

Lemma WrapperTask_complete_spec_witness :
  t_complete Example.wrapper = WrapperComplete
  /\ complete Example.wrapper = WrapperTask_complete Example.wrapper
  /\ ~ In (NoOutputsWarning Example.wrapper) (snd (complete Example.wrapper)).
Proof.
  split; [reflexivity|].
  pose proof (WrapperTask_complete_spec Example.wrapper eq_refl)
    as (H1 & _ & _ & H4 & _).
  split; [exact H1|exact H4].
Defined.

Lemma bulk_complete_spec_witness :
  cls_bulk Example.Report = BulkNaive
  /\ Forall (tuple_checkable Example.hash Example.Report) Example.tuples
  /\ exists log,
       bulk_complete Example.hash Example.Report Example.tuples
       = (Ok (filter (tuple_complete Example.hash Example.Report)
                Example.tuples), log).
Proof.
  assert (HF : Forall (tuple_checkable Example.hash Example.Report)
                 Example.tuples).
  { repeat constructor; eexists; eexists; split; vm_compute; reflexivity. }
  split; [reflexivity|]. split; [exact HF|].
  exact (proj2 (proj2 (proj2 (proj2 bulk_complete_spec))
                  Example.hash Example.Report Example.tuples eq_refl) HF).
Defined.

Example bulk_complete_tuples :
  bulk_complete Example.hash Example.Report Example.tuples
  = (Ok [PSeq KTuple [PStr (py "2020"); PStr (py "x")];
         PDict KDict [(py "date", PStr (py "2020"));
                      (py "note", PStr (py "y"))]], []).
Proof. vm_compute. reflexivity. Qed.


Example getUniqueName_flow1 :
  getUniqueName Example.flow1 Example.named_a = Ok (PStr (py "flow_0")).
Proof. vm_compute. reflexivity. Qed.

Example Flow_iter_flow1 : Flow_iter Example.flow1 = Raise AttributeError.
Proof. reflexivity. Qed.

(* ================================================================== *)
(** * Further properties of the code *)

(** ** [flatten], [deps] and [input] *)

Lemma flatten_is_leaf struct :
  Forall (fun x => is_leaf x = true) (flatten struct).
Proof.
  pattern struct.
  apply pyval_task_ind with (Q := fun _ => True); auto;
    try solve [intros; simpl; repeat constructor].
  - intros k items IH. rewrite flatten_dict.
    induction IH as [|kv r Hv _ IHr]; simpl; [constructor|].
    apply Forall_app. auto.
  - intros k elems IH. rewrite flatten_seq.
    induction IH as [|v r Hv _ IHr]; simpl; [constructor|].
    apply Forall_app. auto.
  - intros k elems IH. rewrite flatten_iter.
    induction IH as [|v r Hv _ IHr]; simpl; [constructor|].
    apply Forall_app. auto.
Qed.

Lemma flatten_leaves_id l :
  Forall (fun x => is_leaf x = true) l -> flat_map flatten l = l.
Proof.
  induction 1 as [|x r Hx _ IH]; simpl; [reflexivity|].
  rewrite IH. destruct x; try discriminate; reflexivity.
Qed.

(** X1. [flatten] returns leaves only (never [None], never a container),
    and flattening its own result again, as a list, changes nothing. *)
Theorem flatten_idempotent :
  forall struct,
    Forall (fun x => is_leaf x = true) (flatten struct)
    /\ flatten (PSeq KList (flatten struct)) = flatten struct.
Proof.
  intros struct. split; [apply flatten_is_leaf|].
  rewrite flatten_seq. apply flatten_leaves_id, flatten_is_leaf.
Qed.

Lemma deps_is_flatten_requires_aux self :
  deps self = flatten (t_requires self).
Proof.
  unfold deps, _requires. rewrite flatten_seq.
  apply flatten_leaves_id, flatten_is_leaf.
Qed.

(** X2. [deps()] is the flattened [requires()]: the second [flatten], over
    the list that [_requires()] returns, adds and removes nothing; and
    every dependency listed is a leaf of [requires()]. *)
Theorem deps_is_flatten_requires :
  forall self,
    deps self = flatten (t_requires self)
    /\ Forall (fun x => is_leaf x = true) (deps self).
Proof.
  intros self. rewrite deps_is_flatten_requires_aux.
  split; [reflexivity|apply flatten_is_leaf].
Qed.

Lemma flatten_getpaths struct :
  task_struct struct = true ->
  exists out, getpaths struct = Ok out
    /\ flatten out = flat_map outputs_of (flatten struct).
Proof.
  pattern struct.
  apply pyval_task_ind with (Q := fun _ => True); try discriminate; auto.
  - intros t _ _. exists (t_output t). split; [reflexivity|].
    simpl. now rewrite app_nil_r.
  - intros k items IH Hs. rewrite task_struct_dict in Hs.
    apply andb_true_iff in Hs as [Hk Hs].
    rewrite getpaths_dict, Hk, flatten_dict.
    assert (exists items', mapM getpaths_item items = Ok items'
              /\ flat_map (fun kv => flatten (snd kv)) items'
                 = flat_map outputs_of
                     (flat_map (fun kv => flatten (snd kv)) items))
      as (items' & Hm & HF).
    { induction IH as [|[key v] r Hv _ IHr]; simpl in *.
      - exists []. split; reflexivity.
      - apply andb_true_iff in Hs as [Hs1 Hs2].
        destruct (Hv Hs1) as (v' & Hg & Hfl).
        destruct (IHr Hs2) as (r' & Hm & HF).
        exists ((key, v') :: r'). unfold getpaths_item at 1. simpl.
        rewrite Hg. simpl. rewrite Hm. simpl. split; [reflexivity|].
        now rewrite flat_map_app, Hfl, HF. }
    rewrite Hm. simpl bind. eexists. split; [reflexivity|].
    now rewrite flatten_dict.
  - intros k elems IH Hs. rewrite task_struct_seq in Hs.
    apply andb_true_iff in Hs as [Hk Hs].
    rewrite getpaths_seq, Hk, flatten_seq.
    assert (exists elems', mapM getpaths elems = Ok elems'
              /\ flat_map flatten elems'
                 = flat_map outputs_of (flat_map flatten elems))
      as (elems' & Hm & HF).
    { induction IH as [|v r Hv _ IHr]; simpl in *.
      - exists []. split; reflexivity.
      - apply andb_true_iff in Hs as [Hs1 Hs2].
        destruct (Hv Hs1) as (v' & Hg & Hfl).
        destruct (IHr Hs2) as (r' & Hm & HF).
        exists (v' :: r'). rewrite Hg. simpl. rewrite Hm. simpl.
        split; [reflexivity|]. now rewrite flat_map_app, Hfl, HF. }
    rewrite Hm. simpl bind. eexists. split; [reflexivity|].
    now rewrite flatten_seq.
Qed.

(** X3. When [requires()] is a nested structure of tasks inside
    instances of [dict], [OrderedDict], [list] and [tuple], [input()]
    succeeds and its flattening is the concatenation, over [deps()] in
    order, of the flattened [output()] of each dependency. *)
Theorem flatten_input_is_outputs_of_deps :
  forall self,
    task_struct (t_requires self) = true ->
    exists paths, input self = Ok paths
      /\ flatten paths = flat_map outputs_of (deps self).
Proof.
  intros self H. rewrite deps_is_flatten_requires_aux.
  now apply flatten_getpaths.
Qed.

(** ** When [getpaths] succeeds *)

Lemma getpaths_nonempty_str_fails struct :
  has_nonempty_str struct = true -> exists e, getpaths struct = Raise e.
Proof.
  pattern struct.
  apply pyval_task_ind with (Q := fun _ => True); auto;
    try solve [intros; discriminate].
  - intros [|c s] H; [discriminate|]. simpl. now eexists.
  - intros k items IH H. rewrite has_nonempty_str_dict in H.
    apply existsb_exists in H as ([key v] & Hin & Hb).
    rewrite Forall_forall in IH. destruct (IH _ Hin Hb) as (e & He).
    rewrite getpaths_dict.
    destruct (dict_takes_iterable k); [|now eexists].
    destruct (@mapM_Raise _ _ getpaths_item items (key, v) e Hin)
      as (e' & -> & _).
    { unfold getpaths_item. simpl in *. now rewrite He. }
    simpl. now eexists.
  - intros k elems IH H. rewrite has_nonempty_str_seq in H.
    apply existsb_exists in H as (v & Hin & Hb).
    rewrite Forall_forall in IH. destruct (IH _ Hin Hb) as (e & He).
    rewrite getpaths_seq.
    destruct (seq_takes_iterable k); [|now eexists].
    destruct (mapM_Raise getpaths elems v Hin He) as (e' & -> & _).
    simpl. now eexists.
  - intros k elems IH H. rewrite has_nonempty_str_iter in H.
    apply existsb_exists in H as (v & Hin & Hb).
    rewrite Forall_forall in IH. destruct (IH _ Hin Hb) as (e & He).
    rewrite getpaths_iter.
    destruct (mapM_Raise getpaths elems v Hin He) as (e' & -> & _).
    simpl. destruct (issubclass e' TypeError); now eexists.
Qed.

Lemma existsb_false_In {A} (f : A -> bool) l x :
  existsb f l = false -> In x l -> f x = false.
Proof.
  intros H Hin. destruct (f x) eqn:E; [|reflexivity].
  rewrite <- H. symmetry. apply existsb_exists. now exists x.
Qed.

Lemma getpaths_clean_succeeds struct :
  plain_containers struct = true ->
  has_bad_leaf struct = false -> has_nonempty_str struct = false ->
  exists out, getpaths struct = Ok out.
Proof.
  pattern struct.
  apply pyval_task_ind with (Q := fun _ => True); auto;
    try solve [intros; discriminate].
  - intros [|c s] _ _ H; [|discriminate]. simpl. now eexists.
  - intros t _ _ _ _. simpl. now eexists.
  - intros k items IH Hp Hb Hs.
    rewrite plain_containers_dict in Hp.
    apply andb_true_iff in Hp as [Hk Hp]. rewrite forallb_forall in Hp.
    rewrite has_bad_leaf_dict in Hb. rewrite has_nonempty_str_dict in Hs.
    rewrite getpaths_dict, Hk.
    destruct (@mapM_Forall_Ok _ _ getpaths_item items) as (items' & ->).
    { rewrite Forall_forall in *. intros [key v] Hin.
      destruct (IH _ Hin) as (out & Hout).
      - exact (Hp _ Hin).
      - exact (existsb_false_In _ _ _ Hb Hin).
      - exact (existsb_false_In _ _ _ Hs Hin).
      - exists (key, out). unfold getpaths_item. simpl in *. now rewrite Hout. }
    simpl. now eexists.
  - intros k elems IH Hp Hb Hs.
    rewrite plain_containers_seq in Hp.
    apply andb_true_iff in Hp as [Hk Hp]. rewrite forallb_forall in Hp.
    rewrite has_bad_leaf_seq in Hb. rewrite has_nonempty_str_seq in Hs.
    rewrite getpaths_seq, Hk.
    destruct (@mapM_Forall_Ok _ _ getpaths elems) as (elems' & ->).
    { rewrite Forall_forall in *. intros v Hin. apply (IH _ Hin).
      - exact (Hp _ Hin).
      - exact (existsb_false_In _ _ _ Hb Hin).
      - exact (existsb_false_In _ _ _ Hs Hin). }
    simpl. now eexists.
  - intros k elems IH Hp Hb Hs.
    rewrite plain_containers_iter in Hp. rewrite forallb_forall in Hp.
    rewrite has_bad_leaf_iter in Hb. rewrite has_nonempty_str_iter in Hs.
    rewrite getpaths_iter.
    destruct (@mapM_Forall_Ok _ _ getpaths elems) as (elems' & ->).
    { rewrite Forall_forall in *. intros v Hin. apply (IH _ Hin).
      - exact (Hp _ Hin).
      - exact (existsb_false_In _ _ _ Hb Hin).
      - exact (existsb_false_In _ _ _ Hs Hin). }
    simpl. now eexists.
Qed.

(** X4. On a structure whose mappings and sequences are instances of
    [dict], [OrderedDict], [list] and [tuple], [getpaths] succeeds
    exactly when the structure holds, outside tasks, neither a leaf that
    is not iterable nor a non-empty string: strings are not mapped as
    leaves, they make it fail. *)
Theorem getpaths_succeeds_iff :
  forall struct,
    plain_containers struct = true ->
    ((exists out, getpaths struct = Ok out) <->
     has_bad_leaf struct = false /\ has_nonempty_str struct = false).
Proof.
  intros struct Hp. split.
  - intros (out & H). split.
    + destruct (has_bad_leaf struct) eqn:E; [|reflexivity].
      destruct (getpaths_bad_leaf_fails struct E) as (e & He). congruence.
    + destruct (has_nonempty_str struct) eqn:E; [|reflexivity].
      destruct (getpaths_nonempty_str_fails struct E) as (e & He). congruence.
  - intros [Hb Hs]. now apply getpaths_clean_succeeds.
Qed.

Lemma getpaths_succeeds_iff_witness :
  plain_containers
    (PSeq KTuple [PTask Example.task_a; PIter KSet [PTask Example.task_b]])
  = true
  /\ ((exists out,
         getpaths
           (PSeq KTuple
              [PTask Example.task_a; PIter KSet [PTask Example.task_b]])
         = Ok out) <->
      has_bad_leaf
        (PSeq KTuple [PTask Example.task_a; PIter KSet [PTask Example.task_b]])
      = false
      /\ has_nonempty_str
           (PSeq KTuple
              [PTask Example.task_a; PIter KSet [PTask Example.task_b]])
         = false).
Proof.
  split; [reflexivity|].
  apply (getpaths_succeeds_iff
           (PSeq KTuple
              [PTask Example.task_a; PIter KSet [PTask Example.task_b]])).
  reflexivity.
Defined.

(** X5. An iterable that is neither a mapping, a list nor a tuple (a set,
    a generator) is mapped to a [list]: its own kind is not kept. *)
Theorem getpaths_other_iterable_gives_list :
  forall k elems out,
    getpaths (PIter k elems) = Ok out ->
    exists elems', out = PSeq KList elems'
      /\ Forall2 (fun x y => getpaths x = Ok y) elems elems'.
Proof.
  intros k elems out H. rewrite getpaths_iter in H.
  destruct (mapM getpaths elems) as [elems'|e] eqn:Hm; simpl in H.
  - injection H as <-. exists elems'. split; [reflexivity|].
    now apply mapM_Ok_Forall2.
  - destruct (issubclass e TypeError); discriminate.
Qed.

Lemma getpaths_other_iterable_gives_list_witness :
  getpaths (PIter KSet [PTask Example.task_a])
  = Ok (PSeq KList [Example.target_a])
  /\ exists elems', PSeq KList [Example.target_a] = PSeq KList elems'
       /\ Forall2 (fun x y => getpaths x = Ok y)
            [PTask Example.task_a] elems'.
Proof.
  split; [reflexivity|].
  apply (@getpaths_other_iterable_gives_list KSet [PTask Example.task_a]).
  reflexivity.
Defined.

(** ** Equality and hashing of tasks *)

(** X6. [==] on tasks is an equivalence relation. *)
Theorem Task_eq_equivalence :
  (forall T, Task_eq T T = true)
  /\ (forall T1 T2, Task_eq T1 T2 = Task_eq T2 T1)
  /\ (forall T1 T2 T3,
        Task_eq T1 T2 = true -> Task_eq T2 T3 = true -> Task_eq T1 T3 = true).
Proof.
  split; [|split].
  - intros T. apply Task_eq_iff. auto.
  - intros T1 T2. unfold Task_eq. rewrite Pos.eqb_sym. f_equal.
    unfold pystr_eqb.
    destruct (pystr_eq_dec (t_task_id T1) (t_task_id T2)),
      (pystr_eq_dec (t_task_id T2) (t_task_id T1)); congruence.
  - intros T1 T2 T3 H12 H23.
    apply Task_eq_iff in H12 as [? ?]. apply Task_eq_iff in H23 as [? ?].
    apply Task_eq_iff. split; congruence.
Qed.

Lemma Task_eq_equivalence_witness :
  Task_eq Example.report_x Example.report_y = true
  /\ Task_eq Example.report_y Example.report_x = true
  /\ Task_eq Example.report_x Example.report_x = true.
Proof.
  assert (H : Task_eq Example.report_x Example.report_y = true)
    by (vm_compute; reflexivity).
  split; [exact H|].
  split.
  - rewrite (proj1 (proj2 Task_eq_equivalence)). exact H.
  - apply (proj2 (proj2 Task_eq_equivalence) _ Example.report_y); [exact H|].
    rewrite (proj1 (proj2 Task_eq_equivalence)). exact H.
Defined.

(** X7. Equal tasks have equal hashes, when both were built by the
    constructor (of any two classes): the contract that dictionaries and
    sets of tasks rely on. *)
Theorem Task_eq_implies_same_hash :
  forall py_hash cls1 args1 kwargs1 cls2 args2 kwargs2 T1 T2,
    Task_init py_hash cls1 args1 kwargs1 = Ok T1 ->
    Task_init py_hash cls2 args2 kwargs2 = Ok T2 ->
    Task_eq T1 T2 = true ->
    Task_hash T1 = Task_hash T2.
Proof.
  intros py_hash cls1 args1 kwargs1 cls2 args2 kwargs2 T1 T2 H1 H2 He.
  apply Task_init_inv in H1 as (_ & _ & _ & _ & _ & _ & Hh1 & _).
  apply Task_init_inv in H2 as (_ & _ & _ & _ & _ & _ & Hh2 & _).
  apply Task_eq_iff in He as [_ Hid].
  unfold Task_hash. now rewrite Hh1, Hh2, Hid.
Qed.

Lemma Task_eq_implies_same_hash_witness :
  Task_eq Example.report_x Example.report_y = true
  /\ Task_hash Example.report_x = Task_hash Example.report_y.
Proof.
  assert (He : Task_eq Example.report_x Example.report_y = true)
    by (vm_compute; reflexivity).
  split; [exact He|].
  refine (@Task_eq_implies_same_hash Example.hash
            Example.Report [PStr (py "2020"); PStr (py "x")] []
            Example.Report []
            [(py "note", PStr (py "y")); (py "date", PStr (py "2020"))]
            Example.report_x Example.report_y _ _ He);
    vm_compute; reflexivity.
Defined.

(** ** The shape of a task id *)

Lemma le_bytes_length n x : List.length (MD5.le_bytes n x) = n.
Proof.
  revert x. induction n as [|n IH]; intros x; simpl; [reflexivity|].
  now rewrite IH.
Qed.

Lemma le_bytes_byte n x :
  Forall (fun b => (b < 256)%N) (MD5.le_bytes n x).
Proof.
  revert x. induction n as [|n IH]; intros x; simpl; constructor.
  - now apply N.mod_lt.
  - apply IH.
Qed.

Lemma digest_bytes msg :
  List.length (MD5.digest msg) = 16%nat
  /\ Forall (fun b => (b < 256)%N) (MD5.digest msg).
Proof.
  unfold MD5.digest.
  destruct (MD5.process _ _ _) as [[[a b] c] d].
  split.
  - rewrite !length_app, !le_bytes_length. reflexivity.
  - repeat (apply Forall_app; split); apply le_bytes_byte.
Qed.

Lemma hex_digit_is_lower_hex n :
  (n < 16)%N -> is_lower_hex (hex_digit n) = true.
Proof.
  intros H. unfold hex_digit, is_lower_hex.
  destruct (N.ltb_spec n 10).
  - replace (48 <=? 48 + n)%N with true by (symmetry; apply N.leb_le; lia).
    replace (48 + n <=? 57)%N with true by (symmetry; apply N.leb_le; lia).
    reflexivity.
  - replace (97 <=? 87 + n)%N with true by (symmetry; apply N.leb_le; lia).
    replace (87 + n <=? 102)%N with true by (symmetry; apply N.leb_le; lia).
    apply orb_true_r.
Qed.

Lemma hexdigest_shape msg :
  List.length (MD5.hexdigest msg) = 32%nat
  /\ forallb is_lower_hex (MD5.hexdigest msg) = true.
Proof.
  unfold MD5.hexdigest. destruct (digest_bytes msg) as [Hl Hb].
  revert Hl Hb. generalize (MD5.digest msg) as bs. intros bs Hl Hb.
  assert (G : List.length
                (flat_map (fun b => [hex_digit (b / 16); hex_digit (b mod 16)]%N) bs)
              = (2 * List.length bs)%nat
              /\ forallb is_lower_hex
                   (flat_map (fun b => [hex_digit (b / 16); hex_digit (b mod 16)]%N) bs)
                 = true).
  { clear Hl. induction Hb as [|b r Hb _ [IH1 IH2]]; [split; reflexivity|].
    cbn [flat_map List.length app forallb]. split; [rewrite IH1; lia|].
    rewrite IH2, !hex_digit_is_lower_hex; [reflexivity|..].
    - now apply N.mod_lt.
    - apply N.Div0.div_lt_upper_bound. lia. }
  destruct G as [G1 G2]. split; [rewrite G1, Hl; reflexivity|exact G2].
Qed.

Lemma forallb_firstn {A} (f : A -> bool) n l :
  forallb f l = true -> forallb f (firstn n l) = true.
Proof.
  revert l. induction n as [|n IH]; intros [|x r]; simpl; auto.
  intros H. apply andb_true_iff in H as [-> Hr]. now apply IH.
Qed.

Lemma join_length_le sep parts bound :
  Forall (fun p => List.length p <= bound) parts ->
  List.length (join sep parts)
  <= List.length parts * bound + (List.length parts - 1) * List.length sep.
Proof.
  induction 1 as [|p r Hp Hr IH]; [simpl; lia|].
  destruct r as [|q r']; [simpl; lia|].
  change (join sep (p :: q :: r')) with (p ++ sep ++ join sep (q :: r')).
  rewrite !length_app. cbn [List.length] in *. nia.
Qed.

Lemma sub_invalid_valid s :
  forallb (fun c => negb (invalid_char c)) (sub_invalid s) = true.
Proof.
  induction s as [|c r IH]; simpl; [reflexivity|].
  rewrite IH, andb_true_r. destruct (invalid_char c) eqn:E; [reflexivity|].
  now rewrite E.
Qed.

(** X8. Whatever the parameters, a task id is the family, an underscore,
    a summary of at most 50 characters all in [A-Za-z0-9_], an underscore,
    and exactly 10 lower-case hexadecimal digits. *)
Theorem task_id_str_shape :
  forall task_family params,
    NoDup (dict_keys params) ->
    exists summary digits,
      task_id_str task_family params
      = Ok (task_family ++ py "_" ++ summary ++ py "_" ++ digits)
      /\ List.length summary <= 50
      /\ forallb (fun c => negb (invalid_char c)) summary = true
      /\ List.length digits = 10
      /\ forallb is_lower_hex digits = true.
Proof.
  intros task_family params Hnd.
  exists (param_summary params), (hash_prefix params).
  split; [now apply task_id_str_eq|].
  destruct (hexdigest_shape (canonical_json params)) as [Hl Hh].
  unfold param_summary, hash_prefix. repeat split.
  - unfold sub_invalid. rewrite length_map.
    etransitivity; [apply (@join_length_le _ _ 16)|].
    + apply Forall_forall. intros p Hp. apply in_map_iff in Hp as (kv & <- & _).
      rewrite length_firstn. lia.
    + rewrite length_map.
      change (List.length (py "_")) with 1.
      match goal with
      | |- ?n * 16 + _ <= 50 =>
          assert (n <= 3) by (rewrite length_firstn; lia); lia
      end.
  - apply sub_invalid_valid.
  - rewrite length_firstn, Hl. reflexivity.
  - now apply forallb_firstn.
Qed.

Lemma task_id_str_shape_witness :
  NoDup (dict_keys Example.params_abc)
  /\ exists summary digits,
       task_id_str (py "Fam") Example.params_abc
       = Ok (py "Fam" ++ py "_" ++ summary ++ py "_" ++ digits)
       /\ List.length summary <= 50
       /\ forallb (fun c => negb (invalid_char c)) summary = true
       /\ List.length digits = 10
       /\ forallb is_lower_hex digits = true.
Proof.
  assert (H : NoDup (dict_keys Example.params_abc))
    by (repeat (constructor; [simpl; intuition discriminate|]); constructor).
  split; [exact H|].
  exact (task_id_str_shape (py "Fam") Example.params_abc H).
Defined.

(** ** Adding tasks to a Flow *)

Lemma taskset_set_fresh d k v :
  taskset_mem d k = false -> taskset_set d k v = d ++ [(k, v)].
Proof.
  unfold taskset_mem. induction d as [|[k0 v0] r IH]; simpl; [reflexivity|].
  destruct (key_eqb k0 k); [discriminate|]. intros H. now rewrite IH.
Qed.

Lemma taskset_get_app d k v k' :
  taskset_get (d ++ [(k, v)]) k'
  = match taskset_get d k' with
    | Some u => Some u
    | None => if key_eqb k k' then Some v else None
    end.
Proof.
  induction d as [|[k0 v0] r IH]; simpl; [reflexivity|].
  destruct (key_eqb k0 k'); [reflexivity|exact IH].
Qed.

Lemma Task_getattr_setattr t n v :
  Task_getattr (Task_setattr t n v) n = Ok v.
Proof.
  destruct t. unfold Task_getattr. simpl.
  now rewrite dict_get_set, pystr_eqb_refl.
Qed.

Lemma getUniqueName_loop_shape self fuel :
  forall incval newname,
    getUniqueName_loop self fuel incval newname = newname
    \/ exists s, getUniqueName_loop self fuel incval newname = PStr s.
Proof.
  induction fuel as [|fuel IH]; intros incval newname;
    cbn [getUniqueName_loop].
  - left. now destruct (_ && _).
  - destruct (_ && _); [|now left].
    destruct (IH (incval + 1)%N
                (PStr (name self ++ py "_" ++ str_of_N incval)))
      as [-> | [s ->]]; right; eexists; reflexivity.
Qed.

Lemma getUniqueName_free self ctask newname :
  getUniqueName self ctask = Ok newname ->
  taskset_mem (taskset self) newname = false /\ hashable newname = true.
Proof.
  unfold getUniqueName, taskset_contains.
  destruct (Task_getattr ctask (py "name")) as [n|]; [|discriminate].
  cbn [bind].
  destruct (hashable n) eqn:Hh; [|discriminate]. cbn [bind].
  pose proof (getUniqueName_loop_shape self (N.to_nat RENAME_LIMIT) 0 n)
    as Hs. revert Hs.
  generalize (getUniqueName_loop self (N.to_nat RENAME_LIMIT) 0 n).
  intros r Hs H.
  destruct (taskset_mem (taskset self) r) eqn:E; [discriminate|].
  cbn [negb] in H. injection H as <-. split; [exact E|].
  destruct Hs as [-> | [s ->]]; [exact Hh|reflexivity].
Qed.

Lemma add_inv st self intask st' self' :
  add st self intask = Ok (st', self') ->
  exists o n,
    intask = TaskObject o
    /\ Task_getattr (st' o) (py "name") = Ok n
    /\ taskset_mem (taskset self) n = false
    /\ taskset self' = taskset self ++ [(n, o)]
    /\ (st' = st
        \/ st' = store_set st o (Task_setattr (st o) (py "name") n))
    /\ name self' = name self
    /\ autoRename self' = autoRename self.
Proof.
  unfold add. destruct intask as [o|]; [|discriminate].
  intros H. exists o.
  destruct (autoRename self) eqn:Ha.
  - destruct (getUniqueName self (st o)) as [newname|] eqn:Hu;
      [|discriminate].
    cbn [bind] in H. rewrite store_set_same, Task_getattr_setattr in H.
    cbn [bind] in H.
    destruct (getUniqueName_free _ _ Hu) as [Hfree Hh].
    unfold taskset_setitem in H. rewrite Hh in H. cbn [bind] in H.
    injection H as <- <-. exists newname.
    rewrite store_set_same, Task_getattr_setattr.
    cbn [taskset name autoRename].
    rewrite taskset_set_fresh by exact Hfree. auto 8.
  - destruct (Task_getattr (st o) (py "name")) as [n|] eqn:Hn;
      [|discriminate].
    cbn [bind] in H. unfold taskset_contains, taskset_setitem in H.
    destruct (hashable n) eqn:Hh; [|discriminate]. cbn [bind] in H.
    destruct (taskset_mem (taskset self) n) eqn:Hm; [discriminate|].
    cbn [bind] in H. rewrite Hn in H. cbn [bind] in H. rewrite Hh in H.
    cbn [bind] in H.
    injection H as <- <-. exists n. cbn [taskset name autoRename].
    rewrite taskset_set_fresh by exact Hm. auto 8.
Qed.

(** X9. A successful [add] never replaces an entry: the object given is
    stored last, under the name it carries after the call, and that name
    was not a name of the Flow before.  It is the object itself that is
    stored: its name is the only thing [add] changes among the task
    objects, so an entry that already held this object now holds a task
    with the new name.  The name of the Flow and its auto-rename flag are
    unchanged. *)
Theorem add_appends_under_fresh_name :
  forall st self intask st' self',
    add st self intask = Ok (st', self') ->
    exists o n,
      intask = TaskObject o
      /\ Task_getattr (st' o) (py "name") = Ok n
      /\ taskset_mem (taskset self) n = false
      /\ taskset self' = taskset self ++ [(n, o)]
      /\ (forall o', o' <> o -> st' o' = st o')
      /\ (st' o = st o \/ st' o = Task_setattr (st o) (py "name") n)
      /\ name self' = name self
      /\ autoRename self' = autoRename self.
Proof.
  intros st self intask st' self' H.
  destruct (add_inv _ _ _ H) as (o & n & Hi & Hn & Hf & Hts & Hst & Hr).
  exists o, n. repeat (split; [assumption|]).
  destruct Hst as [-> | ->].
  - split; [reflexivity|]. split; [now left|exact Hr].
  - split; [intros o' Ho'; now apply store_set_other|].
    split; [right; apply store_set_same|exact Hr].
Qed.

(** X10. After a successful [add], the object is found under its name
    when that name is a string, and every name of the Flow still leads to
    the object it led to before.  The objects other than the one added
    are as they were; the one added, when it was stored already, is
    found under its old key with the name it carries now. *)
Theorem add_then_lookup :
  forall st self intask st' self',
    add st self intask = Ok (st', self') ->
    exists o,
      intask = TaskObject o
      /\ (forall s, Task_getattr (st' o) (py "name") = Ok (PStr s) ->
                    taskset_get (taskset self') (PStr s) = Some o)
      /\ (forall k u, taskset_get (taskset self) k = Some u ->
                      taskset_get (taskset self') k = Some u
                      /\ (u <> o -> st' u = st u)).
Proof.
  intros st self intask st' self' H.
  destruct (add_inv _ _ _ H) as (o & n & Hi & Hn & Hfree & Hts & Hst & _).
  exists o. split; [exact Hi|]. rewrite Hts. split.
  - intros s Hs. rewrite Hn in Hs. injection Hs as ->.
    rewrite taskset_get_app. unfold taskset_mem in Hfree.
    destruct (taskset_get (taskset self) (PStr s)); [discriminate|].
    simpl. now rewrite pystr_eqb_refl.
  - intros k u Hk. split; [now rewrite taskset_get_app, Hk|].
    intros Hu. destruct Hst as [-> | ->]; [reflexivity|].
    now apply store_set_other.
Qed.

Lemma getUniqueName_loop_free self fuel incval newname :
  taskset_mem (taskset self) newname = false ->
  getUniqueName_loop self fuel incval newname = newname.
Proof.
  intros H. destruct fuel; simpl; now rewrite H.
Qed.

Lemma getUniqueName_of_free self ctask n :
  Task_getattr ctask (py "name") = Ok n ->
  hashable n = true ->
  taskset_mem (taskset self) n = false ->
  getUniqueName self ctask = Ok n.
Proof.
  intros Hn Hh Hm. unfold getUniqueName, taskset_contains.
  rewrite Hn. cbn [bind]. rewrite Hh. cbn [bind].
  rewrite (getUniqueName_loop_free _ _ _ _ Hm). now rewrite Hm.
Qed.

Lemma getUniqueName_first_collision self ctask n :
  Task_getattr ctask (py "name") = Ok n ->
  taskset_mem (taskset self) n = true ->
  taskset_mem (taskset self) (renamed self 0) = false ->
  getUniqueName self ctask = Ok (renamed self 0).
Proof.
  intros Hn Hm H0.
  pose proof (@getUniqueName_loop_spec self (N.to_nat RENAME_LIMIT) 0%N n)
    as Hl.
  cbn zeta in Hl. rewrite N2Nat.id in Hl. specialize (Hl (N.add_0_r _)).
  unfold getUniqueName, taskset_contains.
  rewrite Hn. cbn [bind]. rewrite (taskset_mem_hashable _ _ Hm). cbn [bind].
  destruct Hl as [[_ [Hc | Hc]] | [_ (k & Hk & -> & Hall & _)]];
    [congruence | discriminate |].
  destruct (N.eq_dec k 0) as [->|Hne].
  - now rewrite H0.
  - rewrite Hall in H0 by lia. discriminate.
Qed.


(** X12. When the name of the task and all the [RENAME_LIMIT] names that
    [getUniqueName] tries are taken, it raises [ValueError]; so does
    [add], which then stores nothing. *)
Theorem getUniqueName_exhausted :
  forall self ctask n,
    Task_getattr ctask (py "name") = Ok n ->
    taskset_mem (taskset self) n = true ->
    (forall k, (k < RENAME_LIMIT)%N ->
               taskset_mem (taskset self) (renamed self k) = true) ->
    getUniqueName self ctask = Raise ValueError
    /\ (autoRename self = true ->
        forall st o, st o = ctask ->
          add st self (TaskObject o) = Raise ValueError).
Proof.
  intros self ctask n Hn Hm Hall.
  assert (G : getUniqueName self ctask = Raise ValueError).
  { pose proof (@getUniqueName_loop_spec self (N.to_nat RENAME_LIMIT) 0%N n)
      as Hl.
    cbn zeta in Hl. rewrite N2Nat.id in Hl. specialize (Hl (N.add_0_r _)).
    unfold getUniqueName, taskset_contains.
    rewrite Hn. cbn [bind].
    rewrite (taskset_mem_hashable _ _ Hm). cbn [bind].
    destruct Hl as [[_ [Hc | Hc]] | [_ (k & Hk & -> & _)]];
      [congruence | discriminate |].
    rewrite Hall by lia. reflexivity. }
  split; [exact G|]. intros Ha st o Ho. unfold add. now rewrite Ha, Ho, G.
Qed.

Lemma In_taskset_mem d k v :
  In (k, v) d -> key_eqb k k = true -> taskset_mem d k = true.
Proof.
  unfold taskset_mem. induction d as [|[k0 v0] r IH]; [intros []|].
  intros [H|H] Hk; cbn [taskset_get].
  - injection H as -> ->. now rewrite Hk.
  - destruct (key_eqb k0 k); [reflexivity|]. now apply IH.
Qed.

Lemma getUniqueName_exhausted_witness :
  getUniqueName Sample.full_flow Example.named_a = Raise ValueError
  /\ (autoRename Sample.full_flow = true ->
      forall st o, st o = Example.named_a ->
        add st Sample.full_flow (TaskObject o) = Raise ValueError).
Proof.
  apply (@getUniqueName_exhausted Sample.full_flow Example.named_a
           (PStr (py "build"))).
  - reflexivity.
  - reflexivity.
  - intros k Hk.
    apply In_taskset_mem with (v := 0);
      [|apply pystr_eqb_refl].
    right. apply in_map_iff. exists (N.to_nat k). split.
    + unfold renamed. now rewrite N2Nat.id.
    + apply in_seq. lia.
Defined.

(** ** Errors of the naive bulk check *)

Lemma naive_loop_first_failure py_hash cls good bad rest e :
  Forall (tuple_checkable py_hash cls) good ->
  (instance_of py_hash cls bad = Raise e
   \/ exists t, instance_of py_hash cls bad = Ok t
                /\ fst (complete t) = Raise e) ->
  forall gen, exists log,
    naive_loop py_hash cls (good ++ bad :: rest) gen = (Raise e, log).
Proof.
  intros HF Hbad. induction HF as [|pt r (t & b & Ht & Hb) _ IH]; intros gen.
  - cbn [app]. rewrite naive_loop_cons.
    destruct Hbad as [-> | (t & -> & Hc)].
    + now eexists.
    + unfold liftW, bindW. destruct (complete t) as [res logc].
      simpl in Hc. subst res. now eexists.
  - cbn [app]. rewrite naive_loop_cons, Ht. unfold liftW, bindW.
    destruct (complete t) as [res logc]. simpl in Hb. subst res.
    destruct (IH (if b then gen ++ [pt] else gen)) as (log & ->).
    now eexists.
Qed.

(** X13. The naive [bulk_complete] stops at the first tuple whose
    instance cannot be built or whose [complete()] raises: the whole call
    raises that error and returns no tuple, also for the tuples before it
    that are complete. *)
Theorem bulk_complete_first_failure :
  forall py_hash cls good bad rest e,
    cls_bulk cls = BulkNaive ->
    Forall (tuple_checkable py_hash cls) good ->
    (instance_of py_hash cls bad = Raise e
     \/ exists t, instance_of py_hash cls bad = Ok t
                  /\ fst (complete t) = Raise e) ->
    exists log,
      bulk_complete py_hash cls (good ++ bad :: rest) = (Raise e, log).
Proof.
  intros py_hash cls good bad rest e Hb HF Hbad.
  unfold bulk_complete. rewrite Hb.
  exact (@naive_loop_first_failure py_hash cls good bad rest e HF Hbad []).
Qed.

Lemma bulk_complete_first_failure_witness :
  exists log,
    bulk_complete Example.hash Example.Report
      ([PSeq KTuple [PStr (py "2020"); PStr (py "x")]]
       ++ PSeq KTuple [] :: [PSeq KList [PStr (py "1999")]])
    = (Raise MissingParameterException, log).
Proof.
  apply bulk_complete_first_failure.
  - reflexivity.
  - repeat constructor; eexists; eexists; split; vm_compute; reflexivity.
  - left. vm_compute. reflexivity.
Defined.

(** ** What a successful construction guarantees *)

Lemma dict_mem_In {V} (d : pydict V) k :
  dict_mem d k = true <-> In k (map fst d).
Proof.
  unfold dict_mem. pose proof (dict_get_None_iff d k) as H.
  destruct (dict_get d k) eqn:E.
  - split; [|reflexivity]. intros _.
    destruct (in_dec pystr_eq_dec k (map fst d)) as [Hi|Hn]; [assumption|].
    apply H in Hn. discriminate.
  - split; [discriminate|]. intros Hi. exfalso. now apply (proj1 H).
Qed.

Lemma dict_mem_set {V} (d : pydict V) k v k' :
  dict_mem (dict_set d k v) k' = true <-> k = k' \/ dict_mem d k' = true.
Proof.
  unfold dict_mem. rewrite dict_get_set.
  destruct (pystr_eqb k k') eqn:E.
  - apply pystr_eqb_eq in E. tauto.
  - split; [tauto|]. intros [H|H]; [|exact H].
    subst. rewrite pystr_eqb_refl in E. discriminate.
Qed.

Lemma dict_mem_of_pairs {V} (pairs : list (pystr * V)) k :
  dict_mem (dict_of_pairs pairs) k = true <-> In k (map fst pairs).
Proof.
  unfold dict_of_pairs.
  assert (G : forall d : pydict V,
            dict_mem (fold_left (fun d kv => dict_set d (fst kv) (snd kv))
                        pairs d) k = true
            <-> dict_mem d k = true \/ In k (map fst pairs)).
  { induction pairs as [|[k0 v0] r IH]; intros d; simpl; [tauto|].
    rewrite IH, dict_mem_set. tauto. }
  rewrite G. unfold dict_mem. simpl. intuition discriminate.
Qed.

Lemma fill_positional_Ok pp :
  forall args acc r,
    fill_positional pp args acc = Ok r ->
    List.length args <= List.length pp
    /\ forall n, dict_mem r n = true <->
         dict_mem acc n = true
         \/ In n (map fst (firstn (List.length args) pp)).
Proof.
  induction pp as [|[n0 p0] pp IH]; intros [|a args] acc r H; simpl in H.
  - injection H as <-. simpl. split; [lia|tauto].
  - discriminate.
  - injection H as <-. simpl. split; [lia|tauto].
  - destruct (normalize p0 a) as [v|]; simpl in H; [|discriminate].
    apply IH in H as [Hl Hm]. cbn [List.length firstn map fst In].
    split; [lia|]. intros n. rewrite Hm, dict_mem_set. tauto.
Qed.

Lemma fill_keywords_Ok pd kwargs :
  forall acc r,
    fill_keywords pd kwargs acc = Ok r ->
    NoDup (map fst kwargs)
    /\ (forall n, In n (map fst kwargs) ->
          dict_mem acc n = false /\ dict_mem pd n = true)
    /\ forall n, dict_mem r n = true <->
         dict_mem acc n = true \/ In n (map fst kwargs).
Proof.
  induction kwargs as [|[n0 a0] kwargs IH]; intros acc r H; simpl in H.
  - injection H as <-. simpl. split; [constructor|]. split; tauto.
  - destruct (dict_mem acc n0) eqn:Hacc; [discriminate|].
    destruct (dict_mem pd n0) eqn:Hpd; simpl in H; [|discriminate].
    destruct (dict_getitem pd n0) as [p|]; simpl in H; [|discriminate].
    destruct (normalize p a0) as [v|]; simpl in H; [|discriminate].
    apply IH in H as (Hnd & Hin & Hm). cbn [map fst In].
    assert (Hfresh : ~ In n0 (map fst kwargs)).
    { intros Hi. destruct (Hin _ Hi) as [Hf _].
      assert (dict_mem (dict_set acc n0 v) n0 = true)
        by (apply dict_mem_set; now left).
      congruence. }
    split; [now constructor|]. split.
    + intros n [<-|Hi]; [auto|]. destruct (Hin _ Hi) as [Hf Hp].
      split; [|exact Hp].
      destruct (dict_mem acc n) eqn:E; [|reflexivity].
      assert (dict_mem (dict_set acc n0 v) n = true)
        by (apply dict_mem_set; now right).
      congruence.
    + intros n. rewrite Hm, dict_mem_set. tauto.
Qed.

Lemma fill_defaults_Ok task_family params :
  forall acc r,
    fill_defaults task_family params acc = Ok r ->
    forall n, In n (map fst params) ->
      dict_mem acc n = true
      \/ exists p, In (n, p) params
                   /\ has_task_value p task_family n = Ok true.
Proof.
  induction params as [|[n0 p0] params IH]; intros acc r H n Hn;
    [destruct Hn|]. simpl in H.
  destruct (dict_mem acc n0) eqn:Hacc; simpl in H.
  - destruct Hn as [<-|Hn]; [now left|].
    destruct (IH _ _ H n Hn) as [Hl|(p & Hp & Hh)]; [now left|].
    right. exists p. split; [now right|exact Hh].
  - destruct (has_task_value p0 task_family n0) as [[|]|e] eqn:Hh;
      simpl in H; try discriminate.
    + destruct (task_value p0 task_family n0) as [v|]; simpl in H;
        [|discriminate].
      destruct Hn as [<-|Hn]; [right; exists p0; split; [now left|exact Hh]|].
      destruct (IH _ _ H n Hn) as [Hl|(p & Hp & Hh')].
      * apply dict_mem_set in Hl as [<-|Hl]; [|now left].
        right. exists p0. split; [now left|exact Hh].
      * right. exists p. split; [now right|exact Hh'].
    + destruct (issubclass e Exception_); discriminate.
Qed.

(** X14. When [get_param_values] succeeds it returns one value per
    declared parameter, in declaration order; there were no more
    positional arguments than positional parameters; the keyword names
    are distinct, declared, and none of them was already given
    positionally; and every parameter given neither way has a value in
    the task's configuration or default. *)
Theorem get_param_values_success :
  forall cls params args kwargs pvs,
    get_param_values cls params args kwargs = Ok pvs ->
    map fst pvs = map fst params
    /\ List.length args
       <= List.length (filter (fun np => positional (snd np)) params)
    /\ NoDup (map fst kwargs)
    /\ (forall n, In n (map fst kwargs) ->
          In n (map fst params) /\ ~ In n (positional_names params args))
    /\ (forall n, In n (map fst params) ->
          In n (positional_names params args)
          \/ In n (map fst kwargs)
          \/ exists p, In (n, p) params
               /\ has_task_value p (get_task_family cls) n = Ok true).
Proof.
  intros cls params args kwargs pvs H.
  split; [exact (get_param_values_names _ _ _ _ H)|].
  unfold get_param_values in H.
  destruct (fill_positional _ args []) as [r1|] eqn:H1; simpl in H;
    [|discriminate].
  destruct (fill_keywords _ kwargs r1) as [r2|] eqn:H2; simpl in H;
    [|discriminate].
  destruct (fill_defaults _ params r2) as [r3|] eqn:H3; simpl in H;
    [|discriminate].
  apply fill_positional_Ok in H1 as [Hl Hm1].
  apply fill_keywords_Ok in H2 as (Hnd & Hin & Hm2).
  pose proof (fill_defaults_Ok _ _ _ H3) as Hd.
  assert (Hpos : forall n, dict_mem r1 n = true <->
                           In n (positional_names params args)).
  { intros n. rewrite Hm1. unfold positional_names, dict_mem. simpl.
    intuition discriminate. }
  split; [exact Hl|]. split; [exact Hnd|]. split.
  - intros n Hn. destruct (Hin _ Hn) as [Hf Hp]. split.
    + now apply dict_mem_of_pairs.
    + intros Hc. apply Hpos in Hc. congruence.
  - intros n Hn. destruct (Hd n Hn) as [Hr|He]; [|auto].
    apply Hm2 in Hr as [Hr|Hr]; [left; now apply Hpos|auto].
Qed.

Lemma fill_positional_too_many pp :
  forall args acc,
    (forall n p v, In (n, p) pp -> exists v', normalize p v = Ok v') ->
    List.length pp < List.length args ->
    fill_positional pp args acc = Raise UnknownParameterException.
Proof.
  induction pp as [|[n0 p0] pp IH]; intros [|a args] acc Hn Hl;
    simpl in Hl; try lia; [reflexivity|].
  simpl. destruct (Hn n0 p0 a (or_introl eq_refl)) as (v & ->). simpl.
  apply IH; [|lia]. intros n p w Hin. apply (Hn n p w). now right.
Qed.

(** X15. More positional arguments than positional parameters is an
    [UnknownParameterException], whatever the keyword arguments (when
    normalizing the arguments does not itself fail). *)
Theorem get_param_values_too_many_positional :
  forall cls params args kwargs,
    (forall n p v, In (n, p) params -> exists v', normalize p v = Ok v') ->
    List.length (filter (fun np => positional (snd np)) params)
    < List.length args ->
    get_param_values cls params args kwargs
    = Raise UnknownParameterException.
Proof.
  intros cls params args kwargs Hn Hl. unfold get_param_values.
  rewrite fill_positional_too_many; [reflexivity| |exact Hl].
  intros n p v Hin. apply filter_In in Hin as [Hin _]. now apply (Hn n p v).
Qed.

(** ** The further properties at concrete inputs *)

Lemma flatten_input_is_outputs_of_deps_witness :
  task_struct (t_requires Example.wrapper) = true
  /\ exists paths, input Example.wrapper = Ok paths
       /\ flatten paths = flat_map outputs_of (deps Example.wrapper).
Proof.
  split; [reflexivity|].
  apply (flatten_input_is_outputs_of_deps Example.wrapper). reflexivity.
Defined.

Lemma add_appends_under_fresh_name_witness :
  exists st' self',
    add Example.objects Example.flow1 (TaskObject 0) = Ok (st', self')
    /\ exists o n,
         TaskObject 0 = TaskObject o
         /\ Task_getattr (st' o) (py "name") = Ok n
         /\ taskset_mem (taskset Example.flow1) n = false
         /\ taskset self' = taskset Example.flow1 ++ [(n, o)]
         /\ (forall o', o' <> o -> st' o' = Example.objects o')
         /\ (st' o = Example.objects o
             \/ st' o = Task_setattr (Example.objects o) (py "name") n)
         /\ name self' = name Example.flow1
         /\ autoRename self' = autoRename Example.flow1.
Proof.
  destruct (add Example.objects Example.flow1 (TaskObject 0))
    as [[st' self']|e] eqn:H; [|vm_compute in H; discriminate].
  exists st', self'. split; [reflexivity|].
  exact (add_appends_under_fresh_name _ _ _ H).
Defined.

Lemma add_then_lookup_witness :
  exists st' self',
    add Example.objects Example.flow1 (TaskObject 0) = Ok (st', self')
    /\ exists o,
         TaskObject 0 = TaskObject o
         /\ (forall s, Task_getattr (st' o) (py "name") = Ok (PStr s) ->
                       taskset_get (taskset self') (PStr s) = Some o)
         /\ (forall k u, taskset_get (taskset Example.flow1) k = Some u ->
                         taskset_get (taskset self') k = Some u
                         /\ (u <> o -> st' u = Example.objects u)).
Proof.
  destruct (add Example.objects Example.flow1 (TaskObject 0))
    as [[st' self']|e] eqn:H; [|vm_compute in H; discriminate].
  exists st', self'. split; [reflexivity|].
  exact (add_then_lookup _ _ _ H).
Defined.


(** The same object added twice: the two entries are this one object,
    and both show the second name. *)
Example add_same_object_twice :
  match add Example.objects (Flow_init (py "flow")) (TaskObject 0) with
  | Ok (st1, f1) =>
      match add st1 f1 (TaskObject 0) with
      | Ok (st2, f2) =>
          taskset f2 = [(PStr (py "build"), 0); (PStr (py "flow_0"), 0)]
          /\ map (fun e => Task_getattr (st2 (snd e)) (py "name"))
                 (taskset f2)
             = [Ok (PStr (py "flow_0")); Ok (PStr (py "flow_0"))]
      | Raise _ => False
      end
  | Raise _ => False
  end.
Proof. vm_compute. split; reflexivity. Qed.

(** A task whose name is a list cannot be added: the name is hashed by
    the membership test. *)
Example add_unhashable_name :
  add (fun _ => Task_setattr Example.task_a (py "name") (PSeq KList []))
      (Flow_init (py "flow")) (TaskObject 0)
  = Raise TypeError.
Proof. vm_compute. reflexivity. Qed.

Lemma get_param_values_success_witness :
  exists pvs,
    get_param_values Example.Report (get_params Example.Report)
      [PStr (py "2020")] [(py "note", PStr (py "y"))] = Ok pvs
    /\ map fst pvs = map fst (get_params Example.Report)
    /\ NoDup (map fst [(py "note", PStr (py "y"))]).
Proof.
  destruct (get_param_values Example.Report (get_params Example.Report)
              [PStr (py "2020")] [(py "note", PStr (py "y"))])
    as [pvs|e] eqn:H; [|vm_compute in H; discriminate].
  exists pvs. split; [reflexivity|].
  destruct (get_param_values_success _ _ _ _ H) as (H1 & _ & H3 & _).
  split; assumption.
Defined.

Lemma get_param_values_too_many_positional_witness :
  get_param_values Example.Report (get_params Example.Report)
    [PStr (py "2020"); PStr (py "x"); PStr (py "extra")] []
  = Raise UnknownParameterException.
Proof.
  apply get_param_values_too_many_positional.
  - intros n p v [H|[H|[]]]; injection H as <- <-; eexists; reflexivity.
  - cbn. lia.
Defined.

(** ** [DynamicRequirements] *)

(** X16. Without a custom completeness function, and called without
    [complete_fn], [DynamicRequirements.complete] gives what
    [complete()] gives on a wrapper task that requires the same
    structure; the flattened requirements are cached by the call, and a
    second call gives the same answer and leaves the object as it is. *)
Theorem DynamicRequirements_complete_as_wrapper :
  forall self c i h kw d cd o,
    custom_complete self = None ->
    flat_cache_ok self ->
    fst (DynamicRequirements_complete self None)
    = complete (MkTask c i h kw d cd WrapperComplete o (requirements self))
    /\ _flat_requirements (snd (DynamicRequirements_complete self None))
       = Some (flatten (requirements self))
    /\ DynamicRequirements_complete
         (snd (DynamicRequirements_complete self None)) None
       = DynamicRequirements_complete self None.
Proof.
  intros self c i h kw d cd o Hc Hok.
  assert (Hw : complete (MkTask c i h kw d cd WrapperComplete o
                           (requirements self))
               = all_of call_complete (flatten (requirements self)))
    by apply all_complete_flatten.
  rewrite Hw. clear Hw. destruct self as [req cc fr p].
  unfold flat_cache_ok in Hok. cbn in Hc, Hok. subst cc.
  unfold DynamicRequirements_complete, flat_requirements.
  destruct Hok as [-> | ->]; cbn; auto.
Qed.

Lemma DynamicRequirements_complete_as_wrapper_witness :
  fst (DynamicRequirements_complete
         (DynamicRequirements_init (t_requires Example.wrapper) None) None)
  = complete Example.wrapper.
Proof.
  refine (proj1 (@DynamicRequirements_complete_as_wrapper
                   (DynamicRequirements_init (t_requires Example.wrapper) None)
                   4%positive (py "All__99914b932b") 0%Z [] [] []
                   (PSeq KList []) eq_refl _)).
  left. reflexivity.
Defined.

(** ** [flatten_output] *)

Lemma pyval_size_pos v : 1 <= pyval_size v.
Proof. destruct v; simpl; lia. Qed.

Lemma pyval_size_dict k items :
  pyval_size (PDict k items)
  = S (list_sum (map (fun kv => pyval_size (snd kv)) items)).
Proof.
  simpl. f_equal. induction items as [|[key v] r IH]; simpl; [reflexivity|].
  now rewrite IH.
Qed.

Lemma pyval_size_seq k elems :
  pyval_size (PSeq k elems) = S (list_sum (map pyval_size elems)).
Proof.
  simpl. f_equal. induction elems as [|v r IH]; simpl; [reflexivity|].
  now rewrite IH.
Qed.

Lemma pyval_size_iter k elems :
  pyval_size (PIter k elems) = S (list_sum (map pyval_size elems)).
Proof.
  simpl. f_equal. induction elems as [|v r IH]; simpl; [reflexivity|].
  now rewrite IH.
Qed.

Lemma flatten_size struct :
  list_sum (map pyval_size (flatten struct)) <= pyval_size struct.
Proof.
  pattern struct.
  apply pyval_task_ind with (Q := fun _ => True); auto;
    try solve [intros; simpl; lia].
  - intros k items IH. rewrite flatten_dict, pyval_size_dict.
    induction IH as [|kv r Hv _ IHr]; simpl in *; [lia|].
    rewrite map_app, list_sum_app. lia.
  - intros k elems IH. rewrite flatten_seq, pyval_size_seq.
    induction IH as [|v r Hv _ IHr]; simpl in *; [lia|].
    rewrite map_app, list_sum_app. lia.
  - intros k elems IH. rewrite flatten_iter, pyval_size_iter.
    induction IH as [|v r Hv _ IHr]; simpl in *; [lia|].
    rewrite map_app, list_sum_app. lia.
Qed.

Lemma queue_size_step t rest :
  list_sum (map pyval_size (rest ++ flatten (t_requires t)))
  < list_sum (map pyval_size (PTask t :: rest)).
Proof.
  rewrite map_app, list_sum_app. simpl.
  pose proof (flatten_size (t_requires t)).
  destruct t. simpl in *. lia.
Qed.

Lemma flatten_output_loop_errors fuel :
  forall queue acc e,
    list_sum (map pyval_size queue) <= fuel ->
    flatten_output_loop fuel queue acc = Raise e -> e = AttributeError.
Proof.
  induction fuel as [|fuel IH]; intros [|cur rest] acc e Hm H;
    try discriminate.
  - simpl in Hm. pose proof (pyval_size_pos cur). lia.
  - cbn [flatten_output_loop] in H.
    destruct cur; try (injection H as <-; reflexivity).
    destruct (flatten (t_output t)) eqn:Ho.
    + apply IH in H; [exact H|].
      pose proof (queue_size_step t rest). lia.
    + apply IH in H; [exact H|].
      simpl in Hm. pose proof (pyval_size_pos (PTask t)). lia.
Qed.

Lemma only_tasks_dict k items :
  only_tasks (PDict k items) = forallb (fun kv => only_tasks (snd kv)) items.
Proof.
  simpl. induction items as [|[key v] r IH]; simpl; [reflexivity|].
  now rewrite IH.
Qed.

Lemma only_tasks_flatten struct :
  only_tasks struct = true ->
  Forall (fun x => exists t, x = PTask t /\ only_tasks x = true)
         (flatten struct).
Proof.
  pattern struct.
  apply pyval_task_ind with (Q := fun _ => True); auto;
    try solve [intros; discriminate]; try solve [intros; constructor].
  - intros t _ H. constructor; [|constructor]. now exists t.
  - intros k items IH H. rewrite only_tasks_dict in H. rewrite flatten_dict.
    induction IH as [|kv r Hv _ IHr]; simpl in *; [constructor|].
    apply andb_true_iff in H as [H1 H2]. apply Forall_app. auto.
  - intros k elems IH H. rewrite flatten_seq.
    induction IH as [|v r Hv _ IHr]; simpl in *; [constructor|].
    apply andb_true_iff in H as [H1 H2]. apply Forall_app. auto.
  - intros k elems IH H. rewrite flatten_iter.
    induction IH as [|v r Hv _ IHr]; simpl in *; [constructor|].
    apply andb_true_iff in H as [H1 H2]. apply Forall_app. auto.
Qed.

Lemma flatten_output_loop_total fuel :
  forall queue acc,
    list_sum (map pyval_size queue) <= fuel ->
    Forall (fun x => exists t, x = PTask t /\ only_tasks x = true) queue ->
    exists tasks, flatten_output_loop fuel queue acc = Ok tasks.
Proof.
  induction fuel as [|fuel IH]; intros [|cur rest] acc Hm HF;
    try (now eexists).
  - simpl in Hm. pose proof (pyval_size_pos cur). lia.
  - inversion HF as [|? ? (t & -> & Ht) HF']; subst.
    cbn [flatten_output_loop].
    destruct (flatten (t_output t)) eqn:Ho.
    + apply IH.
      * pose proof (queue_size_step t rest). lia.
      * apply Forall_app. split; [exact HF'|].
        apply only_tasks_flatten. destruct t. exact Ht.
    + apply IH; [|exact HF'].
      simpl in Hm. pose proof (pyval_size_pos (PTask t)). lia.
Qed.



(** X18. A task that has an output is not expanded: [flatten_output]
    returns its flattened output, whatever it requires. *)
Theorem flatten_output_of_task_with_output :
  forall task_,
    flatten (t_output task_) <> [] ->
    flatten_output task_ = Ok (flatten (t_output task_)).
Proof.
  intros task_ H. unfold flatten_output.
  cbn [pyval_size flatten_output_loop].
  destruct (flatten (t_output task_)) as [|o r] eqn:Ho; [congruence|].
  cbn [task_in existsb negb app].
  assert (G : forall fuel acc, flatten_output_loop fuel [] acc = Ok acc)
    by (intros [|fuel] acc; reflexivity).
  rewrite G. cbn [bind flat_map]. now rewrite Ho, app_nil_r.
Qed.

Lemma flatten_output_of_task_with_output_witness :
  flatten (t_output Example.task_a) <> []
  /\ flatten_output Example.task_a = Ok (flatten (t_output Example.task_a)).
Proof.
  assert (H : flatten (t_output Example.task_a) <> []) by discriminate.
  split; [exact H|].
  exact (flatten_output_of_task_with_output Example.task_a H).
Defined.

Lemma reaches_snoc root t u :
  reaches root t ->
  flatten (t_output t) = [] ->
  In (PTask u) (flatten (t_requires t)) ->
  reaches root u.
Proof.
  induction 1 as [t|t v t' Ho Hin _ IH]; intros Ho' Hin'.
  - eapply reaches_step; [exact Ho'|exact Hin'|constructor].
  - eapply reaches_step; [exact Ho|exact Hin|]. now apply IH.
Qed.

Lemma recorded_once_snoc tasks t :
  recorded_once tasks -> task_in t tasks = false ->
  recorded_once (tasks ++ [t]).
Proof.
  intros Hr Ht before x after E.
  destruct after as [|y after'].
  - apply app_inj_tail in E as [-> ->]. exact Ht.
  - apply (Hr before x (removelast (y :: after'))).
    assert (E' : removelast (tasks ++ [t])
                 = removelast (before ++ x :: y :: after'))
      by now rewrite E.
    rewrite removelast_last in E'. rewrite E'.
    rewrite removelast_app by discriminate.
    change (x :: y :: after') with ([x] ++ y :: after').
    rewrite (removelast_app [x]) by discriminate. reflexivity.
Qed.

Lemma flatten_output_loop_sound root fuel :
  forall queue acc tasks,
    flatten_output_loop fuel queue acc = Ok tasks ->
    (forall u, In (PTask u) queue -> reaches root u) ->
    (forall u, In u acc -> reaches root u /\ flatten (t_output u) <> []) ->
    recorded_once acc ->
    (forall u, In u tasks -> reaches root u /\ flatten (t_output u) <> [])
    /\ recorded_once tasks.
Proof.
  induction fuel as [|fuel IH]; intros [|cur rest] acc tasks H Hq Ha Hr;
    try discriminate.
  - injection H as <-. auto.
  - injection H as <-. auto.
  - cbn [flatten_output_loop] in H.
    destruct cur; try discriminate.
    destruct (flatten (t_output t)) as [|o r] eqn:Ho.
    + apply IH in H; auto.
      intros u Hu. apply in_app_or in Hu as [Hu|Hu]; [apply Hq; now right|].
      apply (@reaches_snoc root t u); auto. apply Hq. now left.
    + destruct (task_in t acc) eqn:Hin; cbn [negb] in H.
      * apply IH in H; auto. intros u Hu. apply Hq. now right.
      * apply IH in H; auto.
        -- intros u Hu. apply Hq. now right.
        -- intros u Hu. apply in_app_or in Hu as [Hu|[<-|[]]]; [auto|].
           split; [apply Hq; now left|congruence].
        -- now apply recorded_once_snoc.
Qed.

(** X19. Every output that [flatten_output] returns is an output of a
    task reached from the start through tasks without output, and the
    tasks whose outputs are returned are recorded once each: none is
    equal (same hash and [==]) to one recorded before it. *)
Theorem flatten_output_sound :
  forall task_ outputs,
    flatten_output task_ = Ok outputs ->
    exists tasks,
      outputs = flat_map (fun t => flatten (t_output t)) tasks
      /\ (forall u, In u tasks ->
            reaches task_ u /\ flatten (t_output u) <> [])
      /\ recorded_once tasks.
Proof.
  intros task_ outputs H. unfold flatten_output in H.
  destruct (flatten_output_loop _ _ _) as [tasks|] eqn:Hl; simpl in H;
    [|discriminate].
  injection H as <-. exists tasks. split; [reflexivity|].
  apply (@flatten_output_loop_sound task_) in Hl; auto.
  - intros u [Hu|[]]. injection Hu as <-. constructor.
  - intros u [].
  - intros before t after E. destruct before; discriminate.
Qed.

Lemma flatten_output_sound_witness :
  flatten_output Example.wrapper = Ok [Example.target_a]
  /\ exists tasks,
       [Example.target_a] = flat_map (fun t => flatten (t_output t)) tasks
       /\ (forall u, In u tasks ->
             reaches Example.wrapper u /\ flatten (t_output u) <> [])
       /\ recorded_once tasks.
Proof.
  assert (H : flatten_output Example.wrapper = Ok [Example.target_a])
    by (vm_compute; reflexivity).
  split; [exact H|].
  exact (flatten_output_sound Example.wrapper H).
Defined.

(** ** Serialized parameters and [from_str_params] *)

Lemma dict_set_fresh {V} (d : pydict V) k v :
  dict_get d k = None -> dict_set d k v = d ++ [(k, v)].
Proof.
  induction d as [|[k0 v0] r IH]; simpl; [reflexivity|].
  destruct (pystr_eqb k0 k); [discriminate|]. intros H. now rewrite IH.
Qed.

Lemma dict_of_pairs_NoDup_id {V} (l : list (pystr * V)) :
  NoDup (map fst l) -> dict_of_pairs l = l.
Proof.
  unfold dict_of_pairs.
  assert (G : forall acc : pydict V,
            NoDup (map fst (acc ++ l)) ->
            fold_left (fun d kv => dict_set d (fst kv) (snd kv)) l acc
            = acc ++ l).
  { induction l as [|[k v] r IH]; intros acc H; simpl.
    - now rewrite app_nil_r.
    - rewrite dict_set_fresh.
      + rewrite IH; [now rewrite <- app_assoc|]. now rewrite <- app_assoc.
      + apply dict_get_None_iff. rewrite map_app in H. simpl in H.
        apply NoDup_remove_2 in H. intros Hi. apply H.
        apply in_or_app. now left. }
  intros H. now apply (G []).
Qed.

Lemma dict_get_Some_In {V} (d : pydict V) k v :
  dict_get d k = Some v -> In (k, v) d.
Proof.
  induction d as [|[k0 v0] r IH]; simpl; [discriminate|].
  destruct (pystr_eqb k0 k) eqn:E.
  - apply pystr_eqb_eq in E. subst. intros [= ->]. now left.
  - intros H. right. now apply IH.
Qed.

Lemma dict_get_as_params_str d k :
  dict_get (as_params_str d) k
  = match dict_get d k with Some s => Some (StrValue s) | None => None end.
Proof.
  induction d as [|[k0 v0] r IH]; simpl; [reflexivity|].
  destruct (pystr_eqb k0 k); [reflexivity|exact IH].
Qed.

Lemma Forall2_In_l {A B} (R : A -> B -> Prop) l l' x :
  Forall2 R l l' -> In x l -> exists y, In y l' /\ R x y.
Proof.
  induction 1 as [|a b r r' Hab _ IH]; [intros []|].
  intros [<-|H].
  - exists b. split; [now left|exact Hab].
  - destruct (IH H) as (y & Hy & Hr). exists y. split; [now right|exact Hr].
Qed.

(** *** What [to_str_params] holds *)

Lemma to_str_params_loop_other pd items :
  forall acc s n,
    to_str_params_loop pd true true items acc = Ok s ->
    ~ In n (map fst items) ->
    dict_get s n = dict_get acc n.
Proof.
  induction items as [|[n0 v0] r IH]; intros acc s n H Hn; simpl in H.
  - now injection H as <-.
  - simpl in Hn.
    destruct (dict_getitem pd n0) as [p|]; simpl in H; [|discriminate].
    destruct (_ && _ && _).
    + rewrite (IH _ _ n H) by tauto. apply dict_get_set_other. tauto.
    + apply (IH _ _ n H). tauto.
Qed.

Lemma to_str_params_loop_value pd items :
  forall acc s n v p,
    to_str_params_loop pd true true items acc = Ok s ->
    NoDup (map fst items) ->
    In (n, v) items ->
    dict_get pd n = Some p ->
    significant p = true ->
    visibility p = PUBLIC ->
    dict_get s n = Some (serialize p v).
Proof.
  induction items as [|[n0 v0] r IH]; intros acc s n v p H Hnd Hin Hp Hs Hv;
    [destruct Hin|]. simpl in H.
  inversion Hnd as [|? ? Hnin Hnd']; subst.
  destruct Hin as [Hin|Hin].
  - injection Hin as -> ->. unfold dict_getitem in H. rewrite Hp in H.
    simpl in H. rewrite Hs, Hv in H. simpl in H.
    rewrite (to_str_params_loop_other _ _ _ n H Hnin).
    now rewrite dict_get_set, pystr_eqb_refl.
  - destruct (dict_getitem pd n0) as [p0|]; simpl in H; [|discriminate].
    destruct (_ && _ && _); eapply IH; eauto.
Qed.

(** *** What [from_str_params] passes to the constructor *)

Section FromStrParamsFacts.
Variable parse : ParameterT -> pystr -> result pyval.
Variable parse_list : ParameterT -> list pystr -> result pyval.

Lemma from_str_params_loop_other params ps :
  forall kw0 kw n,
    from_str_params_loop parse parse_list params ps kw0 = Ok kw ->
    ~ In n (map fst params) ->
    dict_get kw n = dict_get kw0 n.
Proof.
  induction params as [|[n0 p0] r IH]; intros kw0 kw n H Hn; simpl in H.
  - now injection H as <-.
  - simpl in Hn. destruct (dict_mem ps n0).
    + destruct (dict_getitem ps n0) as [x|]; simpl in H; [|discriminate].
      destruct (match x with ListValue l => _ | StrValue s => _ end)
        as [v|]; simpl in H; [|discriminate].
      rewrite (IH _ _ n H) by tauto. apply dict_get_set_other. tauto.
    + apply (IH _ _ n H). tauto.
Qed.

Lemma from_str_params_loop_value params ps :
  forall kw0 kw n p x,
    from_str_params_loop parse parse_list params ps kw0 = Ok kw ->
    NoDup (map fst params) ->
    In (n, p) params ->
    dict_get ps n = Some (StrValue x) ->
    exists a, parse p x = Ok a /\ dict_get kw n = Some a.
Proof.
  induction params as [|[n0 p0] r IH]; intros kw0 kw n p x H Hnd Hin Hx;
    [destruct Hin|]. simpl in H.
  inversion Hnd as [|? ? Hnin Hnd']; subst.
  destruct Hin as [Hin|Hin].
  - injection Hin as -> ->. unfold dict_mem, dict_getitem in H.
    rewrite Hx in H. simpl in H.
    destruct (parse p x) as [a|] eqn:Ha; simpl in H; [|discriminate].
    exists a. split; [reflexivity|].
    rewrite (from_str_params_loop_other _ _ _ n H Hnin).
    now rewrite dict_get_set, pystr_eqb_refl.
  - destruct (dict_mem ps n0).
    + destruct (dict_getitem ps n0) as [y|]; simpl in H; [|discriminate].
      destruct (match y with ListValue l => _ | StrValue s => _ end)
        as [v|]; simpl in H; [|discriminate].
      eapply IH; eauto.
    + eapply IH; eauto.
Qed.

End FromStrParamsFacts.

(** *** The value that the constructor stores for a keyword argument *)

Lemma fill_keywords_other pd kwargs :
  forall acc r n,
    fill_keywords pd kwargs acc = Ok r ->
    ~ In n (map fst kwargs) ->
    dict_get r n = dict_get acc n.
Proof.
  induction kwargs as [|[n0 a0] kwargs IH]; intros acc r n H Hn; simpl in H.
  - now injection H as <-.
  - simpl in Hn.
    destruct (dict_mem acc n0); [discriminate|].
    destruct (dict_mem pd n0); simpl in H; [|discriminate].
    destruct (dict_getitem pd n0) as [p|]; simpl in H; [|discriminate].
    destruct (normalize p a0) as [v|]; simpl in H; [|discriminate].
    rewrite (IH _ _ n H) by tauto. apply dict_get_set_other. tauto.
Qed.

Lemma fill_keywords_value pd kwargs :
  forall acc r n a,
    fill_keywords pd kwargs acc = Ok r ->
    In (n, a) kwargs ->
    exists p w, dict_get pd n = Some p /\ normalize p a = Ok w
                /\ dict_get r n = Some w.
Proof.
  induction kwargs as [|[n0 a0] kwargs IH]; intros acc r n a H Hin;
    [destruct Hin|].
  pose proof (fill_keywords_Ok _ _ _ H) as (Hnd & _).
  simpl in Hnd. inversion Hnd as [|? ? Hnin _]; subst.
  simpl in H.
  destruct (dict_mem acc n0); [discriminate|].
  destruct (dict_mem pd n0); simpl in H; [|discriminate].
  unfold dict_getitem in H.
  destruct (dict_get pd n0) as [p|] eqn:Hp; simpl in H; [|discriminate].
  destruct (normalize p a0) as [v|] eqn:Hv; simpl in H; [|discriminate].
  destruct Hin as [Hin|Hin].
  - injection Hin as -> ->. exists p, v. repeat split; auto.
    rewrite (fill_keywords_other _ _ _ n H Hnin).
    now rewrite dict_get_set, pystr_eqb_refl.
  - eapply IH; eauto.
Qed.

Lemma fill_defaults_keeps task_family params :
  forall acc r n w,
    fill_defaults task_family params acc = Ok r ->
    dict_get acc n = Some w ->
    dict_get r n = Some w.
Proof.
  induction params as [|[n0 p0] params IH]; intros acc r n w H Hn;
    simpl in H.
  - now injection H as <-.
  - destruct (dict_mem acc n0) eqn:Hm; simpl in H; [eapply IH; eauto|].
    destruct (try_except _ _ _) as [[|]|]; simpl in H; try discriminate.
    destruct (task_value p0 task_family n0) as [v|]; simpl in H;
      [|discriminate].
    eapply IH; [exact H|]. rewrite dict_get_set_other; [exact Hn|].
    intros ->. unfold dict_mem in Hm. rewrite Hn in Hm. discriminate.
Qed.

Lemma fill_positional_nil pp acc : fill_positional pp [] acc = Ok acc.
Proof. destruct pp; reflexivity. Qed.

Lemma get_param_values_keyword_value cls params kwargs pvs n a p :
  get_param_values cls params [] kwargs = Ok pvs ->
  NoDup (map fst params) ->
  In (n, a) kwargs ->
  In (n, p) params ->
  exists w, normalize p a = Ok w
            /\ dict_get pvs n = Some (list_to_tuple w).
Proof.
  intros H Hnd Hin Hp.
  pose proof (get_param_values_names _ _ _ _ H) as Hnames.
  unfold get_param_values in H. rewrite fill_positional_nil in H.
  cbn [bind] in H.
  destruct (fill_keywords _ kwargs []) as [r2|] eqn:H2; simpl in H;
    [|discriminate].
  destruct (fill_defaults _ params r2) as [r3|] eqn:H3; simpl in H;
    [|discriminate].
  destruct (fill_keywords_value _ _ _ n a H2 Hin) as (p' & w & Hp' & Hw & Hr).
  rewrite (dict_of_pairs_NoDup_id _ Hnd) in Hp'.
  rewrite (dict_get_In _ n p Hnd Hp) in Hp'. injection Hp' as <-.
  exists w. split; [exact Hw|].
  pose proof (fill_defaults_keeps _ _ _ n H3 Hr) as Hr3.
  apply mapM_Ok_Forall2 in H.
  destruct (Forall2_In_l (n, p) H Hp) as ([n' v'] & Hy & Hxy).
  simpl in Hxy. unfold dict_getitem in Hxy. rewrite Hr3 in Hxy.
  simpl in Hxy. injection Hxy as <- <-.
  apply dict_get_In; [now rewrite Hnames|exact Hy].
Qed.

Lemma to_str_params_loop_agree_serialized params items1 :
  forall items2 acc,
    Forall2 (fun kv1 kv2 =>
               fst kv1 = fst kv2
               /\ forall p, dict_get params (fst kv1) = Some p ->
                    significant p = true -> visibility p = PUBLIC ->
                    serialize p (snd kv1) = serialize p (snd kv2))
            items1 items2 ->
    to_str_params_loop params true true items1 acc
    = to_str_params_loop params true true items2 acc.
Proof.
  induction items1 as [|[k1 v1] r1 IH]; intros items2 acc H;
    inversion H as [|? [k2 v2] ? r2 [Hk Hv] Hr]; subst; [reflexivity|].
  simpl in Hk, Hv. subst k2. simpl. unfold dict_getitem.
  destruct (dict_get params k1) as [p|]; [|reflexivity]. simpl.
  destruct (significant p) eqn:Hs; simpl; [|now apply IH].
  destruct (visibility p) eqn:Hvis; simpl; try now apply IH.
  rewrite (Hv p eq_refl Hs Hvis). now apply IH.
Qed.

Lemma same_serialized_pointwise (params : pydict ParameterT)
    (kw1 kw2 : pydict pyval) :
  NoDup (map fst kw1) ->
  map fst kw1 = map fst kw2 ->
  (forall k p v1 v2, dict_get params k = Some p ->
     significant p = true -> visibility p = PUBLIC ->
     dict_get kw1 k = Some v1 -> dict_get kw2 k = Some v2 ->
     serialize p v1 = serialize p v2) ->
  Forall2 (fun kv1 kv2 =>
             fst kv1 = fst kv2
             /\ forall p, dict_get params (fst kv1) = Some p ->
                  significant p = true -> visibility p = PUBLIC ->
                  serialize p (snd kv1) = serialize p (snd kv2)) kw1 kw2.
Proof.
  revert kw2. induction kw1 as [|[k1 v1] r1 IH]; intros [|[k2 v2] r2] Hnd Hk Hv;
    simpl in *; try discriminate; [constructor|].
  injection Hk as -> Hr. inversion Hnd as [|? ? Hnin Hnd']; subst.
  constructor.
  - simpl. split; [reflexivity|]. intros p Hp Hs Hvis.
    apply (Hv k2 p v1 v2 Hp Hs Hvis); now rewrite pystr_eqb_refl.
  - apply IH; [assumption..|]. intros k p w1 w2 Hp Hs Hvis H1 H2.
    apply (Hv k p w1 w2 Hp Hs Hvis).
    + destruct (pystr_eqb k2 k) eqn:E; [|exact H1].
      apply pystr_eqb_eq in E. subst k. exfalso. apply Hnin.
      apply dict_get_Some_In in H1.
      change k2 with (fst (k2, w1)). now apply in_map.
    + destruct (pystr_eqb k2 k) eqn:E; [|exact H2].
      apply pystr_eqb_eq in E. subst k. exfalso. apply Hnin. rewrite Hr.
      apply dict_get_Some_In in H2.
      change k2 with (fst (k2, w2)). now apply in_map.
Qed.

(** X20. Round trip through strings: an instance built by
    [from_str_params] from the significant public parameters of an
    instance, as [to_str_params] serializes them, has the same [task_id]
    and is equal to it, when the parameter names of the class are
    distinct and serializing, parsing back and normalizing a value of such
    a parameter keeps its serialization. *)
Theorem from_str_params_round_trip :
  forall py_hash parse parse_list cls args kwargs T s T',
    NoDup (map fst (get_params cls)) ->
    serialize_round_trips parse cls ->
    Task_init py_hash cls args kwargs = Ok T ->
    to_str_params cls (t_param_kwargs T) true true = Ok s ->
    from_str_params py_hash parse parse_list cls (as_params_str s) = Ok T' ->
    t_task_id T' = t_task_id T /\ Task_eq T' T = true.
Proof.
  intros py_hash parse parse_list cls args kwargs T s T' Hnd RT HT Hs HT'.
  apply Task_init_inv in HT
    as (pvs & sp & Hpv & Hsp & Hid & Hkw & _ & Hc & _).
  rewrite Hkw, Hsp in Hs. injection Hs as ->.
  unfold from_str_params in HT'.
  destruct (from_str_params_loop _ _ _ _ _) as [kw'|] eqn:Hloop;
    simpl in HT'; [|discriminate].
  apply Task_init_inv in HT'
    as (pvs' & sp' & Hpv' & Hsp' & Hid' & _ & _ & Hc' & _).
  pose proof (get_param_values_names _ _ _ _ Hpv) as Hn.
  pose proof (get_param_values_names _ _ _ _ Hpv') as Hn'.
  assert (Hnd1 : NoDup (map fst pvs)) by now rewrite Hn.
  assert (Hnd2 : NoDup (map fst pvs')) by now rewrite Hn'.
  unfold to_str_params in Hsp, Hsp'.
  rewrite (dict_of_pairs_NoDup_id _ Hnd) in Hsp, Hsp'.
  rewrite (dict_of_pairs_NoDup_id _ Hnd1) in Hsp.
  rewrite (dict_of_pairs_NoDup_id _ Hnd2) in Hsp'.
  assert (Heq : sp' = s).
  { rewrite (@to_str_params_loop_agree_serialized _ pvs' pvs []) in Hsp';
      [congruence|].
    apply same_serialized_pointwise; [exact Hnd2|congruence|].
    intros k p v1 v2 Hp Hsig Hvis H1 H2.
    assert (Hin : In (k, p) (get_params cls)) by now apply dict_get_Some_In.
    assert (Hsk : dict_get s k = Some (serialize p v2)).
    { eapply to_str_params_loop_value; eauto. now apply dict_get_Some_In. }
    assert (Hps : dict_get (as_params_str s) k
                  = Some (StrValue (serialize p v2)))
      by now rewrite dict_get_as_params_str, Hsk.
    destruct (@from_str_params_loop_value parse parse_list (get_params cls)
                (as_params_str s) [] kw' k p (serialize p v2)
                Hloop Hnd Hin Hps) as (a & Ha & Hka).
    destruct (@get_param_values_keyword_value cls (get_params cls) kw' pvs'
                k a p Hpv' Hnd (dict_get_Some_In _ _ Hka) Hin)
      as (w & Hw & Hv').
    rewrite H1 in Hv'. injection Hv' as ->.
    exact (RT k p v2 a w Hin Hsig Hvis Ha Hw). }
  subst sp'.
  assert (Hids : t_task_id T' = t_task_id T) by congruence.
  split; [exact Hids|]. apply Task_eq_iff. split; congruence.
Qed.

Lemma from_str_params_round_trip_witness :
  to_str_params Example.Report (t_param_kwargs Example.report_x) true true
  = Ok RoundTrip.report_str
  /\ from_str_params Example.hash RoundTrip.parse RoundTrip.parse_list
       Example.Report (as_params_str RoundTrip.report_str)
     = Ok RoundTrip.report_parsed
  /\ t_task_id RoundTrip.report_parsed = t_task_id Example.report_x
  /\ Task_eq RoundTrip.report_parsed Example.report_x = true.
Proof.
  assert (H1 : to_str_params Example.Report
                 (t_param_kwargs Example.report_x) true true
               = Ok RoundTrip.report_str) by (vm_compute; reflexivity).
  assert (H2 : from_str_params Example.hash RoundTrip.parse
                 RoundTrip.parse_list Example.Report
                 (as_params_str RoundTrip.report_str)
               = Ok RoundTrip.report_parsed) by (vm_compute; reflexivity).
  split; [exact H1|]. split; [exact H2|].
  refine (@from_str_params_round_trip Example.hash RoundTrip.parse
            RoundTrip.parse_list Example.Report
            [PStr (py "2020"); PStr (py "x")] []
            Example.report_x RoundTrip.report_str RoundTrip.report_parsed
            _ _ _ H1 H2).
  - repeat (constructor; [simpl; intuition discriminate|]). constructor.
  - intros n p v a w Hin _ _ Ha Hw.
    unfold RoundTrip.parse in Ha. injection Ha as <-.
    destruct Hin as [Hin|[Hin|[]]]; injection Hin as <- <-;
      simpl in Hw; injection Hw as <-; reflexivity.
  - vm_compute. reflexivity.
Defined.

(** ** What [to_str_params] leaves out *)

Lemma to_str_params_loop_entry pd os op items :
  forall acc s n x,
    to_str_params_loop pd os op items acc = Ok s ->
    dict_get s n = Some x ->
    dict_get acc n = Some x
    \/ exists p v,
         dict_get pd n = Some p /\ In (n, v) items /\ x = serialize p v
         /\ visibility p <> PRIVATE
         /\ (os = true -> significant p = true)
         /\ (op = true -> visibility p = PUBLIC).
Proof.
  induction items as [|[n0 v0] r IH]; intros acc s n x H Hx; simpl in H.
  - injection H as <-. now left.
  - unfold dict_getitem in H.
    destruct (dict_get pd n0) as [p0|] eqn:Hp0; simpl in H; [|discriminate].
    destruct ((negb os || significant p0)
              && (negb op || visibility_eqb (visibility p0) PUBLIC)
              && negb (visibility_eqb (visibility p0) PRIVATE)) eqn:Hc.
    + destruct (IH _ _ n x H Hx) as [Ha | (p & v & Hp & Hin & Hrest)].
      * rewrite dict_get_set in Ha.
        destruct (pystr_eqb n0 n) eqn:E; [|now left].
        apply pystr_eqb_eq in E. subst n0. injection Ha as <-.
        right. exists p0, v0.
        apply andb_true_iff in Hc as [Hc H3].
        apply andb_true_iff in Hc as [H1 H2].
        split; [exact Hp0|]. split; [now left|]. split; [reflexivity|].
        split; [|split].
        -- intros E. rewrite E in H3. discriminate.
        -- intros ->. exact H1.
        -- intros ->. simpl in H2. destruct (visibility p0); auto; discriminate.
      * right. exists p, v. split; [exact Hp|]. split; [now right|exact Hrest].
    + destruct (IH _ _ n x H Hx) as [Ha | (p & v & Hp & Hin & Hrest)];
        [now left|].
      right. exists p, v. split; [exact Hp|]. split; [now right|exact Hrest].
Qed.

(** X21. Whatever the two flags, every entry of [to_str_params] is the
    serialization of the value of a declared parameter that is not
    [PRIVATE]; with [only_significant] the parameter is significant, and
    with [only_public] it is [PUBLIC]: private parameters never leave the
    instance this way, hidden ones only when [only_public] is off. *)
Theorem to_str_params_entries :
  forall cls param_kwargs only_significant only_public s n x,
    to_str_params cls param_kwargs only_significant only_public = Ok s ->
    dict_get s n = Some x ->
    exists p v,
      dict_get (dict_of_pairs (get_params cls)) n = Some p
      /\ In (n, v) param_kwargs
      /\ x = serialize p v
      /\ visibility p <> PRIVATE
      /\ (only_significant = true -> significant p = true)
      /\ (only_public = true -> visibility p = PUBLIC).
Proof.
  intros cls kw os op s n x H Hx. unfold to_str_params in H.
  eapply to_str_params_loop_entry in Hx; [|exact H].
  destruct Hx as [Ha|He]; [discriminate|exact He].
Qed.

Lemma to_str_params_entries_witness :
  exists p v,
    dict_get (dict_of_pairs (get_params Example.Report)) (py "date") = Some p
    /\ In (py "date", v) (t_param_kwargs Example.report_x)
    /\ py "2020" = serialize p v
    /\ visibility p <> PRIVATE
    /\ (true = true -> significant p = true)
    /\ (true = true -> visibility p = PUBLIC).
Proof.
  apply (@to_str_params_entries Example.Report
           (t_param_kwargs Example.report_x) true true
           RoundTrip.report_str (py "date") (py "2020")).
  - vm_compute. reflexivity.
  - reflexivity.
Defined.
